(** * The audio recorder component of jules-theranotes

    A shallow embedding of [frontend/components/audio-recorder.tsx]:
    the WAV encoder ([floatTo16BitPCM], [writeString], [encodeWAV]), the
    recorder that captures raw samples and encodes them itself
    ([WavRecorder]), and the recorder built on the runtime's
    [MediaRecorder] with transcription and reset ([Recorder]).

    The first part of the file holds the definitions, the second part the
    lemmas and theorems about them. *)

From Stdlib Require Import String Ascii ZArith QArith Qround Qpower List Bool Lia Lqa.
From Stdlib Require SpecFloat.
From Stdlib Require DecimalString DecimalZ DecimalPos Qabs.
Import ListNotations.

Local Open Scope Z_scope.

(* ===================================================================== *)
(** * Part I: definitions                                                 *)
(* ===================================================================== *)

(** ** JavaScript numbers, as far as the encoder uses them *)

Module JS.

(** A Number is NaN, an infinity, or a finite value.  A finite value is
    carried by the rational it denotes (both zeros are [Fin 0]).  The
    elements of a [Float32Array] are binary32 values, so they have at most
    24 significant bits; the encoder only multiplies a value of magnitude
    at most 1 by [0x8000] or [0x7fff], and such a product has at most 39
    significant bits, which binary64 holds without rounding.  The products
    of the encoder are therefore the exact ones ([products_exact] below
    proves it of the binary64 multiplication of the standard library);
    comparisons, minimum, maximum and truncation never round. *)
Inductive number : Type :=
| NaN
| NegInf
| PosInf
| Fin (q : Q).

Definition of_Z (z : Z) : number := Fin (inject_Z z).

(** [a < b] of the language: false as soon as one side is NaN. *)
Definition ltb (a b : number) : bool :=
  match a, b with
  | NaN, _ | _, NaN => false
  | NegInf, NegInf => false
  | NegInf, _ => true
  | _, NegInf => false
  | PosInf, _ => false
  | Fin _, PosInf => true
  | Fin x, Fin y => match (x ?= y)%Q with Lt => true | _ => false end
  end.

(** [a <= b] of the language. *)
Definition leb (a b : number) : bool :=
  match a, b with
  | NaN, _ | _, NaN => false
  | NegInf, _ => true
  | _, PosInf => true
  | _, NegInf => false
  | PosInf, _ => false
  | Fin x, Fin y => match (x ?= y)%Q with Gt => false | _ => true end
  end.

(** [Math.min(a, b)] and [Math.max(a, b)]: NaN if an argument is NaN. *)
Definition Math_min (a b : number) : number :=
  match a, b with
  | NaN, _ | _, NaN => NaN
  | _, _ => if ltb b a then b else a
  end.

Definition Math_max (a b : number) : number :=
  match a, b with
  | NaN, _ | _, NaN => NaN
  | _, _ => if ltb a b then b else a
  end.

Definition is_zero (q : Q) : bool := Qeq_bool q 0.

Definition negative (q : Q) : bool :=
  match (q ?= 0)%Q with Lt => true | _ => false end.

(** [a * b]. *)
Definition mul (a b : number) : number :=
  match a, b with
  | NaN, _ | _, NaN => NaN
  | Fin x, Fin y => Fin (x * y)
  | Fin x, PosInf | PosInf, Fin x =>
      if is_zero x then NaN else if negative x then NegInf else PosInf
  | Fin x, NegInf | NegInf, Fin x =>
      if is_zero x then NaN else if negative x then PosInf else NegInf
  | PosInf, PosInf | NegInf, NegInf => PosInf
  | PosInf, NegInf | NegInf, PosInf => NegInf
  end.

(** Rounding toward zero. *)
Definition truncate (q : Q) : Z :=
  if negative q then Qceiling q else Qfloor q.

(** The integer an integer conversion starts from: 0 for NaN and the
    infinities, the truncation otherwise. *)
Definition to_integer (v : number) : Z :=
  match v with
  | Fin q => truncate q
  | _ => 0
  end.

(** Integers modulo [2^16], read as signed. *)
Definition wrap16 (z : Z) : Z := (z + 32768) mod 65536 - 32768.

Definition ToInt16 (v : number) : Z := wrap16 (to_integer v).

(** Two numbers are the same: finite values are compared as rationals. *)
Definition same (a b : number) : Prop :=
  match a, b with
  | Fin p, Fin q => (p == q)%Q
  | NaN, NaN | NegInf, NegInf | PosInf, PosInf => True
  | _, _ => False
  end.

End JS.

(** ** Binary64, as the standard library specifies it

    What relates the numbers above to IEEE 754: the multiplication of
    binary64 numbers of [SpecFloat], the two constants of the encoder, and
    the binary64 numbers that a [Float32Array] yields. *)

Module Binary64.

Import SpecFloat.

(** [x * y] on binary64 ([prec = 53], [emax = 1024]). *)
Definition mul : spec_float -> spec_float -> spec_float := SFmul 53 1024.

(** [0x8000] and [0x7fff]. *)
Definition x8000 : spec_float := S754_finite false (Z.to_pos (2 ^ 52)) (-37).
Definition x7fff : spec_float := S754_finite false (Z.to_pos (32767 * 2 ^ 38)) (-38).

(** The number a binary64 datum denotes. *)
Definition value (x : spec_float) : JS.number :=
  match x with
  | S754_nan => JS.NaN
  | S754_infinity s => if s then JS.NegInf else JS.PosInf
  | S754_zero _ => JS.Fin 0
  | S754_finite s m e =>
      JS.Fin (inject_Z (if s then Zneg m else Zpos m) * 2 ^ e)%Q
  end.

(** Reading an element of a [Float32Array]: the binary64 number equal to
    the binary32 element, its significand shifted to 53 bits. *)
Definition widen32 (x : spec_float) : spec_float :=
  match x with
  | S754_finite s m e =>
      let k := 53 - Zpos (digits2_pos m) in
      S754_finite s (Z.to_pos (Zpos m * 2 ^ k)) (e - k)
  | _ => x
  end.

(** A finite nonzero binary64 number that comes from a binary32 one of
    magnitude below 2: a full 53-bit significand whose low 29 bits are
    zero (a binary32 significand has 24 bits), and an exponent between
    that of the least binary32 number and that of 1. *)
Definition widened (m : positive) (e : Z) : Prop :=
  Zpos (digits2_pos m) = 53 /\ (2 ^ 29 | Zpos m) /\ -201 <= e <= -52.

(** A binary32 datum that is NaN, a zero, or finite of magnitude below 2:
    what the clipping leaves of an element of a [Float32Array]. *)
Definition small32 (x : spec_float) : Prop :=
  valid_binary 24 128 x = true /\
  match x with
  | S754_infinity _ => False
  | S754_finite _ m e => Zpos (digits2_pos m) + e <= 1
  | _ => True
  end.

(** The clipped samples as binary64 numbers: NaN, a zero, or a number as
    above. *)
Inductive clipped : spec_float -> Prop :=
| clipped_nan : clipped S754_nan
| clipped_zero (s : bool) : clipped (S754_zero s)
| clipped_finite (s : bool) (m : positive) (e : Z) :
    widened m e -> clipped (S754_finite s m e).

End Binary64.

(** ** Byte buffers and the [DataView] writers *)

Module DataView.

(** An [ArrayBuffer]: its bytes, each in [0, 256). *)
Definition buffer : Type := list Z.

(** [new ArrayBuffer(n)]: [n] zero bytes. *)
Definition new_ArrayBuffer (n : nat) : buffer := repeat 0 n.

(** Overwrite the bytes from [offset] on with [bytes]. *)
Fixpoint store (b : buffer) (offset : nat) (bytes : list Z) : buffer :=
  match offset, b with
  | O, _ =>
      match bytes, b with
      | [], _ => b
      | _, [] => []
      | x :: bytes', _ :: b' => x :: store b' O bytes'
      end
  | S o, [] => []
  | S o, y :: b' => y :: store b' o bytes
  end.

(** The little-endian bytes of the low [8 * n] bits of [v]. *)
Fixpoint le_bytes (n : nat) (v : Z) : list Z :=
  match n with
  | O => []
  | S n' => v mod 256 :: le_bytes n' (v / 256)
  end.

(** The number whose little-endian bytes are given. *)
Fixpoint le_value (bytes : list Z) : Z :=
  match bytes with
  | [] => 0
  | x :: rest => x + 256 * le_value rest
  end.

(** A writer of [n] bytes at [offset]: a RangeError ([None]) when the
    bytes do not fit in the buffer. *)
Definition set_le (n : nat) (b : buffer) (offset : nat) (v : Z) : option buffer :=
  if (offset + n <=? length b)%nat then Some (store b offset (le_bytes n v)) else None.

(** [view.setUint8(offset, v)]. *)
Definition setUint8 := set_le 1.
(** [view.setUint16(offset, v, true)]. *)
Definition setUint16 := set_le 2.
(** [view.setUint32(offset, v, true)]. *)
Definition setUint32 := set_le 4.
(** [view.setInt16(offset, v, true)], [v] the integer the value converts to. *)
Definition setInt16 := set_le 2.

Definition slice (b : buffer) (offset n : nat) : list Z := firstn n (skipn offset b).

(** Readers, little-endian, [None] out of range. *)
Definition get_le (n : nat) (b : buffer) (offset : nat) : option Z :=
  if (offset + n <=? length b)%nat then Some (le_value (slice b offset n)) else None.

Definition getUint16 := get_le 2.
Definition getUint32 := get_le 4.

Definition getInt16 (b : buffer) (offset : nat) : option Z :=
  option_map JS.wrap16 (get_le 2 b offset).

(** [new Int16Array(buffer)] on a little-endian platform: the 16-bit
    signed elements of the buffer. *)
Fixpoint Int16Array (b : buffer) : list Z :=
  match b with
  | lo :: hi :: rest => JS.wrap16 (lo + 256 * hi) :: Int16Array rest
  | _ => []
  end.

End DataView.

(** ** The WAV encoder *)

Module Wav.

Import JS DataView.

(** Sequencing of writers that can raise. *)
Notation "x <- e ;; k" := (match e with Some x => k | None => None end)
  (at level 61, e at next level, right associativity).

(** [string.charCodeAt(i)] for each [i], in order. *)
Definition charCodes (s : string) : list Z :=
  map (fun c => Z.of_nat (nat_of_ascii c)) (list_ascii_of_string s).

(** The body of the loop of [floatTo16BitPCM]: the clipped sample [s],
    the value handed to [setInt16], and the element that ends up in the
    [Int16Array]. *)
Definition clip (x : number) : number :=
  Math_max (of_Z (-1)) (Math_min (of_Z 1) x).

Definition scaled (x : number) : number :=
  let s := clip x in
  if ltb s (of_Z 0) then mul s (of_Z 32768) else mul s (of_Z 32767).

Definition sample16 (x : number) : Z := ToInt16 (scaled x).

(** The loop of [floatTo16BitPCM] from element [i] on: [samples] are the
    elements from [i] on, [offset] the running byte offset. *)
Fixpoint floatTo16BitPCM_loop (samples : list number) (offset : nat) (view : buffer)
  : option buffer :=
  match samples with
  | [] => Some view
  | x :: rest =>
      view' <- setInt16 view offset (to_integer (scaled x)) ;;
      floatTo16BitPCM_loop rest (offset + 2) view'
  end.

(** [floatTo16BitPCM(float32Array)]: the elements of the [Int16Array]. *)
Definition floatTo16BitPCM (float32Array : list number) : option (list Z) :=
  let buffer := new_ArrayBuffer (length float32Array * 2) in
  view <- floatTo16BitPCM_loop float32Array 0 buffer ;;
  Some (Int16Array view).

(** [writeString(view, offset, string)], from character [i] on: [codes]
    are the character codes from [i] on, [at] is [offset + i]. *)
Fixpoint writeString_loop (view : buffer) (at_ : nat) (codes : list Z) : option buffer :=
  match codes with
  | [] => Some view
  | c :: rest =>
      view' <- setUint8 view at_ c ;;
      writeString_loop view' (at_ + 1) rest
  end.

Definition writeString (view : buffer) (offset : nat) (s : string) : option buffer :=
  writeString_loop view offset (charCodes s).

(** The copy loop of [encodeWAV] from element [i] on: [pcm] are the
    elements of [pcmData] from [i] on. *)
Fixpoint encodeWAV_loop (pcm : list Z) (i : nat) (view : buffer) : option buffer :=
  match pcm with
  | [] => Some view
  | p :: rest =>
      view' <- setInt16 view (44 + i * 2) p ;;
      encodeWAV_loop rest (i + 1) view'
  end.

(** [encodeWAV(samples, sampleRate)]. *)
Definition encodeWAV (samples : list number) (sampleRate : Z) : option buffer :=
  let length_ := length samples in
  let view := new_ArrayBuffer (44 + length_ * 2) in
  view <- writeString view 0 "RIFF" ;;
  view <- setUint32 view 4 (36 + Z.of_nat length_ * 2) ;;
  view <- writeString view 8 "WAVE" ;;
  view <- writeString view 12 "fmt " ;;
  view <- setUint32 view 16 16 ;;
  view <- setUint16 view 20 1 ;;
  view <- setUint16 view 22 1 ;;
  view <- setUint32 view 24 sampleRate ;;
  view <- setUint32 view 28 (sampleRate * 2) ;;
  view <- setUint16 view 32 2 ;;
  view <- setUint16 view 34 16 ;;
  view <- writeString view 36 "data" ;;
  view <- setUint32 view 40 (Z.of_nat length_ * 2) ;;
  pcmData <- floatTo16BitPCM samples ;;
  encodeWAV_loop pcmData 0 view.

(** The sample rate every call site passes (and the parameter's default). *)
Definition sampleRate_default : Z := 44100.

End Wav.

(** ** The runtime objects the recorders hold *)

Module Runtime.

(** A [Blob]: its bytes and its declared media type. *)
Record Blob : Type := mkBlob { blob_bytes : list Z; blob_type : string }.

(** [blob.size]. *)
Definition size (b : Blob) : nat := length (blob_bytes b).

(** [new Blob(parts, { type })]: the parts one after the other. *)
Definition new_Blob (parts : list (list Z)) (type : string) : Blob :=
  mkBlob (concat parts) type.

(** An object URL, by its serial number. *)
Definition url : Type := nat.

(** A [MediaStream] from the input device: are its tracks live? *)
Record MediaStream : Type := mkStream { live : bool }.

(** [stream.getTracks().forEach((track) => track.stop())]. *)
Definition stop_tracks (m : MediaStream) : MediaStream := mkStream false.

(** The interval behind a timer id: is it still scheduled? *)
Record Interval : Type := mkInterval { active : bool }.

Definition clearInterval (t : Interval) : Interval := mkInterval false.

(** The [<audio>] element bound to the artifact. *)
Record HTMLAudioElement : Type := mkAudio { paused : bool; currentTime : Z }.

(** The outcome of [navigator.mediaDevices.getUserMedia]. *)
Inductive getUserMedia_result : Type :=
| Granted
| Denied (reason : string).

(** What a handler does to the world outside the session. *)
Inductive effect : Type :=
| GetUserMedia (echoCancellation noiseSuppression : bool) (sampleRate : Z)
| ConsoleLog (msg : string)
| ConsoleError (msg : string)
| Alert (msg : string)
| SaveFile (href : url) (download : string)
| Fetch (endpoint method field : string) (file : Blob) (filename : string)
| Uncaught (name : string).

(** The three states of a session, as the component displays them. *)
Inductive State : Type := Idle | Recording | Stopped.

(** [string.includes(sub)]. *)
Fixpoint includes (s sub : string) : bool :=
  if prefix sub s then true
  else match s with
       | EmptyString => false
       | String _ s' => includes s' sub
       end.

(** [string.replace(/:/g, "-")]. *)
Fixpoint replace_colons (s : string) : string :=
  match s with
  | EmptyString => EmptyString
  | String c s' =>
      String (if Ascii.eqb c ":"%char then "-"%char else c) (replace_colons s')
  end.

(** The extension [downloadAudio] derives from a media type. *)
Definition extension_of (mimeType : string) : string :=
  if includes mimeType "mp4" then "m4a"
  else if includes mimeType "webm" then "webm"
  else if includes mimeType "ogg" then "ogg"
  else if includes mimeType "wav" then "wav"
  else "mp3".

(** [`recording-${iso.slice(0, 19).replace(/:/g, "-")}.${extension}`],
    [iso] being [new Date().toISOString()]. *)
Definition download_name (iso extension : string) : string :=
  ("recording-" ++ replace_colons (substring 0 19 iso) ++ "." ++ extension)%string.

End Runtime.

(** ** The recorder that encodes WAV itself

    The component variant that captures raw sample buffers through a
    [ScriptProcessorNode] and encodes them with [encodeWAV] on stop.  The
    upload stub and its two progress fields, which nothing else reads, are
    left out, as are the two refs this variant declares and never
    assigns. *)

Module WavRecorder.

Import JS Runtime.
Import Wav.

(** The [AudioContext]: has [close()] been called? *)
Record AudioContext : Type := mkContext { closed : bool }.

(** A node of the audio graph: is it connected? *)
Record AudioNode : Type := mkNode { connected : bool }.

(** The component's [useState] values and [useRef] contents, and the
    object URLs the runtime holds for it ([objectUrls], with [nextUrl]
    the next serial number). *)
Record session : Type := mkSession {
  isRecording : bool;
  isPlaying : bool;
  recordingTime : Z;
  audioBlob : option Blob;
  audioUrl : option url;
  audioRef : option HTMLAudioElement;
  streamRef : option MediaStream;
  timerRef : option Interval;
  audioContextRef : option AudioContext;
  sourceRef : option AudioNode;
  processorRef : option AudioNode;
  audioDataRef : list (list number);
  objectUrls : list url;
  nextUrl : url
}.

Definition set_isRecording (v : bool) (s : session) : session :=
  {| isRecording := v; isPlaying := isPlaying s;
     recordingTime := recordingTime s; audioBlob := audioBlob s;
     audioUrl := audioUrl s; audioRef := audioRef s; streamRef := streamRef s;
     timerRef := timerRef s; audioContextRef := audioContextRef s;
     sourceRef := sourceRef s; processorRef := processorRef s;
     audioDataRef := audioDataRef s; objectUrls := objectUrls s;
     nextUrl := nextUrl s |}.

Definition set_isPlaying (v : bool) (s : session) : session :=
  {| isRecording := isRecording s; isPlaying := v;
     recordingTime := recordingTime s; audioBlob := audioBlob s;
     audioUrl := audioUrl s; audioRef := audioRef s; streamRef := streamRef s;
     timerRef := timerRef s; audioContextRef := audioContextRef s;
     sourceRef := sourceRef s; processorRef := processorRef s;
     audioDataRef := audioDataRef s; objectUrls := objectUrls s;
     nextUrl := nextUrl s |}.

Definition set_recordingTime (v : Z) (s : session) : session :=
  {| isRecording := isRecording s; isPlaying := isPlaying s;
     recordingTime := v; audioBlob := audioBlob s; audioUrl := audioUrl s;
     audioRef := audioRef s; streamRef := streamRef s; timerRef := timerRef s;
     audioContextRef := audioContextRef s; sourceRef := sourceRef s;
     processorRef := processorRef s; audioDataRef := audioDataRef s;
     objectUrls := objectUrls s; nextUrl := nextUrl s |}.

Definition set_audioBlob (v : option Blob) (s : session) : session :=
  {| isRecording := isRecording s; isPlaying := isPlaying s;
     recordingTime := recordingTime s; audioBlob := v; audioUrl := audioUrl s;
     audioRef := audioRef s; streamRef := streamRef s; timerRef := timerRef s;
     audioContextRef := audioContextRef s; sourceRef := sourceRef s;
     processorRef := processorRef s; audioDataRef := audioDataRef s;
     objectUrls := objectUrls s; nextUrl := nextUrl s |}.

Definition set_audioUrl (v : option url) (s : session) : session :=
  {| isRecording := isRecording s; isPlaying := isPlaying s;
     recordingTime := recordingTime s; audioBlob := audioBlob s;
     audioUrl := v; audioRef := audioRef s; streamRef := streamRef s;
     timerRef := timerRef s; audioContextRef := audioContextRef s;
     sourceRef := sourceRef s; processorRef := processorRef s;
     audioDataRef := audioDataRef s; objectUrls := objectUrls s;
     nextUrl := nextUrl s |}.

Definition set_audioRef (v : option HTMLAudioElement) (s : session) : session :=
  {| isRecording := isRecording s; isPlaying := isPlaying s;
     recordingTime := recordingTime s; audioBlob := audioBlob s;
     audioUrl := audioUrl s; audioRef := v; streamRef := streamRef s;
     timerRef := timerRef s; audioContextRef := audioContextRef s;
     sourceRef := sourceRef s; processorRef := processorRef s;
     audioDataRef := audioDataRef s; objectUrls := objectUrls s;
     nextUrl := nextUrl s |}.

Definition set_streamRef (v : option MediaStream) (s : session) : session :=
  {| isRecording := isRecording s; isPlaying := isPlaying s;
     recordingTime := recordingTime s; audioBlob := audioBlob s;
     audioUrl := audioUrl s; audioRef := audioRef s; streamRef := v;
     timerRef := timerRef s; audioContextRef := audioContextRef s;
     sourceRef := sourceRef s; processorRef := processorRef s;
     audioDataRef := audioDataRef s; objectUrls := objectUrls s;
     nextUrl := nextUrl s |}.

Definition set_timerRef (v : option Interval) (s : session) : session :=
  {| isRecording := isRecording s; isPlaying := isPlaying s;
     recordingTime := recordingTime s; audioBlob := audioBlob s;
     audioUrl := audioUrl s; audioRef := audioRef s; streamRef := streamRef s;
     timerRef := v; audioContextRef := audioContextRef s;
     sourceRef := sourceRef s; processorRef := processorRef s;
     audioDataRef := audioDataRef s; objectUrls := objectUrls s;
     nextUrl := nextUrl s |}.

Definition set_audioContextRef (v : option AudioContext) (s : session) : session :=
  {| isRecording := isRecording s; isPlaying := isPlaying s;
     recordingTime := recordingTime s; audioBlob := audioBlob s;
     audioUrl := audioUrl s; audioRef := audioRef s; streamRef := streamRef s;
     timerRef := timerRef s; audioContextRef := v; sourceRef := sourceRef s;
     processorRef := processorRef s; audioDataRef := audioDataRef s;
     objectUrls := objectUrls s; nextUrl := nextUrl s |}.

Definition set_sourceRef (v : option AudioNode) (s : session) : session :=
  {| isRecording := isRecording s; isPlaying := isPlaying s;
     recordingTime := recordingTime s; audioBlob := audioBlob s;
     audioUrl := audioUrl s; audioRef := audioRef s; streamRef := streamRef s;
     timerRef := timerRef s; audioContextRef := audioContextRef s;
     sourceRef := v; processorRef := processorRef s;
     audioDataRef := audioDataRef s; objectUrls := objectUrls s;
     nextUrl := nextUrl s |}.

Definition set_processorRef (v : option AudioNode) (s : session) : session :=
  {| isRecording := isRecording s; isPlaying := isPlaying s;
     recordingTime := recordingTime s; audioBlob := audioBlob s;
     audioUrl := audioUrl s; audioRef := audioRef s; streamRef := streamRef s;
     timerRef := timerRef s; audioContextRef := audioContextRef s;
     sourceRef := sourceRef s; processorRef := v;
     audioDataRef := audioDataRef s; objectUrls := objectUrls s;
     nextUrl := nextUrl s |}.

Definition set_audioDataRef (v : list (list number)) (s : session) : session :=
  {| isRecording := isRecording s; isPlaying := isPlaying s;
     recordingTime := recordingTime s; audioBlob := audioBlob s;
     audioUrl := audioUrl s; audioRef := audioRef s; streamRef := streamRef s;
     timerRef := timerRef s; audioContextRef := audioContextRef s;
     sourceRef := sourceRef s; processorRef := processorRef s;
     audioDataRef := v; objectUrls := objectUrls s; nextUrl := nextUrl s |}.

Definition set_objectUrls (v : list url) (s : session) : session :=
  {| isRecording := isRecording s; isPlaying := isPlaying s;
     recordingTime := recordingTime s; audioBlob := audioBlob s;
     audioUrl := audioUrl s; audioRef := audioRef s; streamRef := streamRef s;
     timerRef := timerRef s; audioContextRef := audioContextRef s;
     sourceRef := sourceRef s; processorRef := processorRef s;
     audioDataRef := audioDataRef s; objectUrls := v; nextUrl := nextUrl s |}.

Definition set_nextUrl (v : url) (s : session) : session :=
  {| isRecording := isRecording s; isPlaying := isPlaying s;
     recordingTime := recordingTime s; audioBlob := audioBlob s;
     audioUrl := audioUrl s; audioRef := audioRef s; streamRef := streamRef s;
     timerRef := timerRef s; audioContextRef := audioContextRef s;
     sourceRef := sourceRef s; processorRef := processorRef s;
     audioDataRef := audioDataRef s; objectUrls := objectUrls s; nextUrl := v |}.
(** The component as first rendered. *)
Definition init : session :=
  {| isRecording := false; isPlaying := false; recordingTime := 0;
     audioBlob := None; audioUrl := None; audioRef := None; streamRef := None;
     timerRef := None; audioContextRef := None; sourceRef := None;
     processorRef := None; audioDataRef := []; objectUrls := [];
     nextUrl := O |}.

(** The state the component displays: recording, else complete when there
    is something to play, else idle. *)
Definition state_of (s : session) : State :=
  if isRecording s then Recording
  else match audioUrl s with Some _ => Stopped | None => Idle end.

(** Does the session hold the input device (a stream with live tracks)? *)
Definition holds_device (s : session) : bool :=
  match streamRef s with Some m => live m | None => false end.

(** [URL.createObjectURL(blob)]. *)
Definition createObjectURL (s : session) : url * session :=
  (nextUrl s, set_nextUrl (S (nextUrl s)) (set_objectUrls (nextUrl s :: objectUrls s) s)).

(** [URL.revokeObjectURL(u)]. *)
Definition revokeObjectURL (u : url) (s : session) : session :=
  set_objectUrls (filter (fun v => negb (Nat.eqb v u)) (objectUrls s)) s.

Definition microphone_alert : list effect :=
  [ConsoleError "Error accessing microphone:";
   Alert "Unable to access microphone. Please check permissions."].

(** [startRecording], given what [getUserMedia] answers.  The
    [AudioContext] and its nodes are taken to be created without error. *)
Definition startRecording (device : getUserMedia_result) (s : session)
  : session * list effect :=
  let request := GetUserMedia true true 44100 in
  match device with
  | Denied _ => (s, request :: microphone_alert)
  | Granted =>
      let s := set_streamRef (Some (mkStream true)) s in
      let s := set_audioContextRef (Some (mkContext false)) s in
      (* the source and the processor, created *)
      let s := set_sourceRef (Some (mkNode false)) s in
      let s := set_processorRef (Some (mkNode false)) s in
      let s := set_audioDataRef [] s in
      (* source.connect(processor); processor.connect(destination) *)
      let s := set_sourceRef (Some (mkNode true)) s in
      let s := set_processorRef (Some (mkNode true)) s in
      let s := set_isRecording true s in
      let s := set_recordingTime 0 s in
      let s := set_timerRef (Some (mkInterval true)) s in
      (s, [request])
  end.

(** [processor.onaudioprocess]: a copy of the input buffer is pushed. *)
Definition onaudioprocess (inputData : list number) (s : session) : session :=
  set_audioDataRef (audioDataRef s ++ [inputData]) s.

(** The timer callback: [setRecordingTime((prev) => prev + 1)]. *)
Definition ontick (s : session) : session :=
  set_recordingTime (recordingTime s + 1) s.

(** [target.set(source, offset)] of a typed array: a RangeError when the
    source does not fit. *)
Definition Float32Array_set (target source : list number) (offset : nat)
  : option (list number) :=
  if (offset + length source <=? length target)%nat
  then Some (firstn offset target ++ source ++ skipn (offset + length source) target)
  else None.

(** The loop that copies the buffered chunks into [audioData]. *)
Fixpoint copy_chunks (chunks : list (list number)) (audioData : list number)
  (offset : nat) : option (list number) :=
  match chunks with
  | [] => Some audioData
  | chunk :: rest =>
      audioData' <- Float32Array_set audioData chunk offset ;;
      copy_chunks rest audioData' (offset + length chunk)
  end.

(** The samples [stopRecording] hands to the encoder. *)
Definition gather (chunks : list (list number)) : option (list number) :=
  let totalLength := fold_left (fun acc chunk => (acc + length chunk)%nat) chunks O in
  copy_chunks chunks (repeat (of_Z 0) totalLength) 0.

(** [stopRecording]. *)
Definition stopRecording (s : session) : session * list effect :=
  if isRecording s then
    let s := set_isRecording false s in
    let s := set_timerRef (option_map clearInterval (timerRef s)) s in
    let s := set_processorRef (option_map (fun _ => mkNode false) (processorRef s)) s in
    let s := set_sourceRef (option_map (fun _ => mkNode false) (sourceRef s)) s in
    let s := set_audioContextRef (option_map (fun _ => mkContext true) (audioContextRef s)) s in
    let release s := set_streamRef (option_map stop_tracks (streamRef s)) s in
    match audioDataRef s with
    | [] => (release s, [])
    | _ :: _ =>
        match (audioData <- gather (audioDataRef s) ;; encodeWAV audioData 44100) with
        | Some wavBuffer =>
            let wavBlob := new_Blob [wavBuffer] "audio/wav" in
            let s := set_audioBlob (Some wavBlob) s in
            let (u, s) := createObjectURL s in
            let s := set_audioUrl (Some u) s in
            (release s, [])
        | None => (s, [Uncaught "RangeError"])
        end
    end
  else (s, []).

(** [togglePlayback]. *)
Definition togglePlayback (s : session) : session :=
  match audioRef s, audioUrl s with
  | Some a, Some _ =>
      if isPlaying s
      then set_isPlaying false (set_audioRef (Some (mkAudio true (currentTime a))) s)
      else set_isPlaying true (set_audioRef (Some (mkAudio false (currentTime a))) s)
  | _, _ => s
  end.

(** The element reaches the end of the artifact: [handleEnded]. *)
Definition onended (s : session) : session :=
  set_isPlaying false (set_audioRef (option_map (fun a => mkAudio true (currentTime a)) (audioRef s)) s).

(** [downloadAudio]: this variant always names the file [.wav]. *)
Definition downloadAudio (iso : string) (s : session) : list effect :=
  match audioBlob s, audioUrl s with
  | Some _, Some u => [SaveFile u (download_name iso "wav")]
  | _, _ => []
  end.

(** The cleanup of the effect that depends on [audioUrl]: it runs with
    the [audioUrl] of the render that installed it. *)
Definition cleanup (audioUrl_then : option url) (s : session) : session :=
  let s := set_timerRef (option_map clearInterval (timerRef s)) s in
  let s := set_streamRef (option_map stop_tracks (streamRef s)) s in
  let s := set_processorRef (option_map (fun _ => mkNode false) (processorRef s)) s in
  let s := set_sourceRef (option_map (fun _ => mkNode false) (sourceRef s)) s in
  let s := set_audioContextRef (option_map (fun _ => mkContext true) (audioContextRef s)) s in
  match audioUrl_then with
  | Some u => revokeObjectURL u s
  | None => s
  end.

Definition same_url (a b : option url) : bool :=
  match a, b with
  | None, None => true
  | Some u, Some v => Nat.eqb u v
  | _, _ => false
  end.

(** The render that follows a handler: the [<audio>] element exists
    exactly while [audioUrl] is set (a new source reloads it), and a
    change of [audioUrl] runs the cleanup of the previous render. *)
Definition commit (before s : session) : session :=
  if same_url (audioUrl before) (audioUrl s) then s
  else
    let s := set_audioRef (option_map (fun _ => mkAudio true 0) (audioUrl s)) s in
    cleanup (audioUrl before) s.

(** What can happen to the component. *)
Inductive event : Type :=
| StartRecording (device : getUserMedia_result)
| AudioProcess (inputData : list number)
| Tick
| StopRecording
| TogglePlayback
| Ended
| DownloadAudio (iso : string).

Definition capturing (s : session) : bool :=
  match processorRef s, sourceRef s, audioContextRef s with
  | Some p, Some src, Some c => connected p && connected src && negb (closed c)
  | _, _, _ => false
  end.

Definition ticking (s : session) : bool :=
  match timerRef s with Some t => active t | None => false end.

(** One event: the handler, then the render.  The runtime delivers audio
    only while the graph is connected, ticks only while the interval is
    scheduled, and ends a playback only while the element plays. *)
Definition step (e : event) (s : session) : session * list effect :=
  let (s', fx) :=
    match e with
    | StartRecording device => startRecording device s
    | AudioProcess inputData => (if capturing s then onaudioprocess inputData s else s, [])
    | Tick => (if ticking s then ontick s else s, [])
    | StopRecording => stopRecording s
    | TogglePlayback => (togglePlayback s, [])
    | Ended =>
        (match audioRef s with
         | Some a => if paused a then s else onended s
         | None => s
         end, [])
    | DownloadAudio iso => (s, downloadAudio iso s)
    end in
  (commit s s', fx).

(** The session after a sequence of events. *)
Definition run (es : list event) (s : session) : session :=
  fold_left (fun s e => fst (step e s)) es s.

Definition reachable (s : session) : Prop := exists es, s = run es init.

End WavRecorder.

(** ** The recorder built on [MediaRecorder]

    The component variant with transcription and reset.  The plain variant
    of the component (no upload, no transcription, no reset) has the same
    [getSupportedMimeType], [startRecording], [stopRecording],
    [togglePlayback] and [downloadAudio], text for text. *)

Module Recorder.

Import Runtime.

(** The runtime's recorder.  After [stop()] the recorder still owes its
    closing [dataavailable] and [stop] events ([Stopping]). *)
Inductive recorder_state : Type := Inactive | Capturing | Stopping.

Record MediaRecorder : Type := mkRecorder {
  state : recorder_state;
  mimeType : string
}.

(** A value read from a parsed JSON body: a string, [null], or anything
    else, of which the component only observes the truthiness and the
    string it converts to. *)
Inductive jsval : Type :=
| JString (s : string)
| JNull
| JOther (truthy : bool) (shown : string).

(** What [response.json()] gives: a rejection, [null], or a value with
    properties (none for a primitive). *)
Inductive json_body : Type :=
| BodyInvalid (message : string)
| BodyNull
| BodyObject (fields : list (string * jsval)).

(** What [fetch] gives: a rejection or a response. *)
Inductive fetch_result : Type :=
| Rejected (message : string)
| Response (status : Z) (body : json_body).

(** [response.ok]: the status is in the range 200-299. *)
Definition ok (status : Z) : bool := (200 <=? status) && (status <=? 299).

Record session : Type := mkSession {
  isRecording : bool;
  isPlaying : bool;
  recordingTime : Z;
  audioBlob : option Blob;
  audioUrl : option url;
  isTranscribing : bool;
  transcript : option jsval;
  transcriptError : option string;
  showTranscript : bool;
  mediaRecorderRef : option MediaRecorder;
  audioRef : option HTMLAudioElement;
  streamRef : option MediaStream;
  chunksRef : list Blob;
  timerRef : option Interval;
  startTimeRef : option Z;
  objectUrls : list url;
  nextUrl : url
}.

Definition set_isRecording (v : bool) (s : session) : session :=
  {| isRecording := v; isPlaying := isPlaying s;
     recordingTime := recordingTime s; audioBlob := audioBlob s;
     audioUrl := audioUrl s; isTranscribing := isTranscribing s;
     transcript := transcript s; transcriptError := transcriptError s;
     showTranscript := showTranscript s;
     mediaRecorderRef := mediaRecorderRef s; audioRef := audioRef s;
     streamRef := streamRef s; chunksRef := chunksRef s;
     timerRef := timerRef s; startTimeRef := startTimeRef s;
     objectUrls := objectUrls s; nextUrl := nextUrl s |}.

Definition set_isPlaying (v : bool) (s : session) : session :=
  {| isRecording := isRecording s; isPlaying := v;
     recordingTime := recordingTime s; audioBlob := audioBlob s;
     audioUrl := audioUrl s; isTranscribing := isTranscribing s;
     transcript := transcript s; transcriptError := transcriptError s;
     showTranscript := showTranscript s;
     mediaRecorderRef := mediaRecorderRef s; audioRef := audioRef s;
     streamRef := streamRef s; chunksRef := chunksRef s;
     timerRef := timerRef s; startTimeRef := startTimeRef s;
     objectUrls := objectUrls s; nextUrl := nextUrl s |}.

Definition set_recordingTime (v : Z) (s : session) : session :=
  {| isRecording := isRecording s; isPlaying := isPlaying s;
     recordingTime := v; audioBlob := audioBlob s; audioUrl := audioUrl s;
     isTranscribing := isTranscribing s; transcript := transcript s;
     transcriptError := transcriptError s; showTranscript := showTranscript s;
     mediaRecorderRef := mediaRecorderRef s; audioRef := audioRef s;
     streamRef := streamRef s; chunksRef := chunksRef s;
     timerRef := timerRef s; startTimeRef := startTimeRef s;
     objectUrls := objectUrls s; nextUrl := nextUrl s |}.

Definition set_audioBlob (v : option Blob) (s : session) : session :=
  {| isRecording := isRecording s; isPlaying := isPlaying s;
     recordingTime := recordingTime s; audioBlob := v; audioUrl := audioUrl s;
     isTranscribing := isTranscribing s; transcript := transcript s;
     transcriptError := transcriptError s; showTranscript := showTranscript s;
     mediaRecorderRef := mediaRecorderRef s; audioRef := audioRef s;
     streamRef := streamRef s; chunksRef := chunksRef s;
     timerRef := timerRef s; startTimeRef := startTimeRef s;
     objectUrls := objectUrls s; nextUrl := nextUrl s |}.

Definition set_audioUrl (v : option url) (s : session) : session :=
  {| isRecording := isRecording s; isPlaying := isPlaying s;
     recordingTime := recordingTime s; audioBlob := audioBlob s;
     audioUrl := v; isTranscribing := isTranscribing s;
     transcript := transcript s; transcriptError := transcriptError s;
     showTranscript := showTranscript s;
     mediaRecorderRef := mediaRecorderRef s; audioRef := audioRef s;
     streamRef := streamRef s; chunksRef := chunksRef s;
     timerRef := timerRef s; startTimeRef := startTimeRef s;
     objectUrls := objectUrls s; nextUrl := nextUrl s |}.

Definition set_isTranscribing (v : bool) (s : session) : session :=
  {| isRecording := isRecording s; isPlaying := isPlaying s;
     recordingTime := recordingTime s; audioBlob := audioBlob s;
     audioUrl := audioUrl s; isTranscribing := v; transcript := transcript s;
     transcriptError := transcriptError s; showTranscript := showTranscript s;
     mediaRecorderRef := mediaRecorderRef s; audioRef := audioRef s;
     streamRef := streamRef s; chunksRef := chunksRef s;
     timerRef := timerRef s; startTimeRef := startTimeRef s;
     objectUrls := objectUrls s; nextUrl := nextUrl s |}.

Definition set_transcript (v : option jsval) (s : session) : session :=
  {| isRecording := isRecording s; isPlaying := isPlaying s;
     recordingTime := recordingTime s; audioBlob := audioBlob s;
     audioUrl := audioUrl s; isTranscribing := isTranscribing s;
     transcript := v; transcriptError := transcriptError s;
     showTranscript := showTranscript s;
     mediaRecorderRef := mediaRecorderRef s; audioRef := audioRef s;
     streamRef := streamRef s; chunksRef := chunksRef s;
     timerRef := timerRef s; startTimeRef := startTimeRef s;
     objectUrls := objectUrls s; nextUrl := nextUrl s |}.

Definition set_transcriptError (v : option string) (s : session) : session :=
  {| isRecording := isRecording s; isPlaying := isPlaying s;
     recordingTime := recordingTime s; audioBlob := audioBlob s;
     audioUrl := audioUrl s; isTranscribing := isTranscribing s;
     transcript := transcript s; transcriptError := v;
     showTranscript := showTranscript s;
     mediaRecorderRef := mediaRecorderRef s; audioRef := audioRef s;
     streamRef := streamRef s; chunksRef := chunksRef s;
     timerRef := timerRef s; startTimeRef := startTimeRef s;
     objectUrls := objectUrls s; nextUrl := nextUrl s |}.

Definition set_showTranscript (v : bool) (s : session) : session :=
  {| isRecording := isRecording s; isPlaying := isPlaying s;
     recordingTime := recordingTime s; audioBlob := audioBlob s;
     audioUrl := audioUrl s; isTranscribing := isTranscribing s;
     transcript := transcript s; transcriptError := transcriptError s;
     showTranscript := v; mediaRecorderRef := mediaRecorderRef s;
     audioRef := audioRef s; streamRef := streamRef s;
     chunksRef := chunksRef s; timerRef := timerRef s;
     startTimeRef := startTimeRef s; objectUrls := objectUrls s;
     nextUrl := nextUrl s |}.

Definition set_mediaRecorderRef (v : option MediaRecorder) (s : session) : session :=
  {| isRecording := isRecording s; isPlaying := isPlaying s;
     recordingTime := recordingTime s; audioBlob := audioBlob s;
     audioUrl := audioUrl s; isTranscribing := isTranscribing s;
     transcript := transcript s; transcriptError := transcriptError s;
     showTranscript := showTranscript s; mediaRecorderRef := v;
     audioRef := audioRef s; streamRef := streamRef s;
     chunksRef := chunksRef s; timerRef := timerRef s;
     startTimeRef := startTimeRef s; objectUrls := objectUrls s;
     nextUrl := nextUrl s |}.

Definition set_audioRef (v : option HTMLAudioElement) (s : session) : session :=
  {| isRecording := isRecording s; isPlaying := isPlaying s;
     recordingTime := recordingTime s; audioBlob := audioBlob s;
     audioUrl := audioUrl s; isTranscribing := isTranscribing s;
     transcript := transcript s; transcriptError := transcriptError s;
     showTranscript := showTranscript s;
     mediaRecorderRef := mediaRecorderRef s; audioRef := v;
     streamRef := streamRef s; chunksRef := chunksRef s;
     timerRef := timerRef s; startTimeRef := startTimeRef s;
     objectUrls := objectUrls s; nextUrl := nextUrl s |}.

Definition set_streamRef (v : option MediaStream) (s : session) : session :=
  {| isRecording := isRecording s; isPlaying := isPlaying s;
     recordingTime := recordingTime s; audioBlob := audioBlob s;
     audioUrl := audioUrl s; isTranscribing := isTranscribing s;
     transcript := transcript s; transcriptError := transcriptError s;
     showTranscript := showTranscript s;
     mediaRecorderRef := mediaRecorderRef s; audioRef := audioRef s;
     streamRef := v; chunksRef := chunksRef s; timerRef := timerRef s;
     startTimeRef := startTimeRef s; objectUrls := objectUrls s;
     nextUrl := nextUrl s |}.

Definition set_chunksRef (v : list Blob) (s : session) : session :=
  {| isRecording := isRecording s; isPlaying := isPlaying s;
     recordingTime := recordingTime s; audioBlob := audioBlob s;
     audioUrl := audioUrl s; isTranscribing := isTranscribing s;
     transcript := transcript s; transcriptError := transcriptError s;
     showTranscript := showTranscript s;
     mediaRecorderRef := mediaRecorderRef s; audioRef := audioRef s;
     streamRef := streamRef s; chunksRef := v; timerRef := timerRef s;
     startTimeRef := startTimeRef s; objectUrls := objectUrls s;
     nextUrl := nextUrl s |}.

Definition set_timerRef (v : option Interval) (s : session) : session :=
  {| isRecording := isRecording s; isPlaying := isPlaying s;
     recordingTime := recordingTime s; audioBlob := audioBlob s;
     audioUrl := audioUrl s; isTranscribing := isTranscribing s;
     transcript := transcript s; transcriptError := transcriptError s;
     showTranscript := showTranscript s;
     mediaRecorderRef := mediaRecorderRef s; audioRef := audioRef s;
     streamRef := streamRef s; chunksRef := chunksRef s; timerRef := v;
     startTimeRef := startTimeRef s; objectUrls := objectUrls s;
     nextUrl := nextUrl s |}.

Definition set_startTimeRef (v : option Z) (s : session) : session :=
  {| isRecording := isRecording s; isPlaying := isPlaying s;
     recordingTime := recordingTime s; audioBlob := audioBlob s;
     audioUrl := audioUrl s; isTranscribing := isTranscribing s;
     transcript := transcript s; transcriptError := transcriptError s;
     showTranscript := showTranscript s;
     mediaRecorderRef := mediaRecorderRef s; audioRef := audioRef s;
     streamRef := streamRef s; chunksRef := chunksRef s;
     timerRef := timerRef s; startTimeRef := v; objectUrls := objectUrls s;
     nextUrl := nextUrl s |}.

Definition set_objectUrls (v : list url) (s : session) : session :=
  {| isRecording := isRecording s; isPlaying := isPlaying s;
     recordingTime := recordingTime s; audioBlob := audioBlob s;
     audioUrl := audioUrl s; isTranscribing := isTranscribing s;
     transcript := transcript s; transcriptError := transcriptError s;
     showTranscript := showTranscript s;
     mediaRecorderRef := mediaRecorderRef s; audioRef := audioRef s;
     streamRef := streamRef s; chunksRef := chunksRef s;
     timerRef := timerRef s; startTimeRef := startTimeRef s; objectUrls := v;
     nextUrl := nextUrl s |}.

Definition set_nextUrl (v : url) (s : session) : session :=
  {| isRecording := isRecording s; isPlaying := isPlaying s;
     recordingTime := recordingTime s; audioBlob := audioBlob s;
     audioUrl := audioUrl s; isTranscribing := isTranscribing s;
     transcript := transcript s; transcriptError := transcriptError s;
     showTranscript := showTranscript s;
     mediaRecorderRef := mediaRecorderRef s; audioRef := audioRef s;
     streamRef := streamRef s; chunksRef := chunksRef s;
     timerRef := timerRef s; startTimeRef := startTimeRef s;
     objectUrls := objectUrls s; nextUrl := v |}.
(** The component as first rendered. *)
Definition init : session :=
  {| isRecording := false; isPlaying := false; recordingTime := 0;
     audioBlob := None; audioUrl := None; isTranscribing := false;
     transcript := None; transcriptError := None; showTranscript := false;
     mediaRecorderRef := None; audioRef := None; streamRef := None;
     chunksRef := []; timerRef := None; startTimeRef := None;
     objectUrls := []; nextUrl := O |}.

(** The state the component displays: recording, else complete when there
    is something to play, else idle. *)
Definition state_of (s : session) : State :=
  if isRecording s then Recording
  else match audioUrl s with Some _ => Stopped | None => Idle end.

(** Does the session hold the input device (a stream with live tracks)? *)
Definition holds_device (s : session) : bool :=
  match streamRef s with Some m => live m | None => false end.

(** [URL.createObjectURL(blob)]. *)
Definition createObjectURL (s : session) : url * session :=
  (nextUrl s, set_nextUrl (S (nextUrl s)) (set_objectUrls (nextUrl s :: objectUrls s) s)).

(** [URL.revokeObjectURL(u)]. *)
Definition revokeObjectURL (u : url) (s : session) : session :=
  set_objectUrls (filter (fun v => negb (Nat.eqb v u)) (objectUrls s)) s.

(** The candidates of [getSupportedMimeType], in its order. *)
Definition quote : string := String (ascii_of_nat 34) EmptyString.

Definition types : list string :=
  [("audio/mp4; codecs=" ++ quote ++ "mp4a.40.2" ++ quote)%string;
   "audio/webm; codecs=opus"; "audio/webm";
   "audio/mp4"; "audio/ogg; codecs=opus"; "audio/ogg"]%string.

(** [getSupportedMimeType], given [MediaRecorder.isTypeSupported]. *)
Definition getSupportedMimeType (isTypeSupported : string -> bool) : string :=
  match find isTypeSupported types with
  | Some type => type
  | None => "audio/webm"
  end.

Definition microphone_alert : list effect :=
  [ConsoleError "Error accessing microphone:";
   Alert "Unable to access microphone. Please check permissions."].

(** [startRecording], given what [getUserMedia] answers, what the runtime
    can encode and what [Date.now()] reads.  The [MediaRecorder]
    constructor raises on a type the runtime cannot encode; the handler's
    [catch] takes that as it takes a refusal of the device. *)
Definition startRecording (device : getUserMedia_result)
  (isTypeSupported : string -> bool) (now : Z) (s : session)
  : session * list effect :=
  let request := GetUserMedia true true 44100 in
  match device with
  | Denied _ => (s, request :: microphone_alert)
  | Granted =>
      let s := set_streamRef (Some (mkStream true)) s in
      let type := getSupportedMimeType isTypeSupported in
      let log := ConsoleLog ("Using MIME type: " ++ type) in
      if isTypeSupported type then
        let s := set_mediaRecorderRef (Some (mkRecorder Capturing type)) s in
        let s := set_chunksRef [] s in
        let s := set_isRecording true s in
        let s := set_recordingTime 0 s in
        let s := set_startTimeRef (Some now) s in
        let s := set_timerRef (Some (mkInterval true)) s in
        (s, [request; log])
      else (s, request :: log :: microphone_alert)
  end.

(** [mediaRecorder.ondataavailable]. *)
Definition ondataavailable (data : Blob) (s : session) : session :=
  if (0 <? size data)%nat then set_chunksRef (chunksRef s ++ [data]) s else s.

(** [mediaRecorder.onstop], of the recorder started with [type]. *)
Definition onstop (type : string) (s : session) : session :=
  let blob := new_Blob (map blob_bytes (chunksRef s)) type in
  let s := set_audioBlob (Some blob) s in
  let (u, s) := createObjectURL s in
  let s := set_audioUrl (Some u) s in
  set_streamRef (option_map stop_tracks (streamRef s)) s.

(** The timer callback, given what [Date.now()] reads. *)
Definition ontick (now : Z) (s : session) : session :=
  match startTimeRef s with
  | Some start => if start =? 0 then s else set_recordingTime (now - start) s
  | None => s
  end.

(** [stopRecording].  [stop()] on a recorder that is not capturing
    raises. *)
Definition stopRecording (s : session) : session * list effect :=
  match mediaRecorderRef s with
  | Some r =>
      if isRecording s then
        match state r with
        | Capturing =>
            let s := set_mediaRecorderRef (Some (mkRecorder Stopping (mimeType r))) s in
            let s := set_isRecording false s in
            let s := set_timerRef (option_map clearInterval (timerRef s)) s in
            (s, [])
        | _ => (s, [Uncaught "InvalidStateError"])
        end
      else (s, [])
  | None => (s, [])
  end.

(** [togglePlayback]. *)
Definition togglePlayback (s : session) : session :=
  match audioRef s, audioUrl s with
  | Some a, Some _ =>
      if isPlaying s
      then set_isPlaying false (set_audioRef (Some (mkAudio true (currentTime a))) s)
      else set_isPlaying true (set_audioRef (Some (mkAudio false (currentTime a))) s)
  | _, _ => s
  end.

(** The element reaches the end of the artifact: [handleEnded]. *)
Definition onended (s : session) : session :=
  set_isPlaying false (set_audioRef (option_map (fun a => mkAudio true (currentTime a)) (audioRef s)) s).

(** [downloadAudio], given [new Date().toISOString()]. *)
Definition downloadAudio (iso : string) (s : session) : list effect :=
  match audioBlob s, audioUrl s with
  | Some blob, Some u => [SaveFile u (download_name iso (extension_of (blob_type blob)))]
  | _, _ => []
  end.

(** A property of a parsed body; [None] is [undefined]. *)
Fixpoint property (fields : list (string * jsval)) (name : string) : option jsval :=
  match fields with
  | [] => None
  | (k, v) :: rest => if String.eqb k name then Some v else property rest name
  end.

(** [errorData.detail || "Transcription failed"], as the message of the
    [Error] built from it. *)
Definition failure_message (detail : option jsval) : string :=
  match detail with
  | Some (JString EmptyString) => "Transcription failed"
  | Some (JString d) => d
  | Some (JOther true shown) => shown
  | _ => "Transcription failed"
  end.

(** The message the engine puts in the TypeError for a property read on
    [null]. *)
Definition null_read_message (name : string) : string :=
  "Cannot read properties of null (reading '" ++ name ++ "')".

(** The [try] block of [transcribeAudio] once [fetch] has answered: the
    transcript to show, or the message of the error raised.  Whatever is
    raised there is an [Error], so the [catch] shows its message. *)
Definition transcription (answer : fetch_result) : string + option jsval :=
  match answer with
  | Rejected message => inl message
  | Response status body =>
      match body with
      | BodyInvalid message => inl message
      | BodyNull =>
          inl (null_read_message (if ok status then "transcript" else "detail"))
      | BodyObject fields =>
          if ok status then inr (property fields "transcript")
          else inl (failure_message (property fields "detail"))
      end
  end.

(** [transcribeAudio], given what [fetch] answers. *)
Definition transcribeAudio (answer : fetch_result) (s : session)
  : session * list effect :=
  match audioBlob s with
  | None => (s, [])
  | Some blob =>
      let s := set_isTranscribing true s in
      let s := set_transcriptError None s in
      let s := set_transcript None s in
      let request :=
        Fetch "http://localhost:8000/api/transcribe" "POST" "audio_file" blob "recording.mp3" in
      match transcription answer with
      | inr text =>
          let s := set_transcript text s in
          let s := set_showTranscript true s in
          (set_isTranscribing false s, [request])
      | inl message =>
          let s := set_transcriptError (Some message) s in
          (set_isTranscribing false s, [request; ConsoleError "Transcription error:"])
      end
  end.

(** [resetRecording]. *)
Definition resetRecording (s : session) : session :=
  let s := set_isRecording false s in
  let s := set_isPlaying false s in
  let s := set_recordingTime 0 s in
  let s := set_audioBlob None s in
  let s := set_audioUrl None s in
  let s := set_isTranscribing false s in
  let s := set_transcript None s in
  let s := set_transcriptError None s in
  let s := set_showTranscript false s in
  set_audioRef (option_map (fun _ => mkAudio true 0) (audioRef s)) s.

(** The cleanup of the effect that depends on [audioUrl]: it runs with
    the [audioUrl] of the render that installed it. *)
Definition cleanup (audioUrl_then : option url) (s : session) : session :=
  let s := set_timerRef (option_map clearInterval (timerRef s)) s in
  let s := set_streamRef (option_map stop_tracks (streamRef s)) s in
  match audioUrl_then with
  | Some u => revokeObjectURL u s
  | None => s
  end.

Definition same_url (a b : option url) : bool :=
  match a, b with
  | None, None => true
  | Some u, Some v => Nat.eqb u v
  | _, _ => false
  end.

(** The render that follows a handler: the [<audio>] element exists
    exactly while [audioUrl] is set (a new source reloads it), and a
    change of [audioUrl] runs the cleanup of the previous render. *)
Definition commit (before s : session) : session :=
  if same_url (audioUrl before) (audioUrl s) then s
  else
    let s := set_audioRef (option_map (fun _ => mkAudio true 0) (audioUrl s)) s in
    cleanup (audioUrl before) s.

(** What can happen to the component. *)
Inductive event : Type :=
| StartRecording (device : getUserMedia_result) (isTypeSupported : string -> bool) (now : Z)
| DataAvailable (data : Blob)
| RecorderStopped (data : Blob)
| Tick (now : Z)
| StopRecording
| TogglePlayback
| Ended
| DownloadAudio (iso : string)
| TranscribeAudio (answer : fetch_result)
| ResetRecording.

Definition ticking (s : session) : bool :=
  match timerRef s with Some t => active t | None => false end.

(** One event: the handler, then the render.  The recorder delivers data
    while it captures; once stopped it delivers what it still holds and
    then its [stop] event, in one task ([RecorderStopped]).  The timer
    ticks only while the interval is scheduled, and a playback ends only
    while the element plays.  The recorder followed is the one the
    component refers to: the closing events of a recorder that a further
    start has replaced in the meantime are not followed. *)
Definition step (e : event) (s : session) : session * list effect :=
  let (s', fx) :=
    match e with
    | StartRecording device isTypeSupported now =>
        startRecording device isTypeSupported now s
    | DataAvailable data =>
        (match mediaRecorderRef s with
         | Some (mkRecorder Capturing _) => ondataavailable data s
         | _ => s
         end, [])
    | RecorderStopped data =>
        (match mediaRecorderRef s with
         | Some (mkRecorder Stopping type) =>
             onstop type
               (ondataavailable data
                  (set_mediaRecorderRef (Some (mkRecorder Inactive type)) s))
         | _ => s
         end, [])
    | Tick now => (if ticking s then ontick now s else s, [])
    | StopRecording => stopRecording s
    | TogglePlayback => (togglePlayback s, [])
    | Ended =>
        (match audioRef s with
         | Some a => if paused a then s else onended s
         | None => s
         end, [])
    | DownloadAudio iso => (s, downloadAudio iso s)
    | TranscribeAudio answer => transcribeAudio answer s
    | ResetRecording => (resetRecording s, [])
    end in
  (commit s s', fx).

(** The session after a sequence of events. *)
Definition run (es : list event) (s : session) : session :=
  fold_left (fun s e => fst (step e s)) es s.

Definition reachable (s : session) : Prop := exists es, s = run es init.

End Recorder.

(** ** The layout the specification describes *)

Module Layout.

Import DataView Wav.

(** The canonical 44-byte header of a mono, 16-bit PCM file of
    [dataBytes] bytes of samples at [sampleRate], field by field, every
    field little-endian. *)
Definition canonical_header (dataBytes sampleRate : Z) : list Z :=
  charCodes "RIFF" ++ le_bytes 4 (36 + dataBytes) ++
  charCodes "WAVE" ++
  charCodes "fmt " ++ le_bytes 4 16 ++
  le_bytes 2 1 ++                    (* format tag: PCM *)
  le_bytes 2 1 ++                    (* channels *)
  le_bytes 4 sampleRate ++           (* sample rate *)
  le_bytes 4 (sampleRate * 2) ++     (* byte rate *)
  le_bytes 2 2 ++                    (* block align *)
  le_bytes 2 16 ++                   (* bits per sample *)
  charCodes "data" ++ le_bytes 4 dataBytes.

(** The samples, two bytes each, little-endian. *)
Definition pcm_bytes (pcm : list Z) : list Z :=
  flat_map (le_bytes 2) pcm.

End Layout.

(** ** Sample sessions *)

Module Examples.

Import Runtime.

(** A first recording on the [MediaRecorder] variant, taken to its end:
    one chunk while capturing, one on stop. *)
Definition rec_stopped : Recorder.session :=
  Recorder.run
    [Recorder.StartRecording Granted (fun _ => true) 0;
     Recorder.DataAvailable (mkBlob [1; 2; 3] "audio/mp4");
     Recorder.StopRecording;
     Recorder.RecorderStopped (mkBlob [4] "audio/mp4")]
    Recorder.init.

(** A first recording on the WAV variant, taken to its end: one buffer of
    one sample. *)
Definition wav_stopped : WavRecorder.session :=
  WavRecorder.run
    [WavRecorder.StartRecording Granted;
     WavRecorder.AudioProcess [JS.Fin (1 # 2)];
     WavRecorder.StopRecording]
    WavRecorder.init.

(** The WAV variant recording: just started, and with one buffer. *)
Definition wav_started : WavRecorder.session :=
  WavRecorder.run [WavRecorder.StartRecording Granted] WavRecorder.init.

Definition wav_recording : WavRecorder.session :=
  WavRecorder.run
    [WavRecorder.StartRecording Granted;
     WavRecorder.AudioProcess [JS.Fin (1 # 2)]]
    WavRecorder.init.

(** The WAV variant stopped before any buffer was delivered. *)
Definition wav_stopped_empty : WavRecorder.session :=
  WavRecorder.run
    [WavRecorder.StartRecording Granted; WavRecorder.StopRecording]
    WavRecorder.init.

(** The WAV variant recording a second time. *)
Definition wav_restarted : WavRecorder.session :=
  WavRecorder.run
    [WavRecorder.StartRecording Granted;
     WavRecorder.AudioProcess [JS.Fin (1 # 2)];
     WavRecorder.StopRecording;
     WavRecorder.StartRecording Granted]
    WavRecorder.init.

(** The [MediaRecorder] variant stopped, its closing events still to
    come, no chunk delivered. *)
Definition rec_stopping : Recorder.session :=
  Recorder.run
    [Recorder.StartRecording Granted (fun _ => true) 0; Recorder.StopRecording]
    Recorder.init.

End Examples.

(** ** The elapsed time, as displayed

    The two [formatTime] of the component.  Their argument is the
    [recordingTime] of the session, a whole number (of seconds for the
    variants that count ticks, of milliseconds for those that read the
    clock).  The divisions of the source are binary64 divisions; [round]
    stands for the rounding of their exact quotient. *)

Module Display.

Import JS.

(** [n.toString()] of a whole number. *)
Definition toString (z : Z) : string :=
  DecimalString.NilZero.string_of_int (Z.to_int z).

Fixpoint zeros (n : nat) : string :=
  match n with
  | O => EmptyString
  | S n' => String "0"%char (zeros n')
  end.

(** [s.padStart(targetLength, "0")]. *)
Definition padStart (s : string) (targetLength : nat) : string :=
  (zeros (targetLength - String.length s) ++ s)%string.

(** [x % d]: the remainder has the sign of [x], and is exact. *)
Definition rem (x d : Q) : Q := (x - d * inject_Z (truncate (x / d)))%Q.

(** What binary64 rounding to nearest guarantees of [round], as far as the
    display needs it: whole numbers up to [2^53] are kept, and a positive
    quotient between [2^-30] and [2^40] is off by at most [2^-53] of its
    value. *)
Definition faithful (round : Q -> Q) : Prop :=
  (forall x y : Q, (x == y)%Q -> (round x == round y)%Q) /\
  (forall z : Z, Z.abs z <= 2 ^ 53 -> (round (inject_Z z) == inject_Z z)%Q) /\
  (forall x : Q, (1 # 1073741824 <= x)%Q -> (x <= 1099511627776)%Q ->
     (Qabs.Qabs (round x - x) <= x * (1 # 9007199254740992))%Q).

(** The whole number a decimal text denotes, if it is one. *)
Definition read (s : string) : option Z :=
  option_map Z.of_int (DecimalString.NilZero.int_of_string s).

(** The variants that count seconds: [MM:SS]. *)
Module Counter.

Definition formatTime (round : Q -> Q) (seconds : Z) : string :=
  let mins := Qfloor (round (inject_Z seconds / 60)%Q) in
  let secs := Z.rem seconds 60 in
  (padStart (toString mins) 2 ++ ":" ++ padStart (toString secs) 2)%string.

End Counter.

(** The variants that read the clock: [HH:MM:SS.cc]. *)
Module Clock.

Definition formatTime (round : Q -> Q) (milliseconds : Z) : string :=
  let totalSeconds := round (inject_Z milliseconds / 1000)%Q in
  let hours := Qfloor (round (totalSeconds / 3600)%Q) in
  let minutes := Qfloor (round (rem totalSeconds 3600 / 60)%Q) in
  let seconds := Qfloor (rem totalSeconds 60) in
  let ms := Qfloor (round (inject_Z (Z.rem milliseconds 1000) / 10)%Q) in
  (padStart (toString hours) 2 ++ ":" ++ padStart (toString minutes) 2 ++ ":" ++
   padStart (toString seconds) 2 ++ "." ++ padStart (toString ms) 2)%string.

End Clock.

End Display.

(** ** The upload of the artifact

    [uploadAudio] of the variants that take an [onUpload] handler, with
    its simulated progress: the two [useState] values, the progress
    intervals still scheduled, the completion timeouts still to fire, and
    how the calls of the handler that have not settled yet will settle. *)

Module Upload.

Import Runtime.

(** How the promise of a call of [onUpload] settles. *)
Inductive settlement : Type := Fulfils | Rejects.

(** An [onUpload] handler: what it does when called, and how the promise
    it returns settles. *)
Definition handler : Type := Blob -> list effect * settlement.

Record session : Type := mkSession {
  isUploading : bool;
  uploadProgress : Z;
  intervals : nat;
  timeouts : nat;
  pending : list settlement
}.

Definition init : session :=
  {| isUploading := false; uploadProgress := 0; intervals := O; timeouts := O;
     pending := [] |}.

(** [uploadAudio], up to its [await]. *)
Definition uploadAudio (audioBlob : option Blob) (onUpload : option handler)
  (s : session) : session * list effect :=
  match audioBlob, onUpload with
  | Some blob, Some handle =>
      let (fx, result) := handle blob in
      ({| isUploading := true; uploadProgress := 0;
          intervals := S (intervals s); timeouts := timeouts s;
          pending := pending s ++ [result] |}, fx)
  | _, _ => (s, [])
  end.

(** The callback of a progress interval, which clears its own interval
    once the progress has reached 90. *)
Definition onprogress (s : session) : session :=
  if 90 <=? uploadProgress s
  then {| isUploading := isUploading s; uploadProgress := 90;
          intervals := pred (intervals s); timeouts := timeouts s;
          pending := pending s |}
  else {| isUploading := isUploading s; uploadProgress := uploadProgress s + 10;
          intervals := intervals s; timeouts := timeouts s;
          pending := pending s |}.

Definition upload_alert : list effect :=
  [ConsoleError "Upload failed:"; Alert "Upload failed. Please try again."].

(** [uploadAudio], from its [await] on: the rest of the [try] block when
    the promise fulfils, the [catch] block when it rejects. *)
Definition onsettled (result : settlement) (s : session) : session * list effect :=
  match result with
  | Fulfils =>
      ({| isUploading := isUploading s; uploadProgress := 100;
          intervals := intervals s; timeouts := S (timeouts s);
          pending := pending s |}, [])
  | Rejects =>
      ({| isUploading := false; uploadProgress := 0;
          intervals := intervals s; timeouts := timeouts s;
          pending := pending s |}, upload_alert)
  end.

(** The callback of the 500 ms timeout. *)
Definition ontimeout (s : session) : session :=
  {| isUploading := false; uploadProgress := 0;
     intervals := intervals s; timeouts := pred (timeouts s);
     pending := pending s |}.

(** What can happen to the upload. *)
Inductive event : Type :=
| Click (audioBlob : option Blob) (onUpload : option handler)
| ProgressTick
| Settled
| TimeoutFired.

(** One event.  The button is disabled while [isUploading]; an interval
    ticks only while one is scheduled, a call settles only while one is
    pending, and a timeout fires only while one is set. *)
Definition step (e : event) (s : session) : session * list effect :=
  match e with
  | Click audioBlob onUpload =>
      if isUploading s then (s, []) else uploadAudio audioBlob onUpload s
  | ProgressTick => (if (0 <? intervals s)%nat then onprogress s else s, [])
  | Settled =>
      match pending s with
      | result :: rest =>
          onsettled result
            {| isUploading := isUploading s; uploadProgress := uploadProgress s;
               intervals := intervals s; timeouts := timeouts s;
               pending := rest |}
      | [] => (s, [])
      end
  | TimeoutFired => (if (0 <? timeouts s)%nat then ontimeout s else s, [])
  end.

Definition run (es : list event) (s : session) : session :=
  fold_left (fun s e => fst (step e s)) es s.

Definition reachable (s : session) : Prop := exists es, s = run es init.

End Upload.

(** ** The page that hosts the recorder *)

Module Page.

Import Runtime Display.

(** [handleAudioUpload], the handler the page passes as [onUpload]: three
    lines on the console (the blob itself, an object, is left out of the
    first), then a promise that fulfils after two seconds. *)
Definition handleAudioUpload (audioBlob : Blob) : list effect * Upload.settlement :=
  ([ConsoleLog "Audio blob received:";
    ConsoleLog ("Audio size: " ++ toString (Z.of_nat (size audioBlob)) ++ " bytes");
    ConsoleLog ("Audio type: " ++ blob_type audioBlob)]%string,
   Upload.Fulfils).

End Page.

(** ** What the sessions keep *)

Module Kept.

Import Runtime.

(** The object URLs a playback reference accounts for. *)
Definition urls_of (a : option url) : list url :=
  match a with Some u => [u] | None => [] end.

(** The object URLs alive are those of the playback reference, and a
    reference was handed out before [nextUrl]. *)
Definition tidy (audioUrl : option url) (objectUrls : list url) (nextUrl : url) : Prop :=
  objectUrls = urls_of audioUrl /\
  forall u : url, audioUrl = Some u -> (u < nextUrl)%nat.

(** The WAV recorder holds nothing: no device, no timer, no audio graph. *)
Definition released (s : WavRecorder.session) : Prop :=
  WavRecorder.holds_device s = false /\ WavRecorder.ticking s = false /\
  WavRecorder.capturing s = false.

(** The upload is idle, waits for the handler, or waits for the timeout
    that follows a completion. *)
Definition upload_inv (s : Upload.session) : Prop :=
  (0 <= Upload.uploadProgress s <= 100 /\ Upload.uploadProgress s mod 10 = 0) /\
  ((Upload.isUploading s = false /\ Upload.pending s = [] /\
    Upload.timeouts s = O) \/
   (Upload.isUploading s = true /\ (exists r, Upload.pending s = [r]) /\
    Upload.timeouts s = O /\ Upload.uploadProgress s <= 90) \/
   (Upload.isUploading s = true /\ Upload.pending s = [] /\
    Upload.timeouts s = 1%nat)) /\
  (Upload.isUploading s = false -> Upload.uploadProgress s <= 90).

End Kept.

(* ===================================================================== *)
(** * Part II: lemmas and theorems                                        *)
(* ===================================================================== *)

(** Projections of updated sessions, computed. *)
Ltac wav_fields :=
  cbn [WavRecorder.isRecording WavRecorder.isPlaying WavRecorder.recordingTime
       WavRecorder.audioBlob WavRecorder.audioUrl WavRecorder.audioRef
       WavRecorder.streamRef WavRecorder.timerRef WavRecorder.audioContextRef
       WavRecorder.sourceRef WavRecorder.processorRef WavRecorder.audioDataRef
       WavRecorder.objectUrls WavRecorder.nextUrl
       WavRecorder.set_isRecording WavRecorder.set_isPlaying
       WavRecorder.set_recordingTime WavRecorder.set_audioBlob
       WavRecorder.set_audioUrl WavRecorder.set_audioRef
       WavRecorder.set_streamRef WavRecorder.set_timerRef
       WavRecorder.set_audioContextRef WavRecorder.set_sourceRef
       WavRecorder.set_processorRef WavRecorder.set_audioDataRef
       WavRecorder.set_objectUrls WavRecorder.set_nextUrl
       WavRecorder.createObjectURL WavRecorder.revokeObjectURL fst snd] in *.

Ltac rec_fields :=
  cbn [Recorder.isRecording Recorder.isPlaying Recorder.recordingTime
       Recorder.audioBlob Recorder.audioUrl Recorder.isTranscribing
       Recorder.transcript Recorder.transcriptError Recorder.showTranscript
       Recorder.mediaRecorderRef Recorder.audioRef Recorder.streamRef
       Recorder.chunksRef Recorder.timerRef Recorder.startTimeRef
       Recorder.objectUrls Recorder.nextUrl
       Recorder.set_isRecording Recorder.set_isPlaying
       Recorder.set_recordingTime Recorder.set_audioBlob Recorder.set_audioUrl
       Recorder.set_isTranscribing Recorder.set_transcript
       Recorder.set_transcriptError Recorder.set_showTranscript
       Recorder.set_mediaRecorderRef Recorder.set_audioRef
       Recorder.set_streamRef Recorder.set_chunksRef Recorder.set_timerRef
       Recorder.set_startTimeRef Recorder.set_objectUrls Recorder.set_nextUrl
       Recorder.createObjectURL Recorder.revokeObjectURL fst snd] in *.

(** ** Numbers *)

Section Numbers.

Import JS.

Lemma negative_true (q : Q) : negative q = true <-> (q < 0)%Q.
Proof.
  unfold negative. rewrite Qlt_alt.
  destruct (q ?= 0)%Q; split; congruence.
Qed.

Lemma negative_false (q : Q) : negative q = false <-> (0 <= q)%Q.
Proof.
  unfold negative. rewrite Qle_alt.
  rewrite <- (Qcompare_antisym q 0).
  destruct (q ?= 0)%Q; simpl; split; congruence.
Qed.

Lemma ltb_Fin (x y : Q) : ltb (Fin x) (Fin y) = true <-> (x < y)%Q.
Proof.
  simpl. rewrite Qlt_alt. destruct (x ?= y)%Q; split; congruence.
Qed.

Lemma ltb_Fin_false (x y : Q) : ltb (Fin x) (Fin y) = false <-> (y <= x)%Q.
Proof.
  simpl. rewrite Qle_alt, <- (Qcompare_antisym x y).
  destruct (x ?= y)%Q; simpl; split; congruence.
Qed.

Lemma leb_Fin (x y : Q) : leb (Fin x) (Fin y) = true <-> (x <= y)%Q.
Proof.
  simpl. rewrite Qle_alt. destruct (x ?= y)%Q; split; congruence.
Qed.

(** Rounding toward zero is monotone. *)
Lemma truncate_le (x y : Q) : (x <= y)%Q -> truncate x <= truncate y.
Proof.
  intros Hxy. unfold truncate.
  destruct (negative x) eqn:Hx, (negative y) eqn:Hy.
  - now apply Qceiling_resp_le.
  - apply negative_true in Hx. apply negative_false in Hy.
    assert (Hc : Qceiling x <= Qceiling 0) by (apply Qceiling_resp_le; lra).
    assert (Hf : Qfloor 0 <= Qfloor y) by now apply Qfloor_resp_le.
    change (Qceiling 0) with 0 in Hc. change (Qfloor 0) with 0 in Hf. lia.
  - apply negative_false in Hx. apply negative_true in Hy. lra.
  - now apply Qfloor_resp_le.
Qed.

Lemma truncate_Z (z : Z) : truncate (inject_Z z) = z.
Proof.
  unfold truncate. destruct (negative (inject_Z z)).
  - apply Qceiling_Z.
  - apply Qfloor_Z.
Qed.

Lemma truncate_comp (x y : Q) : (x == y)%Q -> truncate x = truncate y.
Proof.
  intros H. apply Z.le_antisymm; apply truncate_le; rewrite H; apply Qle_refl.
Qed.

Lemma wrap16_small (z : Z) : -32768 <= z <= 32767 -> wrap16 z = z.
Proof.
  intros H. unfold wrap16. rewrite Z.mod_small; lia.
Qed.

Lemma wrap16_range (z : Z) : -32768 <= wrap16 z <= 32767.
Proof.
  unfold wrap16. pose proof (Z.mod_pos_bound (z + 32768) 65536). lia.
Qed.

Lemma wrap16_mod (z : Z) : wrap16 (z mod 65536) = wrap16 z.
Proof.
  unfold wrap16.
  rewrite Zplus_mod_idemp_l. reflexivity.
Qed.

End Numbers.

(** ** Binary64: the products of the encoder are exact *)

Section Binary64Facts.

Import SpecFloat Binary64.

Lemma pow2_pred (d : Z) : 0 < d -> 2 ^ d = 2 * 2 ^ (d - 1).
Proof.
  intros H. replace d with (Z.succ (d - 1)) at 1 by lia.
  apply Z.pow_succ_r. lia.
Qed.

(** The number of bits of a significand. *)
Lemma digits2_pos_bounds (m : positive) :
  2 ^ (Zpos (digits2_pos m) - 1) <= Zpos m < 2 ^ Zpos (digits2_pos m).
Proof.
  induction m as [m IH | m IH |]; cbn [digits2_pos].
  - rewrite Pos2Z.inj_succ.
    replace (Z.succ (Zpos (digits2_pos m)) - 1) with (Zpos (digits2_pos m)) by lia.
    rewrite Z.pow_succ_r by lia.
    rewrite (pow2_pred (Zpos (digits2_pos m))) in * by lia. lia.
  - rewrite Pos2Z.inj_succ.
    replace (Z.succ (Zpos (digits2_pos m)) - 1) with (Zpos (digits2_pos m)) by lia.
    rewrite Z.pow_succ_r by lia.
    rewrite (pow2_pred (Zpos (digits2_pos m))) in * by lia. lia.
  - simpl. lia.
Qed.

Lemma digits2_pos_unique (m : positive) (d : Z) :
  2 ^ (d - 1) <= Zpos m < 2 ^ d -> Zpos (digits2_pos m) = d.
Proof.
  intros [Hlo Hhi]. pose proof (digits2_pos_bounds m) as [Blo Bhi].
  assert (Hd : 0 < d).
  { destruct (Z_lt_le_dec 0 d) as [| Hle]; [assumption |].
    assert (2 ^ d <= 2 ^ 0).
    { destruct (Z_lt_le_dec d 0).
      - rewrite Z.pow_neg_r by lia. simpl. lia.
      - apply Z.pow_le_mono_r; lia. }
    simpl in *. lia. }
  destruct (Z_lt_le_dec (Zpos (digits2_pos m)) d) as [Hlt | Hge].
  - assert (2 ^ Zpos (digits2_pos m) <= 2 ^ (d - 1))
      by (apply Z.pow_le_mono_r; lia).
    lia.
  - destruct (Z_lt_le_dec d (Zpos (digits2_pos m))) as [Hgt | Hle]; [| lia].
    assert (2 ^ d <= 2 ^ (Zpos (digits2_pos m) - 1))
      by (apply Z.pow_le_mono_r; lia).
    lia.
Qed.

Lemma digits_shifted (R : positive) (n d : Z) (P : positive) :
  0 <= n -> Zpos (digits2_pos R) = d -> Zpos P = Zpos R * 2 ^ n ->
  Zpos (digits2_pos P) = d + n.
Proof.
  intros Hn Hd HP. apply digits2_pos_unique.
  pose proof (digits2_pos_bounds R) as [Blo Bhi]. rewrite Hd in Blo, Bhi.
  assert (0 < d) by (rewrite <- Hd; lia).
  replace (d + n - 1) with ((d - 1) + n) by lia.
  rewrite !Z.pow_add_r by lia. rewrite HP.
  assert (0 < 2 ^ n) by (apply Z.pow_pos_nonneg; lia).
  split; [apply Z.mul_le_mono_nonneg_r | apply Z.mul_lt_mono_pos_r]; lia.
Qed.

Lemma shr_1_even (K : Z) :
  0 < K ->
  shr_1 (Build_shr_record (K * 2) false false) = Build_shr_record K false false.
Proof.
  intros H. destruct K as [| k | k]; try lia.
  rewrite Z.mul_comm. reflexivity.
Qed.

(** Shifting zero bits out of a significand loses nothing. *)
Lemma iter_shr_1_exact (n : positive) : forall M : Z,
  0 < M ->
  iter_pos shr_1 n (Build_shr_record (M * 2 ^ Zpos n) false false) =
  Build_shr_record M false false.
Proof.
  induction n as [n IH | n IH |]; intros M HM; cbn [iter_pos].
  - replace (M * 2 ^ Zpos n~1) with (((M * 2 ^ Zpos n) * 2 ^ Zpos n) * 2).
    + rewrite shr_1_even by (apply Z.mul_pos_pos; [apply Z.mul_pos_pos |]; lia).
      rewrite IH by (apply Z.mul_pos_pos; lia). now apply IH.
    + replace (Zpos n~1) with (Zpos n + Zpos n + 1) by lia.
      rewrite !Z.pow_add_r by lia. change (2 ^ 1) with 2. ring.
  - replace (M * 2 ^ Zpos n~0) with ((M * 2 ^ Zpos n) * 2 ^ Zpos n).
    + rewrite IH by (apply Z.mul_pos_pos; lia). now apply IH.
    + replace (Zpos n~0) with (Zpos n + Zpos n) by lia.
      rewrite Z.pow_add_r by lia. ring.
  - change (2 ^ 1) with 2. now apply shr_1_even.
Qed.

(** A 53-bit significand shifted left by [n] bits rounds to itself. *)
Lemma binary_round_aux_exact (s : bool) (P R n : positive) (e : Z) :
  Zpos P = Zpos R * 2 ^ Zpos n ->
  Zpos (digits2_pos R) = 53 ->
  -1074 <= e + Zpos n <= 971 ->
  binary_round_aux 53 1024 s (Zpos P) e loc_Exact = S754_finite s R (e + Zpos n).
Proof.
  intros HP HR He.
  pose proof (digits_shifted R (Zpos n) 53 P ltac:(lia) HR HP) as HdP.
  unfold binary_round_aux, shr_fexp. cbn [Zdigits2 shr_record_of_loc].
  rewrite HdP.
  assert (Hf : fexp 53 1024 (53 + Zpos n + e) - e = Zpos n).
  { unfold fexp, emin. lia. }
  rewrite Hf. cbn [shr]. rewrite HP, iter_shr_1_exact by lia.
  cbn [shr_m loc_of_shr_record round_nearest_even Zdigits2 shr_record_of_loc].
  rewrite HR.
  assert (Hf2 : fexp 53 1024 (53 + (e + Zpos n)) - (e + Zpos n) = 0).
  { unfold fexp, emin. lia. }
  rewrite Hf2. cbn [shr shr_m].
  replace (e + Zpos n <=? 1024 - 53) with true by (symmetry; apply Z.leb_le; lia).
  reflexivity.
Qed.

Lemma xorb_positive (s : bool) : xorb s false = s.
Proof. now destruct s. Qed.

(** The product by [0x8000] only moves the exponent. *)
Lemma mul_x8000_exact (s : bool) (m : positive) (e : Z) :
  widened m e ->
  mul (S754_finite s m e) x8000 = S754_finite s m (e + 15).
Proof.
  intros (Hd & _ & He). unfold mul, x8000. cbn [SFmul].
  rewrite xorb_positive.
  replace (e + 15) with (e + -37 + 52) by lia.
  apply binary_round_aux_exact; [| exact Hd | lia].
  rewrite Pos2Z.inj_mul. reflexivity.
Qed.

(** The product by [0x7fff] has at most 39 significant bits: it is kept
    whole. *)
Lemma mul_x7fff_exact (s : bool) (m : positive) (e : Z) :
  widened m e ->
  exists (r : positive) (n : Z),
    mul (S754_finite s m e) x7fff = S754_finite s r (e - 38 + n) /\
    Zpos r * 2 ^ n = Zpos m * 32767 * 2 ^ 38 /\
    0 <= n.
Proof.
  intros (Hd & [k Hk] & He). unfold mul, x7fff. cbn [SFmul].
  rewrite xorb_positive.
  pose proof (digits2_pos_bounds m) as [Blo Bhi]. rewrite Hd in Blo, Bhi.
  change (2 ^ (53 - 1)) with 4503599627370496 in Blo.
  change (2 ^ 53) with 9007199254740992 in Bhi.
  change (2 ^ 29) with 536870912 in Hk.
  assert (Hk23 : 8388608 <= k < 16777216) by lia.
  destruct (Z_lt_le_dec (k * 32767) 274877906944) as [Hsmall | Hbig].
  - exists (Z.to_pos (k * 32767 * 32768)), 52.
    replace (e - 38 + 52) with (e + -38 + 52) by lia.
    assert (Hr : Zpos (Z.to_pos (k * 32767 * 32768)) = k * 32767 * 32768)
      by (apply Z2Pos.id; lia).
    split; [| split; [| lia]].
    + apply binary_round_aux_exact; [| | lia].
      * rewrite Pos2Z.inj_mul, Hr, Hk.
        change (Zpos (Z.to_pos (32767 * 2 ^ 38))) with 9006924376834048.
        change (2 ^ 52) with 4503599627370496. lia.
      * apply digits2_pos_unique. rewrite Hr.
        change (2 ^ (53 - 1)) with 4503599627370496.
        change (2 ^ 53) with 9007199254740992. lia.
    + rewrite Hr, Hk. change (2 ^ 52) with 4503599627370496.
      change (2 ^ 38) with 274877906944. lia.
  - exists (Z.to_pos (k * 32767 * 16384)), 53.
    replace (e - 38 + 53) with (e + -38 + 53) by lia.
    assert (Hr : Zpos (Z.to_pos (k * 32767 * 16384)) = k * 32767 * 16384)
      by (apply Z2Pos.id; lia).
    split; [| split; [| lia]].
    + apply binary_round_aux_exact; [| | lia].
      * rewrite Pos2Z.inj_mul, Hr, Hk.
        change (Zpos (Z.to_pos (32767 * 2 ^ 38))) with 9006924376834048.
        change (2 ^ 53) with 9007199254740992. lia.
      * apply digits2_pos_unique. rewrite Hr.
        change (2 ^ (53 - 1)) with 4503599627370496.
        change (2 ^ 53) with 9007199254740992. lia.
    + rewrite Hr, Hk. change (2 ^ 53) with 9007199254740992.
      change (2 ^ 38) with 274877906944. lia.
Qed.

Lemma two_power_nonneg (n : Z) : 0 <= n -> (inject_Z (2 ^ n) == 2 ^ n)%Q.
Proof. intros H. now rewrite Zpower_Qpower. Qed.

Lemma signed_scale (s : bool) (m r : positive) (e n c ec : Z) :
  0 <= n -> 0 <= - ec ->
  Zpos r * 2 ^ n = Zpos m * c * 2 ^ (- ec) ->
  (inject_Z (if s then Zneg r else Zpos r) * 2 ^ (e + ec + n) ==
   inject_Z (if s then Zneg m else Zpos m) * 2 ^ e * inject_Z c)%Q.
Proof.
  intros Hn Hec H.
  assert (H2 : ~ (2 == 0)%Q) by discriminate.
  rewrite !Qpower_plus by exact H2.
  assert (Hinv : (2 ^ ec * 2 ^ (- ec) == 1)%Q).
  { rewrite <- Qpower_plus by exact H2. now rewrite Z.add_opp_diag_r. }
  assert (HZ : (inject_Z (Zpos r) * 2 ^ n ==
                inject_Z (Zpos m) * inject_Z c * 2 ^ (- ec))%Q).
  { rewrite <- !two_power_nonneg by assumption. rewrite <- !inject_Z_mult.
    now rewrite H. }
  assert (Hsign : forall p : positive,
            (inject_Z (if s then Zneg p else Zpos p) ==
             (if s then -1 else 1) * inject_Z (Zpos p))%Q).
  { intros p. destruct s; [| now rewrite Qmult_1_l].
    change (Zneg p) with (- Zpos p). rewrite inject_Z_opp. ring. }
  rewrite (Hsign r), (Hsign m).
  transitivity ((if s then -1 else 1) * (inject_Z (Zpos r) * 2 ^ n) * 2 ^ e * 2 ^ ec)%Q;
    [ring |].
  rewrite HZ.
  transitivity ((if s then -1 else 1) * inject_Z (Zpos m) * 2 ^ e * inject_Z c *
                (2 ^ ec * 2 ^ (- ec)))%Q; [ring |].
  rewrite Hinv. ring.
Qed.

Example binary64_constants :
  valid_binary 53 1024 x8000 = true /\ valid_binary 53 1024 x7fff = true /\
  JS.same (value x8000) (JS.of_Z 32768) /\ JS.same (value x7fff) (JS.of_Z 32767).
Proof. repeat split. Qed.

(** The binary64 products of a clipped sample by [0x8000] and by [0x7fff]
    denote the exact products. *)
Theorem products_exact (x : spec_float) :
  clipped x ->
  JS.same (value (mul x x8000)) (JS.mul (value x) (JS.of_Z 32768)) /\
  JS.same (value (mul x x7fff)) (JS.mul (value x) (JS.of_Z 32767)).
Proof.
  intros [| s | s m e Hw].
  - split; exact I.
  - split; cbn; reflexivity.
  - split.
    + rewrite (mul_x8000_exact s m e Hw). cbn [value JS.mul JS.of_Z JS.same].
      replace (e + 15) with (e + -37 + 52) by lia.
      apply signed_scale; lia.
    + destruct (mul_x7fff_exact s m e Hw) as (r & n & -> & Hr & Hn).
      cbn [value JS.mul JS.of_Z JS.same].
      replace (e - 38 + n) with (e + -38 + n) by lia.
      apply signed_scale; lia.
Qed.

(** An element of a [Float32Array] of magnitude below 2, read as a
    number, is a clipped sample in the sense above, of the same value. *)
Theorem widen32_clipped (x : spec_float) :
  small32 x ->
  clipped (widen32 x) /\ JS.same (value (widen32 x)) (value x).
Proof.
  intros [Hvalid Hsmall]. destruct x as [s | s | | s m e].
  - split; [constructor | reflexivity].
  - contradiction.
  - split; [constructor | exact I].
  - cbn [valid_binary] in Hvalid. unfold bounded, canonical_mantissa in Hvalid.
    apply andb_true_iff in Hvalid. destruct Hvalid as [Hcanon _].
    apply Z.eqb_eq in Hcanon. unfold fexp, emin in Hcanon.
    pose proof (digits2_pos_bounds m) as [Blo _].
    assert (Hd : 0 < Zpos (digits2_pos m) <= 24) by lia.
    assert (He : -149 <= e) by lia.
    cbn [widen32]. cbv zeta.
    set (k := 53 - Zpos (digits2_pos m)) in *.
    assert (Hk : 29 <= k) by (subst k; lia).
    assert (Hpow : 0 < 2 ^ k) by (apply Z.pow_pos_nonneg; lia).
    assert (Hm : Zpos (Z.to_pos (Zpos m * 2 ^ k)) = Zpos m * 2 ^ k)
      by (apply Z2Pos.id; lia).
    split.
    + constructor. split; [| split].
      * replace 53 with (Zpos (digits2_pos m) + k) by (subst k; lia).
        apply (digits_shifted m k); [lia | reflexivity | exact Hm].
      * exists (Zpos m * 2 ^ (k - 29)). rewrite Hm.
        replace k with ((k - 29) + 29) at 1 by lia.
        rewrite Z.pow_add_r by lia. ring.
      * subst k. lia.
    + cbn [value JS.same]. symmetry.
      pose proof (signed_scale s (Z.to_pos (Zpos m * 2 ^ k)) m (e - k) k 1 0
                    ltac:(lia) ltac:(lia)) as H.
      replace (e - k + 0 + k) with e in H by lia.
      rewrite H; [change (inject_Z 1) with 1%Q; ring |].
      rewrite Hm. change (2 ^ (- 0)) with 1. ring.
Qed.

(** One half, from binary32 to binary64 and through the product. *)
Example half_sample :
  JS.same (value (widen32 (S754_finite false 8388608 (-24)))) (JS.Fin (1 # 2)) /\
  mul (widen32 (S754_finite false 8388608 (-24))) x7fff =
    S754_finite false 9006924376834048 (-39) /\
  JS.same (value (S754_finite false 9006924376834048 (-39))) (JS.Fin (32767 # 2)).
Proof. repeat split. Qed.

End Binary64Facts.

(** ** The quantizer of [floatTo16BitPCM] *)

Section Quantizer.

Import JS Wav.

(** The clipped value of a finite sample. *)
Lemma clip_Fin (q : Q) :
  (q <= -1 /\ clip (Fin q) = Fin (-1))%Q \/
  (-1 < q /\ q < 1 /\ clip (Fin q) = Fin q)%Q \/
  (1 <= q /\ clip (Fin q) = Fin 1)%Q.
Proof.
  unfold clip, Math_min, Math_max, of_Z.
  destruct (ltb (Fin q) (Fin (inject_Z 1))) eqn:H1.
  - apply ltb_Fin in H1.
    destruct (ltb (Fin (inject_Z (-1))) (Fin q)) eqn:H2.
    + apply ltb_Fin in H2. right; left. repeat split; assumption.
    + apply ltb_Fin_false in H2. left. split; [assumption | reflexivity].
  - apply ltb_Fin_false in H1. right; right.
    split; [assumption | reflexivity].
Qed.

(** The value handed to [setInt16] for a finite sample. *)
Lemma scaled_Fin (q : Q) :
  exists v : Q,
    scaled (Fin q) = Fin v /\
    ((q <= -1 /\ v == -32768) \/
     (-1 < q /\ q < 0 /\ v == q * 32768) \/
     (0 <= q /\ q < 1 /\ v == q * 32767) \/
     (1 <= q /\ v == 32767))%Q.
Proof.
  unfold scaled.
  destruct (clip_Fin q) as [[Hq ->] | [(Hlo & Hhi & ->) | [Hq ->]]].
  - eexists; split; [reflexivity |]. left. split; [assumption | reflexivity].
  - destruct (ltb (Fin q) (of_Z 0)) eqn:H0; unfold of_Z in *.
    + apply ltb_Fin in H0. eexists; split; [reflexivity |].
      right; left. repeat split; try assumption; reflexivity.
    + apply ltb_Fin_false in H0. eexists; split; [reflexivity |].
      right; right; left. repeat split; try assumption; reflexivity.
  - eexists; split; [reflexivity |]. right; right; right.
    split; [assumption | reflexivity].
Qed.

Lemma scaled_Fin_bounds (q v : Q) :
  scaled (Fin q) = Fin v -> (-32768 <= v <= 32767)%Q.
Proof.
  intros H. destruct (scaled_Fin q) as (w & Hw & Hcases).
  rewrite Hw in H. injection H as <-.
  destruct Hcases as [[? E] | [(? & ? & E) | [(? & ? & E) | [? E]]]];
    rewrite E; lra.
Qed.

Lemma truncate_bounds (v : Q) :
  (-32768 <= v <= 32767)%Q -> -32768 <= truncate v <= 32767.
Proof.
  intros [Hlo Hhi]. split.
  - rewrite <- (truncate_Z (-32768)). now apply truncate_le.
  - rewrite <- (truncate_Z 32767). now apply truncate_le.
Qed.

(** The integer that [setInt16] receives fits in 16 bits, whatever the
    sample. *)
Lemma to_integer_scaled_range (x : number) :
  -32768 <= to_integer (scaled x) <= 32767.
Proof.
  destruct x as [| | | q]; try (vm_compute; split; discriminate).
  destruct (scaled_Fin q) as (v & Hv & _).
  pose proof (scaled_Fin_bounds q v Hv) as Hb.
  rewrite Hv. simpl. now apply truncate_bounds.
Qed.

Lemma sample16_to_integer (x : number) : sample16 x = to_integer (scaled x).
Proof.
  unfold sample16, ToInt16. apply wrap16_small, to_integer_scaled_range.
Qed.

Lemma to_integer_scaled_Fin_le (p q : Q) :
  (p <= q)%Q -> to_integer (scaled (Fin p)) <= to_integer (scaled (Fin q)).
Proof.
  intros Hpq.
  destruct (scaled_Fin p) as (v & -> & Hv).
  destruct (scaled_Fin q) as (w & -> & Hw).
  simpl. apply truncate_le.
  destruct Hv as [[? Ev] | [(? & ? & Ev) | [(? & ? & Ev) | [? Ev]]]];
  destruct Hw as [[? Ew] | [(? & ? & Ew) | [(? & ? & Ew) | [? Ew]]]];
    rewrite Ev, Ew; lra.
Qed.

Lemma sample16_monotone (x y : number) :
  leb x y = true -> sample16 x <= sample16 y.
Proof.
  intros Hxy. rewrite !sample16_to_integer.
  destruct x as [| | | p], y as [| | | q]; try discriminate Hxy.
  - vm_compute; discriminate.
  - vm_compute; discriminate.
  - pose proof (to_integer_scaled_range (Fin q)) as H.
    change (to_integer (scaled NegInf)) with (-32768). lia.
  - vm_compute; discriminate.
  - pose proof (to_integer_scaled_range (Fin p)) as H.
    change (to_integer (scaled PosInf)) with 32767. lia.
  - apply to_integer_scaled_Fin_le. now apply leb_Fin.
Qed.

End Quantizer.

(** ** Byte buffers *)

Section Buffers.

Import JS DataView Wav Layout.

Lemma length_store (b : buffer) : forall offset bytes,
  length (store b offset bytes) = length b.
Proof.
  induction b as [| y b IH]; intros [| o] [| x bytes]; simpl; auto.
Qed.

Lemma length_le_bytes (n : nat) : forall v, length (le_bytes n v) = n.
Proof.
  induction n as [| n IH]; intros v; simpl; [reflexivity | now rewrite IH].
Qed.

(** Overwriting a stretch of a buffer. *)
Lemma store_app (pre old post bytes : list Z) :
  length old = length bytes ->
  store (pre ++ old ++ post) (length pre) bytes = pre ++ bytes ++ post.
Proof.
  intros Hlen. induction pre as [| y pre IH]; simpl.
  - revert bytes Hlen.
    induction old as [| o old IHo]; intros [| x bytes] Hlen;
      try discriminate Hlen; simpl.
    + now destruct post.
    + f_equal. apply IHo. now injection Hlen.
  - now rewrite IH.
Qed.

Lemma set_le_app (n : nat) (pre old post : list Z) (v : Z) :
  length old = n ->
  set_le n (pre ++ old ++ post) (length pre) v = Some (pre ++ le_bytes n v ++ post).
Proof.
  intros Hlen. unfold set_le.
  rewrite !length_app, Hlen.
  replace (length pre + n <=? length pre + (n + length post))%nat with true
    by (symmetry; apply Nat.leb_le; lia).
  now rewrite store_app by (now rewrite length_le_bytes).
Qed.

Lemma le_value_le_bytes (n : nat) : forall v,
  le_value (le_bytes n v) = v mod 256 ^ Z.of_nat n.
Proof.
  induction n as [| n IH]; intros v.
  - simpl. now rewrite Z.mod_1_r.
  - cbn [le_bytes le_value]. rewrite IH.
    rewrite Nat2Z.inj_succ, Z.pow_succ_r by lia.
    rewrite Z.rem_mul_r by lia. lia.
Qed.

Lemma Int16Array_pcm_bytes (pcm : list Z) :
  Int16Array (pcm_bytes pcm) = map wrap16 pcm.
Proof.
  induction pcm as [| p pcm IH]; [reflexivity |].
  unfold pcm_bytes in *. cbn [flat_map map].
  change (le_bytes 2 p) with [p mod 256; (p / 256) mod 256].
  cbn [app Int16Array]. rewrite IH. f_equal.
  rewrite <- (wrap16_mod p). f_equal.
  change 65536 with (256 * 256). rewrite Z.rem_mul_r by lia. lia.
Qed.

End Buffers.

(** ** The encoder *)

Section Encoder.

Import JS DataView Wav Layout.

Lemma floatTo16BitPCM_loop_bytes (samples : list number) : forall pre : list Z,
  floatTo16BitPCM_loop samples (length pre) (pre ++ repeat 0 (length samples * 2)%nat) =
  Some (pre ++ pcm_bytes (map (fun x => to_integer (scaled x)) samples)).
Proof.
  induction samples as [| x rest IH]; intros pre.
  - simpl. reflexivity.
  - cbn [floatTo16BitPCM_loop length Nat.mul Nat.add repeat map].
    unfold setInt16.
    change (0 :: 0 :: repeat 0 (length rest * 2)%nat)
      with ([0; 0] ++ repeat 0 (length rest * 2)%nat).
    rewrite set_le_app by reflexivity.
    replace (length pre + 2)%nat
      with (length (pre ++ le_bytes 2 (to_integer (scaled x))))
      by (rewrite length_app, length_le_bytes; reflexivity).
    rewrite app_assoc, IH, <- app_assoc. reflexivity.
Qed.

(** [floatTo16BitPCM] returns, with one 16-bit sample per input sample. *)
Lemma floatTo16BitPCM_map (samples : list number) :
  floatTo16BitPCM samples = Some (map sample16 samples).
Proof.
  unfold floatTo16BitPCM, new_ArrayBuffer.
  pose proof (floatTo16BitPCM_loop_bytes samples []) as H.
  cbn [app length] in H. rewrite H.
  rewrite Int16Array_pcm_bytes, map_map. reflexivity.
Qed.

Lemma encodeWAV_loop_bytes (pcm : list Z) : forall (pre : list Z) (i : nat),
  length pre = (44 + i * 2)%nat ->
  encodeWAV_loop pcm i (pre ++ repeat 0 (length pcm * 2)%nat) =
  Some (pre ++ pcm_bytes pcm).
Proof.
  induction pcm as [| p rest IH]; intros pre i Hpre.
  - simpl. reflexivity.
  - cbn [encodeWAV_loop length Nat.mul repeat].
    unfold setInt16. rewrite <- Hpre.
    change (repeat 0 (2 + length rest * 2)%nat)
      with ([0; 0] ++ repeat 0 (length rest * 2)%nat).
    rewrite set_le_app by reflexivity.
    rewrite app_assoc, IH.
    + rewrite <- app_assoc. reflexivity.
    + rewrite length_app, length_le_bytes. lia.
Qed.

(** The buffer [encodeWAV] returns: the canonical header, then the
    samples. *)
Lemma encodeWAV_bytes (samples : list number) (sampleRate : Z) :
  encodeWAV samples sampleRate =
  Some (canonical_header (Z.of_nat (length samples) * 2) sampleRate ++
        pcm_bytes (map sample16 samples)).
Proof.
  unfold encodeWAV, new_ArrayBuffer.
  rewrite repeat_app, floatTo16BitPCM_map.
  rewrite <- (length_map sample16 samples) at 1.
  generalize (Z.of_nat (length samples)) as n.
  generalize (map sample16 samples) as pcm. intros pcm n.
  pose proof (encodeWAV_loop_bytes pcm (canonical_header (n * 2) sampleRate) 0
                eq_refl) as Hloop.
  rewrite <- Hloop. clear Hloop.
  generalize (repeat 0 (length pcm * 2)%nat) as t. intros t.
  unfold writeString, setUint32, setUint16, canonical_header.
  change (charCodes "RIFF") with [82; 73; 70; 70].
  change (charCodes "WAVE") with [87; 65; 86; 69].
  change (charCodes "fmt ") with [102; 109; 116; 32].
  change (charCodes "data") with [100; 97; 116; 97].
  cbn [repeat app writeString_loop setUint8 set_le store le_bytes length
       Nat.add Nat.leb].
  repeat (f_equal; try reflexivity). now destruct t.
Qed.

Lemma length_pcm_bytes (pcm : list Z) :
  length (pcm_bytes pcm) = (length pcm * 2)%nat.
Proof.
  induction pcm as [| p pcm IH]; [reflexivity |].
  unfold pcm_bytes in *. cbn [flat_map]. rewrite length_app, IH.
  rewrite length_le_bytes. reflexivity.
Qed.

(** The fields of a buffer that starts with the canonical header.  The two
    size fields hold 32 bits. *)
Lemma canonical_header_fields (d : Z) (rest : list Z) :
  let buf := canonical_header d 44100 ++ rest in
  length buf = (44 + length rest)%nat /\
  slice buf 0 4 = charCodes "RIFF" /\
  slice buf 8 4 = charCodes "WAVE" /\
  slice buf 36 4 = charCodes "data" /\
  getUint32 buf 4 = Some ((36 + d) mod 2 ^ 32) /\
  getUint32 buf 40 = Some (d mod 2 ^ 32) /\
  getUint16 buf 20 = Some 1 /\
  getUint16 buf 22 = Some 1 /\
  getUint32 buf 24 = Some 44100 /\
  getUint16 buf 32 = Some 2 /\
  getUint16 buf 34 = Some 16.
Proof.
  intros buf. subst buf.
  repeat split; try reflexivity.
  - change (getUint32 (canonical_header d 44100 ++ rest) 4)
      with (Some (le_value (le_bytes 4 (36 + d)))).
    now rewrite le_value_le_bytes.
  - change (getUint32 (canonical_header d 44100 ++ rest) 40)
      with (Some (le_value (le_bytes 4 d))).
    now rewrite le_value_le_bytes.
Qed.

(** [encodeWAV] returns, whatever the samples; the buffer it returns has
    44 bytes of header and two bytes per sample, and its header reads as
    follows, the two size fields being taken modulo [2^32]. *)
Lemma encodeWAV_fields (samples : list number) :
  exists buf : buffer,
    encodeWAV samples 44100 = Some buf /\
    length buf = (44 + length samples * 2)%nat /\
    slice buf 0 4 = charCodes "RIFF" /\
    slice buf 8 4 = charCodes "WAVE" /\
    slice buf 36 4 = charCodes "data" /\
    getUint32 buf 4 = Some ((36 + Z.of_nat (length samples) * 2) mod 2 ^ 32) /\
    getUint32 buf 40 = Some ((Z.of_nat (length samples) * 2) mod 2 ^ 32) /\
    getUint16 buf 20 = Some 1 /\
    getUint16 buf 22 = Some 1 /\
    getUint32 buf 24 = Some 44100 /\
    getUint16 buf 32 = Some 2 /\
    getUint16 buf 34 = Some 16.
Proof.
  rewrite encodeWAV_bytes. eexists. split; [reflexivity |].
  pose proof (canonical_header_fields (Z.of_nat (length samples) * 2)
                (pcm_bytes (map sample16 samples))) as H.
  cbv zeta in H. rewrite length_pcm_bytes, length_map in H.
  exact H.
Qed.

End Encoder.

(** ** The WAV encoder: claims *)

Section EncoderClaims.

Import JS DataView Wav.

(** C1 (amended).  For every sequence of N sample frames, [encodeWAV]
    returns a buffer of exactly 44 + 2N bytes whose bytes [0..4) spell
    "RIFF", bytes [8..12) spell "WAVE" and bytes [36..40) spell "data", and
    whose header declares format tag 1 (PCM), one channel, sample rate
    44100, block align 2 and 16 bits per sample.  Its RIFF chunk-size
    field (offset 4) and its data-chunk-size field (offset 40) hold
    36 + 2N and 2N modulo 2^32: they are 36 + 2N and 2N whenever
    36 + 2N < 2^32. *)
Theorem encodeWAV_layout (samples : list number) :
  exists buf : buffer,
    encodeWAV samples sampleRate_default = Some buf /\
    length buf = (44 + 2 * length samples)%nat /\
    slice buf 0 4 = charCodes "RIFF" /\
    slice buf 8 4 = charCodes "WAVE" /\
    slice buf 36 4 = charCodes "data" /\
    getUint16 buf 20 = Some 1 /\
    getUint16 buf 22 = Some 1 /\
    getUint32 buf 24 = Some 44100 /\
    getUint16 buf 32 = Some 2 /\
    getUint16 buf 34 = Some 16 /\
    getUint32 buf 4 = Some ((36 + 2 * Z.of_nat (length samples)) mod 2 ^ 32) /\
    getUint32 buf 40 = Some ((2 * Z.of_nat (length samples)) mod 2 ^ 32) /\
    (36 + 2 * Z.of_nat (length samples) < 2 ^ 32 ->
     getUint32 buf 4 = Some (36 + 2 * Z.of_nat (length samples)) /\
     getUint32 buf 40 = Some (2 * Z.of_nat (length samples))).
Proof.
  destruct (encodeWAV_fields samples)
    as (buf & Hbuf & Hlen & Hriff & Hwave & Hdata & Hsize & Hdsize &
        Htag & Hchannels & Hrate & Halign & Hbits).
  exists buf. unfold sampleRate_default.
  rewrite (Z.mul_comm _ 2) in Hsize, Hdsize.
  rewrite (Nat.mul_comm _ 2) in Hlen.
  repeat (split; [assumption |]).
  intros Hfit. rewrite Hsize, Hdsize.
  rewrite !Z.mod_small by lia. split; reflexivity.
Qed.

Lemma encodeWAV_layout_witness :
  exists buf : buffer,
    encodeWAV [Fin (1 # 2); Fin (- (3 # 1))] sampleRate_default = Some buf /\
    getUint32 buf 4 = Some 40 /\
    getUint32 buf 40 = Some 4.
Proof.
  destruct (encodeWAV_layout [Fin (1 # 2); Fin (- (3 # 1))])
    as (buf & Hbuf & _ & _ & _ & _ & _ & _ & _ & _ & _ & _ & _ & Hfit).
  exists buf. split; [exact Hbuf |].
  apply Hfit. vm_compute. reflexivity.
Defined.

(** C1, as stated, fails at N = 2147483630 sample frames (about thirteen
    and a half hours at 44100 frames a second): 36 + 2N is 2^32, which the
    32-bit RIFF chunk-size field holds as 0. *)
Lemma encodeWAV_riff_size_wraps :
  exists buf : buffer,
    encodeWAV (repeat (Fin 0) (Z.to_nat 2147483630)) sampleRate_default = Some buf /\
    getUint32 buf 4 = Some 0 /\
    getUint32 buf 4 <>
      Some (36 + 2 * Z.of_nat (length (repeat (Fin 0) (Z.to_nat 2147483630)))).
Proof.
  destruct (encodeWAV_fields (repeat (Fin 0) (Z.to_nat 2147483630)))
    as (buf & Hbuf & _ & _ & _ & _ & Hsize & _).
  rewrite repeat_length, Z2Nat.id in Hsize by lia.
  change ((36 + 2147483630 * 2) mod 2 ^ 32) with 0 in Hsize.
  exists buf. split; [exact Hbuf |]. split; [exact Hsize |].
  rewrite Hsize, repeat_length, Z2Nat.id by lia.
  discriminate.
Qed.

(** The clipped sample is a number between -1 and 1 unless the sample is
    NaN, and it is the sample itself when that lies between -1 and 1. *)
Lemma clip_range (x : number) :
  x <> NaN ->
  exists c : Q,
    clip x = Fin c /\ (-1 <= c <= 1)%Q /\
    (forall q : Q, x = Fin q -> (-1 <= q <= 1)%Q -> (c == q)%Q).
Proof.
  intros Hx. destruct x as [| | | q].
  - contradiction.
  - exists (-1)%Q. repeat split; try discriminate; lra.
  - exists 1%Q. repeat split; try discriminate; lra.
  - destruct (clip_Fin q) as [[Hq E] | [(Hlo & Hhi & E) | [Hq E]]];
      rewrite E; eexists; (split; [reflexivity |]); (split; [lra |]);
      intros q' [= <-] Hr; lra.
Qed.

(** Negative clipped samples are scaled by 32768, the others by 32767, and
    the product is rounded toward zero. *)
Lemma sample16_scale (x : number) (c : Q) :
  clip x = Fin c ->
  sample16 x = truncate (if negative c then c * 32768 else c * 32767)%Q.
Proof.
  intros Hc. rewrite sample16_to_integer. unfold scaled. rewrite Hc.
  change (ltb (Fin c) (of_Z 0)) with (negative c).
  destruct (negative c); reflexivity.
Qed.

(** C2.  The quantization of [floatTo16BitPCM] maps each sample [x] to
    [sample16 x]; it first clips the sample to [-1, 1] (every sample that
    is a number; NaN stays NaN and is written as 0), scales a negative
    clipped sample by 32768 and any other by 32767, is monotone in the
    sample, and maps 1.0 to 32767, -1.0 to -32768 and 0 to 0. *)
Theorem quantization_clips_scales_monotone :
  (forall samples : list number,
     floatTo16BitPCM samples = Some (map sample16 samples)) /\
  (forall x : number, x <> NaN ->
     exists c : Q,
       clip x = Fin c /\ (-1 <= c <= 1)%Q /\
       (forall q : Q, x = Fin q -> (-1 <= q <= 1)%Q -> (c == q)%Q) /\
       sample16 x = truncate (if negative c then c * 32768 else c * 32767)%Q) /\
  sample16 NaN = 0 /\
  (forall x y : number, leb x y = true -> sample16 x <= sample16 y) /\
  sample16 (of_Z 1) = 32767 /\
  sample16 (of_Z (-1)) = -32768 /\
  sample16 (of_Z 0) = 0.
Proof.
  split; [exact floatTo16BitPCM_map |].
  split.
  { intros x Hx. destruct (clip_range x Hx) as (c & Hc & Hr & Hid).
    exists c. repeat split; try assumption; try apply Hr.
    now apply sample16_scale. }
  split; [reflexivity |].
  split; [exact sample16_monotone |].
  repeat split; reflexivity.
Qed.

Lemma quantization_clips_scales_monotone_witness :
  (exists c : Q,
     clip (Fin (3 # 2)) = Fin c /\ (-1 <= c <= 1)%Q /\
     (forall q : Q, Fin (3 # 2) = Fin q -> (-1 <= q <= 1)%Q -> (c == q)%Q) /\
     sample16 (Fin (3 # 2)) =
       truncate (if negative c then c * 32768 else c * 32767)%Q) /\
  sample16 (Fin (- (1 # 2))) <= sample16 (Fin (1 # 4)).
Proof.
  split.
  - apply (proj1 (proj2 quantization_clips_scales_monotone) (Fin (3 # 2))).
    discriminate.
  - apply (proj1 (proj2 (proj2 (proj2 quantization_clips_scales_monotone)))
             (Fin (- (1 # 2))) (Fin (1 # 4))).
    reflexivity.
Defined.

(** C10.  Whatever the sample, also outside [-1, 1], the integer that
    [floatTo16BitPCM] hands to [setInt16] lies in [-32768, 32767], so it is
    stored as it is; and the output has exactly one 16-bit sample per
    input sample. *)
Theorem floatTo16BitPCM_in_range (samples : list number) :
  (forall x : number,
     -32768 <= to_integer (scaled x) <= 32767 /\
     sample16 x = to_integer (scaled x)) /\
  exists out : list Z,
    floatTo16BitPCM samples = Some out /\
    length out = length samples /\
    Forall (fun v => -32768 <= v <= 32767) out.
Proof.
  split.
  - intros x. split.
    + apply to_integer_scaled_range.
    + apply sample16_to_integer.
  - exists (map sample16 samples). split; [apply floatTo16BitPCM_map |].
    split; [apply length_map |].
    apply Forall_forall. intros v Hv.
    apply in_map_iff in Hv. destruct Hv as (x & <- & _).
    rewrite sample16_to_integer. apply to_integer_scaled_range.
Qed.

Example sample16_examples :
  map sample16 [Fin (1 # 2); Fin (- (1 # 2)); Fin (7 # 2); Fin (- (9 # 1)); PosInf; NegInf; NaN] =
  [16383; -16384; 32767; -32768; 32767; -32768; 0].
Proof. vm_compute. reflexivity. Qed.

Example encodeWAV_two :
  encodeWAV [Fin (1 # 2); Fin (- (3 # 1))] 44100 =
  Some [82; 73; 70; 70; 40; 0; 0; 0; 87; 65; 86; 69; 102; 109; 116; 32;
        16; 0; 0; 0; 1; 0; 1; 0; 68; 172; 0; 0; 136; 88; 1; 0; 2; 0; 16; 0;
        100; 97; 116; 97; 4; 0; 0; 0; 255; 63; 0; 128].
Proof. vm_compute. reflexivity. Qed.

End EncoderClaims.

(** ** The recorder that encodes WAV itself: facts *)

Section WavRecorderFacts.

Import JS Runtime Wav WavRecorder.

Lemma total_length (chunks : list (list number)) : forall acc : nat,
  fold_left (fun acc chunk => (acc + length chunk)%nat) chunks acc =
  (acc + length (concat chunks))%nat.
Proof.
  induction chunks as [| chunk rest IH]; intros acc; simpl.
  - lia.
  - rewrite IH, length_app. lia.
Qed.

Lemma Float32Array_set_app (pre old post source : list number) :
  length old = length source ->
  Float32Array_set (pre ++ old ++ post) source (length pre) =
  Some (pre ++ source ++ post).
Proof.
  intros Hlen. unfold Float32Array_set.
  rewrite !length_app, Hlen.
  replace (length pre + length source <=?
           length pre + (length source + length post))%nat with true
    by (symmetry; apply Nat.leb_le; lia).
  rewrite firstn_app, Nat.sub_diag, firstn_all. cbn [firstn]. rewrite app_nil_r.
  rewrite skipn_app, skipn_all2 by lia. cbn [app].
  replace (length pre + length source - length pre)%nat with (length source) by lia.
  rewrite skipn_app, <- Hlen, skipn_all, Nat.sub_diag. reflexivity.
Qed.

Lemma copy_chunks_concat (chunks : list (list number)) : forall pre : list number,
  copy_chunks chunks (pre ++ repeat (of_Z 0) (length (concat chunks))) (length pre) =
  Some (pre ++ concat chunks).
Proof.
  induction chunks as [| chunk rest IH]; intros pre.
  - simpl. reflexivity.
  - cbn [copy_chunks concat]. rewrite length_app, repeat_app.
    rewrite Float32Array_set_app by apply repeat_length.
    replace (length pre + length chunk)%nat with (length (pre ++ chunk))
      by apply length_app.
    rewrite app_assoc, IH, <- app_assoc. reflexivity.
Qed.

(** The copy loop of [stopRecording] puts the buffered chunks one after
    the other. *)
Lemma gather_concat (chunks : list (list number)) :
  gather chunks = Some (concat chunks).
Proof.
  unfold gather. rewrite total_length. cbn [Nat.add].
  exact (copy_chunks_concat chunks []).
Qed.

Lemma wav_same_url_refl (a : option url) : same_url a a = true.
Proof. destruct a; simpl; [apply Nat.eqb_refl | reflexivity]. Qed.

Lemma wav_commit_same (before s : session) :
  audioUrl before = audioUrl s -> commit before s = s.
Proof.
  intros H. unfold commit. now rewrite H, wav_same_url_refl.
Qed.

(** The render leaves the recording flag, the artifact, its reference, the
    elapsed time and the buffered samples as the handler set them. *)
Lemma wav_commit_keeps (before s : session) :
  isRecording (commit before s) = isRecording s /\
  audioBlob (commit before s) = audioBlob s /\
  audioUrl (commit before s) = audioUrl s /\
  recordingTime (commit before s) = recordingTime s /\
  audioDataRef (commit before s) = audioDataRef s.
Proof.
  unfold commit, cleanup.
  destruct (same_url (audioUrl before) (audioUrl s)); [repeat split |].
  destruct (audioUrl before); wav_fields; repeat split.
Qed.

(** What [stopRecording] does to a recording session that has buffered
    samples: the artifact is the encoding of the buffered chunks, one
    after the other, typed [audio/wav]. *)
Lemma wav_stopRecording_encodes (s : session) :
  isRecording s = true -> audioDataRef s <> [] ->
  exists wav : list Z,
    encodeWAV (concat (audioDataRef s)) 44100 = Some wav /\
    snd (stopRecording s) = [] /\
    isRecording (fst (stopRecording s)) = false /\
    audioBlob (fst (stopRecording s)) = Some (mkBlob wav "audio/wav") /\
    audioUrl (fst (stopRecording s)) = Some (nextUrl s) /\
    holds_device (fst (stopRecording s)) = false /\
    timerRef (fst (stopRecording s)) = option_map clearInterval (timerRef s).
Proof.
  intros Hrec Hdata. unfold stopRecording. rewrite Hrec. wav_fields.
  destruct (audioDataRef s) as [| chunk rest] eqn:E; [contradiction |].
  rewrite gather_concat.
  destruct (encodeWAV_fields (concat (chunk :: rest))) as (wav & Hwav & _).
  rewrite Hwav. exists wav. split; [reflexivity |].
  wav_fields. unfold new_Blob, holds_device. cbn [concat]. rewrite app_nil_r.
  wav_fields. repeat split. now destruct (streamRef s).
Qed.

(** What [stopRecording] does to a recording session that has buffered
    nothing: no artifact is made. *)
Lemma wav_stopRecording_empty (s : session) :
  isRecording s = true -> audioDataRef s = [] ->
  snd (stopRecording s) = [] /\
  isRecording (fst (stopRecording s)) = false /\
  audioBlob (fst (stopRecording s)) = audioBlob s /\
  audioUrl (fst (stopRecording s)) = audioUrl s /\
  holds_device (fst (stopRecording s)) = false /\
  timerRef (fst (stopRecording s)) = option_map clearInterval (timerRef s).
Proof.
  intros Hrec Hdata. unfold stopRecording. rewrite Hrec. wav_fields.
  rewrite Hdata. unfold holds_device. wav_fields.
  repeat split. now destruct (streamRef s).
Qed.

Lemma wav_stopRecording_idle (s : session) :
  isRecording s = false -> stopRecording s = (s, []).
Proof. intros H. unfold stopRecording. now rewrite H. Qed.

(** An event leaves the artifact and its reference alone, unless it is a
    stop of a recording that has buffered samples, which makes both. *)
Lemma wav_step_artifact (e : event) (s : session) :
  (audioBlob (fst (step e s)) = audioBlob s /\
   audioUrl (fst (step e s)) = audioUrl s) \/
  (e = StopRecording /\ isRecording s = true /\ audioDataRef s <> [] /\
   exists wav : list Z,
     encodeWAV (concat (audioDataRef s)) 44100 = Some wav /\
     audioBlob (fst (step e s)) = Some (mkBlob wav "audio/wav") /\
     audioUrl (fst (step e s)) = Some (nextUrl s)).
Proof.
  destruct (wav_commit_keeps s (fst (match e with
    | StartRecording device => startRecording device s
    | AudioProcess inputData =>
        (if capturing s then onaudioprocess inputData s else s, [])
    | Tick => (if ticking s then ontick s else s, [])
    | StopRecording => stopRecording s
    | TogglePlayback => (togglePlayback s, [])
    | Ended =>
        (match audioRef s with
         | Some a => if paused a then s else onended s
         | None => s
         end, [])
    | DownloadAudio iso => (s, downloadAudio iso s)
    end))) as (_ & Hb & Hu & _).
  unfold step.
  destruct e as [device | inputData | | | | | iso]; cbn [fst] in *.
  - left. destruct (startRecording device s) as [s' fx] eqn:E. cbn [fst] in *.
    rewrite Hb, Hu. unfold startRecording in E.
    destruct device; injection E as <- _; wav_fields; split; reflexivity.
  - left. rewrite Hb, Hu. unfold onaudioprocess.
    destruct (capturing s); wav_fields; split; reflexivity.
  - left. rewrite Hb, Hu. unfold ontick.
    destruct (ticking s); wav_fields; split; reflexivity.
  - destruct (stopRecording s) as [s' fx] eqn:E. cbn [fst] in *.
    rewrite Hb, Hu.
    destruct (isRecording s) eqn:Hrec.
    + destruct (audioDataRef s) as [| chunk rest] eqn:Hdata.
      * left. destruct (wav_stopRecording_empty s Hrec Hdata) as (_ & _ & H1 & H2 & _).
        rewrite E in H1, H2. cbn [fst] in *. now split.
      * right. assert (Hne : audioDataRef s <> []) by (rewrite Hdata; discriminate).
        destruct (wav_stopRecording_encodes s Hrec Hne)
          as (wav & Hwav & _ & _ & H1 & H2 & _).
        rewrite E in H1, H2. cbn [fst] in *. rewrite Hdata in Hwav.
        repeat split; try (intros; discriminate). now exists wav.
    + left. rewrite (wav_stopRecording_idle s Hrec) in E.
      injection E as <- _. split; reflexivity.
  - left. rewrite Hb, Hu. unfold togglePlayback.
    destruct (audioRef s), (audioUrl s) eqn:Eu, (isPlaying s); wav_fields;
      rewrite ?Eu; split; reflexivity.
  - left. rewrite Hb, Hu. unfold onended.
    destruct (audioRef s) as [a |]; [destruct (paused a) |]; wav_fields;
      split; reflexivity.
  - left. rewrite Hb, Hu. split; reflexivity.
Qed.

(** The artifact and its playback reference are defined together. *)
Lemma wav_reachable_paired (s : session) :
  reachable s -> (audioBlob s = None <-> audioUrl s = None).
Proof.
  intros [es ->]. unfold run.
  assert (H0 : audioBlob init = None <-> audioUrl init = None) by (split; reflexivity).
  revert H0. generalize init as s.
  induction es as [| e es IH]; intros s Hs; cbn [fold_left]; [exact Hs |].
  apply IH.
  destruct (wav_step_artifact e s) as [[Hb Hu] | (_ & _ & _ & wav & _ & Hb & Hu)];
    rewrite Hb, Hu; [exact Hs |].
  split; discriminate.
Qed.

(** Every artifact of this variant is declared [audio/wav]. *)
Lemma wav_reachable_typed (s : session) (b : Blob) :
  reachable s -> audioBlob s = Some b -> blob_type b = "audio/wav"%string.
Proof.
  intros [es ->]. unfold run.
  assert (H0 : forall b, audioBlob init = Some b -> blob_type b = "audio/wav"%string)
    by discriminate.
  revert b. revert H0. generalize init as s.
  induction es as [| e es IH]; intros s Hs; cbn [fold_left]; [exact Hs |].
  apply IH.
  destruct (wav_step_artifact e s) as [[Hb Hu] | (_ & _ & _ & wav & _ & Hb & Hu)];
    rewrite Hb; [exact Hs |].
  intros b [= <-]. reflexivity.
Qed.

End WavRecorderFacts.

(** ** The recorder built on [MediaRecorder]: facts *)

Section RecorderFacts.

Import Runtime Recorder.

Lemma rec_same_url_refl (a : option url) : same_url a a = true.
Proof. destruct a; simpl; [apply Nat.eqb_refl | reflexivity]. Qed.

Lemma rec_commit_same (before s : session) :
  audioUrl before = audioUrl s -> commit before s = s.
Proof.
  intros H. unfold commit. now rewrite H, rec_same_url_refl.
Qed.

(** The render leaves these as the handler set them. *)
Lemma rec_commit_keeps (before s : session) :
  isRecording (commit before s) = isRecording s /\
  audioBlob (commit before s) = audioBlob s /\
  audioUrl (commit before s) = audioUrl s /\
  recordingTime (commit before s) = recordingTime s /\
  chunksRef (commit before s) = chunksRef s /\
  mediaRecorderRef (commit before s) = mediaRecorderRef s /\
  transcriptError (commit before s) = transcriptError s /\
  isPlaying (commit before s) = isPlaying s.
Proof.
  unfold commit, cleanup.
  destruct (same_url (audioUrl before) (audioUrl s)); [repeat split |].
  destruct (audioUrl before); rec_fields; repeat split.
Qed.

Lemma rec_stopRecording_idle (s : session) :
  isRecording s = false -> stopRecording s = (s, []).
Proof.
  intros H. unfold stopRecording. rewrite H.
  now destruct (mediaRecorderRef s).
Qed.

(** The data callback keeps the non-empty chunks, in arrival order. *)
Lemma ondataavailable_all (ds : list Blob) : forall s : session,
  chunksRef (fold_left (fun s d => ondataavailable d s) ds s) =
  chunksRef s ++ filter (fun d => (0 <? size d)%nat) ds.
Proof.
  induction ds as [| d ds IH]; intros s; cbn [fold_left filter].
  - now rewrite app_nil_r.
  - rewrite IH. unfold ondataavailable.
    destruct (0 <? size d)%nat; rec_fields; [| reflexivity].
    now rewrite <- app_assoc.
Qed.

(** The bytes of the kept chunks are the bytes of all the chunks. *)
Lemma nonempty_bytes (ds : list Blob) :
  concat (map blob_bytes (filter (fun d => (0 <? size d)%nat) ds)) =
  concat (map blob_bytes ds).
Proof.
  induction ds as [| d ds IH]; [reflexivity |].
  cbn [filter map concat]. destruct (0 <? size d)%nat eqn:E.
  - cbn [map concat]. now rewrite IH.
  - apply Nat.ltb_ge in E. unfold size in E.
    destruct (blob_bytes d); [now rewrite IH | simpl in E; lia].
Qed.

Lemma length_concat_bytes (ds : list Blob) :
  length (concat (map blob_bytes ds)) = list_sum (map size ds).
Proof.
  induction ds as [| d ds IH]; [reflexivity |].
  cbn [map concat list_sum]. now rewrite length_app, IH.
Qed.

Lemma ondataavailable_fold (ds : list Blob) : forall s : session,
  fold_left (fun s d => ondataavailable d s) ds s =
  set_chunksRef (chunksRef s ++ filter (fun d => (0 <? size d)%nat) ds) s.
Proof.
  induction ds as [| d ds IH]; intros s; cbn [fold_left filter].
  - rewrite app_nil_r. now destruct s.
  - rewrite IH. unfold ondataavailable.
    destruct (0 <? size d)%nat; rec_fields; [| reflexivity].
    now rewrite <- app_assoc.
Qed.

(** While the recorder captures, a data event is the data callback. *)
Lemma rec_step_data (d : Blob) (s : session) (type : string) :
  mediaRecorderRef s = Some (mkRecorder Capturing type) ->
  fst (step (DataAvailable d) s) = ondataavailable d s.
Proof.
  intros H. unfold step. rewrite H. cbn [fst].
  apply rec_commit_same. unfold ondataavailable.
  destruct (0 <? size d)%nat; reflexivity.
Qed.

Lemma rec_run_data (ds : list Blob) : forall (s : session) (type : string),
  mediaRecorderRef s = Some (mkRecorder Capturing type) ->
  run (map DataAvailable ds) s =
  set_chunksRef (chunksRef s ++ filter (fun d => (0 <? size d)%nat) ds) s.
Proof.
  intros s type H. rewrite <- ondataavailable_fold. revert s H.
  induction ds as [| d ds IH]; intros s H; [reflexivity |].
  unfold run in *. cbn [map fold_left].
  rewrite (rec_step_data d s type H). apply IH.
  unfold ondataavailable. destruct (0 <? size d)%nat; rec_fields; exact H.
Qed.

Lemma rec_run_app (es fs : list event) (s : session) :
  run (es ++ fs) s = run fs (run es s).
Proof. unfold run. apply fold_left_app. Qed.

(** A start the device grants, on a runtime that can encode the type
    chosen. *)
Lemma rec_step_start (isTypeSupported : string -> bool) (now : Z) (s : session) :
  isTypeSupported (getSupportedMimeType isTypeSupported) = true ->
  fst (step (StartRecording Granted isTypeSupported now) s) =
  set_timerRef (Some (mkInterval true))
    (set_startTimeRef (Some now)
       (set_recordingTime 0
          (set_isRecording true
             (set_chunksRef []
                (set_mediaRecorderRef
                   (Some (mkRecorder Capturing (getSupportedMimeType isTypeSupported)))
                   (set_streamRef (Some (mkStream true)) s)))))).
Proof.
  intros H. unfold step, startRecording. rewrite H. cbn [fst].
  apply rec_commit_same. reflexivity.
Qed.

(** A stop while the recorder captures. *)
Lemma rec_step_stop (s : session) (type : string) :
  isRecording s = true ->
  mediaRecorderRef s = Some (mkRecorder Capturing type) ->
  step StopRecording s =
  (set_timerRef (option_map clearInterval (timerRef s))
     (set_isRecording false
        (set_mediaRecorderRef (Some (mkRecorder Stopping type)) s)), []).
Proof.
  intros Hrec Href. unfold step, stopRecording. rewrite Href, Hrec.
  cbn [state mimeType]. f_equal. apply rec_commit_same. reflexivity.
Qed.

(** The closing events of a stopped recorder: the last chunk is taken like
    any other, then the finalize callback makes the artifact from the
    chunks kept, whatever their number. *)
Lemma rec_step_stopped (final : Blob) (s : session) (type : string) :
  mediaRecorderRef s = Some (mkRecorder Stopping type) ->
  let s' := fst (step (RecorderStopped final) s) in
  chunksRef s' = chunksRef s ++ filter (fun d => (0 <? size d)%nat) [final] /\
  audioBlob s' = Some (new_Blob (map blob_bytes (chunksRef s')) type) /\
  audioUrl s' = Some (nextUrl s) /\
  isRecording s' = isRecording s /\
  mediaRecorderRef s' = Some (mkRecorder Inactive type).
Proof.
  intros Href s'. subst s'. unfold step. rewrite Href. cbn [fst].
  destruct (rec_commit_keeps s
    (onstop type (ondataavailable final
       (set_mediaRecorderRef (Some (mkRecorder Inactive type)) s))))
    as (Hr & Hb & Hu & _ & Hc & Hm & _).
  rewrite Hr, Hb, Hu, Hc, Hm. clear Hr Hb Hu Hc Hm.
  unfold onstop, ondataavailable. cbn [filter].
  destruct (0 <? size final)%nat; rec_fields; rewrite ?app_nil_r;
    repeat split.
Qed.

(** A recording from start to the recorder's closing events: [ds] are the
    chunks delivered while capturing, [final] the one delivered on stop. *)
Lemma rec_recording (isTypeSupported : string -> bool) (now : Z)
  (ds : list Blob) (final : Blob) (s : session) :
  isTypeSupported (getSupportedMimeType isTypeSupported) = true ->
  let type := getSupportedMimeType isTypeSupported in
  let recording :=
    run (StartRecording Granted isTypeSupported now :: map DataAvailable ds) s in
  let finished := run [StopRecording; RecorderStopped final] recording in
  isRecording recording = true /\
  chunksRef recording = filter (fun d => (0 <? size d)%nat) ds /\
  audioBlob recording = audioBlob s /\
  isRecording finished = false /\
  chunksRef finished = filter (fun d => (0 <? size d)%nat) (ds ++ [final]) /\
  audioBlob finished = Some (new_Blob (map blob_bytes (chunksRef finished)) type) /\
  audioUrl finished = Some (nextUrl s).
Proof.
  intros Hsup type recording finished.
  assert (Hrec : recording =
    set_chunksRef (filter (fun d => (0 <? size d)%nat) ds)
      (fst (step (StartRecording Granted isTypeSupported now) s))).
  { subst recording. change (run (?e :: ?es) s) with (run es (fst (step e s))).
    rewrite (rec_run_data ds _ type).
    - rewrite (rec_step_start _ _ _ Hsup). reflexivity.
    - rewrite (rec_step_start _ _ _ Hsup). reflexivity. }
  rewrite (rec_step_start _ _ _ Hsup) in Hrec.
  assert (H1 : isRecording recording = true) by (rewrite Hrec; reflexivity).
  assert (H2 : mediaRecorderRef recording = Some (mkRecorder Capturing type))
    by (rewrite Hrec; reflexivity).
  assert (H3 : chunksRef recording = filter (fun d => (0 <? size d)%nat) ds)
    by (rewrite Hrec; reflexivity).
  assert (H4 : audioBlob recording = audioBlob s) by (rewrite Hrec; reflexivity).
  assert (H5 : nextUrl recording = nextUrl s) by (rewrite Hrec; reflexivity).
  subst finished. unfold run. cbn [fold_left].
  rewrite (rec_step_stop recording type H1 H2). cbn [fst].
  match goal with |- context [step (RecorderStopped final) ?t] =>
    destruct (rec_step_stopped final t type eq_refl) as (Hc & Hb & Hu & Hr & _)
  end.
  rewrite Hb, Hu, Hr, Hc. rec_fields.
  rewrite H3, H5, filter_app. repeat split; assumption.
Qed.

End RecorderFacts.

(** ** The recorder built on [MediaRecorder]: claims *)

Section RecorderClaims.

Import Runtime Recorder.

(** C3.  During a recording the data callback keeps exactly the non-empty
    chunks delivered, in arrival order; after stop() and the recorder's
    closing events the artifact is the concatenation of the chunks kept,
    so its byte length is the sum of the sizes of the chunks delivered,
    and the session is Stopped.  In particular three chunks of 10, 20 and
    15 bytes give an artifact of 45 bytes. *)
Theorem recording_concatenates_chunks :
  (forall (isTypeSupported : string -> bool) (now : Z) (ds : list Blob)
          (final : Blob) (s : session),
     isTypeSupported (getSupportedMimeType isTypeSupported) = true ->
     let recording :=
       run (StartRecording Granted isTypeSupported now :: map DataAvailable ds) s in
     let finished := run [StopRecording; RecorderStopped final] recording in
     state_of recording = Recording /\
     chunksRef recording = filter (fun d => (0 <? size d)%nat) ds /\
     state_of finished = Stopped /\
     chunksRef finished = filter (fun d => (0 <? size d)%nat) (ds ++ [final]) /\
     exists artifact : Blob,
       audioBlob finished = Some artifact /\
       blob_bytes artifact = concat (map blob_bytes (chunksRef finished)) /\
       blob_type artifact = getSupportedMimeType isTypeSupported /\
       size artifact = list_sum (map size (ds ++ [final]))) /\
  (forall (isTypeSupported : string -> bool) (now : Z) (d1 d2 d3 final : Blob)
          (s : session),
     isTypeSupported (getSupportedMimeType isTypeSupported) = true ->
     size d1 = 10%nat -> size d2 = 20%nat -> size d3 = 15%nat ->
     size final = 0%nat ->
     let finished :=
       run [StartRecording Granted isTypeSupported now;
            DataAvailable d1; DataAvailable d2; DataAvailable d3;
            StopRecording; RecorderStopped final] s in
     state_of finished = Stopped /\
     exists artifact : Blob,
       audioBlob finished = Some artifact /\ size artifact = 45%nat).
Proof.
  assert (General : forall (isTypeSupported : string -> bool) (now : Z)
          (ds : list Blob) (final : Blob) (s : session),
     isTypeSupported (getSupportedMimeType isTypeSupported) = true ->
     let recording :=
       run (StartRecording Granted isTypeSupported now :: map DataAvailable ds) s in
     let finished := run [StopRecording; RecorderStopped final] recording in
     state_of recording = Recording /\
     chunksRef recording = filter (fun d => (0 <? size d)%nat) ds /\
     state_of finished = Stopped /\
     chunksRef finished = filter (fun d => (0 <? size d)%nat) (ds ++ [final]) /\
     exists artifact : Blob,
       audioBlob finished = Some artifact /\
       blob_bytes artifact = concat (map blob_bytes (chunksRef finished)) /\
       blob_type artifact = getSupportedMimeType isTypeSupported /\
       size artifact = list_sum (map size (ds ++ [final]))).
  { intros sup now ds final s Hsup recording finished.
    destruct (rec_recording sup now ds final s Hsup)
      as (Hrec & Hchunks & _ & Hstop & Hkept & Hblob & Hurl).
    cbv zeta in Hrec, Hchunks, Hstop, Hkept, Hblob, Hurl.
    subst finished recording. unfold state_of. rewrite Hrec, Hstop, Hurl.
    repeat split; try assumption.
    eexists. split; [exact Hblob |]. cbn [new_Blob blob_bytes blob_type].
    repeat split.
    unfold size at 1. cbn [new_Blob blob_bytes].
    rewrite Hkept, nonempty_bytes. apply length_concat_bytes. }
  split; [exact General |].
  intros sup now d1 d2 d3 final s Hsup H1 H2 H3 H0 finished.
  subst finished.
  change [StartRecording Granted sup now;
          DataAvailable d1; DataAvailable d2; DataAvailable d3;
          StopRecording; RecorderStopped final]
    with ((StartRecording Granted sup now :: map DataAvailable [d1; d2; d3]) ++
          [StopRecording; RecorderStopped final]).
  rewrite rec_run_app.
  destruct (General sup now [d1; d2; d3] final s Hsup)
    as (_ & _ & Hstate & _ & artifact & Hblob & _ & _ & Hsize).
  split; [exact Hstate |].
  exists artifact. split; [exact Hblob |].
  rewrite Hsize. cbn [map app list_sum]. rewrite H1, H2, H3, H0. reflexivity.
Qed.

Lemma recording_concatenates_chunks_witness :
  (let recording :=
     run (StartRecording Granted (fun _ => true) 0 ::
          map DataAvailable [mkBlob [1; 2] "audio/mp4"; mkBlob [] "audio/mp4"]) init in
   let finished :=
     run [StopRecording; RecorderStopped (mkBlob [3] "audio/mp4")] recording in
   state_of recording = Recording /\
   chunksRef recording =
     filter (fun d => (0 <? size d)%nat)
       [mkBlob [1; 2] "audio/mp4"; mkBlob [] "audio/mp4"] /\
   state_of finished = Stopped /\
   chunksRef finished =
     filter (fun d => (0 <? size d)%nat)
       ([mkBlob [1; 2] "audio/mp4"; mkBlob [] "audio/mp4"] ++
        [mkBlob [3] "audio/mp4"]) /\
   exists artifact : Blob,
     audioBlob finished = Some artifact /\
     blob_bytes artifact = concat (map blob_bytes (chunksRef finished)) /\
     blob_type artifact = getSupportedMimeType (fun _ => true) /\
     size artifact =
       list_sum (map size ([mkBlob [1; 2] "audio/mp4"; mkBlob [] "audio/mp4"] ++
                           [mkBlob [3] "audio/mp4"]))) /\
  (let finished :=
     run [StartRecording Granted (fun _ => true) 0;
          DataAvailable (mkBlob (repeat 1 10) "audio/mp4");
          DataAvailable (mkBlob (repeat 2 20) "audio/mp4");
          DataAvailable (mkBlob (repeat 3 15) "audio/mp4");
          StopRecording; RecorderStopped (mkBlob [] "audio/mp4")] init in
   state_of finished = Stopped /\
   exists artifact : Blob,
     audioBlob finished = Some artifact /\ size artifact = 45%nat).
Proof.
  split.
  - apply (proj1 recording_concatenates_chunks (fun _ => true) 0
             [mkBlob [1; 2] "audio/mp4"; mkBlob [] "audio/mp4"]
             (mkBlob [3] "audio/mp4") init).
    reflexivity.
  - apply (proj2 recording_concatenates_chunks (fun _ => true) 0
             (mkBlob (repeat 1 10) "audio/mp4") (mkBlob (repeat 2 20) "audio/mp4")
             (mkBlob (repeat 3 15) "audio/mp4") (mkBlob [] "audio/mp4") init);
      reflexivity.
Defined.

End RecorderClaims.

(** ** Both recorders: start and stop *)

Section StartStopClaims.

Import Runtime.

Lemma not_recording_flag_rec (s : Recorder.session) :
  Recorder.state_of s = Idle \/ Recorder.state_of s = Stopped ->
  Recorder.isRecording s = false.
Proof.
  unfold Recorder.state_of. destruct (Recorder.isRecording s); [| reflexivity].
  intros [H | H]; discriminate H.
Qed.

Lemma not_recording_flag_wav (s : WavRecorder.session) :
  WavRecorder.state_of s = Idle \/ WavRecorder.state_of s = Stopped ->
  WavRecorder.isRecording s = false.
Proof.
  unfold WavRecorder.state_of. destruct (WavRecorder.isRecording s); [| reflexivity].
  intros [H | H]; discriminate H.
Qed.

(** C6.  When [getUserMedia] refuses the device (permission denied, no
    device, constraints that cannot be met), [startRecording] of either
    recorder asks once, reports the failure (a console error and a blocking
    alert) and leaves the session exactly as it was: a session that was
    Idle with no timer running and no device held is still so. *)
Theorem denied_start_changes_nothing (reason : string) :
  (forall (isTypeSupported : string -> bool) (now : Z) (s : Recorder.session),
     Recorder.step
       (Recorder.StartRecording (Denied reason) isTypeSupported now) s =
     (s, [GetUserMedia true true 44100;
          ConsoleError "Error accessing microphone:";
          Alert "Unable to access microphone. Please check permissions."])) /\
  (forall s : WavRecorder.session,
     WavRecorder.step (WavRecorder.StartRecording (Denied reason)) s =
     (s, [GetUserMedia true true 44100;
          ConsoleError "Error accessing microphone:";
          Alert "Unable to access microphone. Please check permissions."])) /\
  (forall (isTypeSupported : string -> bool) (now : Z) (s : Recorder.session),
     Recorder.state_of s = Idle ->
     Recorder.ticking s = false ->
     Recorder.holds_device s = false ->
     let s' := fst (Recorder.step
                      (Recorder.StartRecording (Denied reason) isTypeSupported now) s) in
     Recorder.state_of s' = Idle /\
     Recorder.ticking s' = false /\
     Recorder.holds_device s' = false) /\
  (forall s : WavRecorder.session,
     WavRecorder.state_of s = Idle ->
     WavRecorder.ticking s = false ->
     WavRecorder.holds_device s = false ->
     let s' := fst (WavRecorder.step (WavRecorder.StartRecording (Denied reason)) s) in
     WavRecorder.state_of s' = Idle /\
     WavRecorder.ticking s' = false /\
     WavRecorder.holds_device s' = false).
Proof.
  assert (Hrec : forall (isTypeSupported : string -> bool) (now : Z)
                        (s : Recorder.session),
     Recorder.step
       (Recorder.StartRecording (Denied reason) isTypeSupported now) s =
     (s, [GetUserMedia true true 44100;
          ConsoleError "Error accessing microphone:";
          Alert "Unable to access microphone. Please check permissions."])).
  { intros sup now s. unfold Recorder.step, Recorder.startRecording.
    now rewrite rec_commit_same. }
  assert (Hwav : forall s : WavRecorder.session,
     WavRecorder.step (WavRecorder.StartRecording (Denied reason)) s =
     (s, [GetUserMedia true true 44100;
          ConsoleError "Error accessing microphone:";
          Alert "Unable to access microphone. Please check permissions."])).
  { intros s. unfold WavRecorder.step, WavRecorder.startRecording.
    now rewrite wav_commit_same. }
  repeat split; try apply Hrec; try apply Hwav;
    rewrite ?Hrec, ?Hwav; assumption.
Qed.

Lemma denied_start_changes_nothing_witness :
  (let s' := fst (Recorder.step
                    (Recorder.StartRecording (Denied "NotAllowedError")
                       (fun _ => true) 0) Recorder.init) in
   Recorder.state_of s' = Idle /\
   Recorder.ticking s' = false /\
   Recorder.holds_device s' = false) /\
  (let s' := fst (WavRecorder.step
                    (WavRecorder.StartRecording (Denied "NotAllowedError"))
                    WavRecorder.init) in
   WavRecorder.state_of s' = Idle /\
   WavRecorder.ticking s' = false /\
   WavRecorder.holds_device s' = false).
Proof.
  split.
  - apply (proj1 (proj2 (proj2 (denied_start_changes_nothing "NotAllowedError")))
             (fun _ => true) 0 Recorder.init); reflexivity.
  - apply (proj2 (proj2 (proj2 (denied_start_changes_nothing "NotAllowedError")))
             WavRecorder.init); reflexivity.
Defined.

(** C7.  [stopRecording] of either recorder, called while the session is
    Idle or Stopped, leaves every field of the session as it was and
    raises nothing. *)
Theorem stop_when_not_recording_is_noop :
  (forall s : Recorder.session,
     Recorder.state_of s = Idle \/ Recorder.state_of s = Stopped ->
     Recorder.stopRecording s = (s, []) /\
     Recorder.step Recorder.StopRecording s = (s, [])) /\
  (forall s : WavRecorder.session,
     WavRecorder.state_of s = Idle \/ WavRecorder.state_of s = Stopped ->
     WavRecorder.stopRecording s = (s, []) /\
     WavRecorder.step WavRecorder.StopRecording s = (s, [])).
Proof.
  split.
  - intros s Hs. apply not_recording_flag_rec in Hs.
    unfold Recorder.step. rewrite (rec_stopRecording_idle s Hs).
    now rewrite rec_commit_same.
  - intros s Hs. apply not_recording_flag_wav in Hs.
    unfold WavRecorder.step. rewrite (wav_stopRecording_idle s Hs).
    now rewrite wav_commit_same.
Qed.

Lemma stop_when_not_recording_is_noop_witness :
  Recorder.step Recorder.StopRecording Recorder.init = (Recorder.init, []) /\
  Recorder.step Recorder.StopRecording Examples.rec_stopped =
    (Examples.rec_stopped, []) /\
  WavRecorder.step WavRecorder.StopRecording WavRecorder.init =
    (WavRecorder.init, []) /\
  WavRecorder.step WavRecorder.StopRecording Examples.wav_stopped =
    (Examples.wav_stopped, []).
Proof.
  split; [| split; [| split]].
  - apply (proj1 stop_when_not_recording_is_noop Recorder.init).
    left. reflexivity.
  - apply (proj1 stop_when_not_recording_is_noop Examples.rec_stopped).
    right. vm_compute. reflexivity.
  - apply (proj2 stop_when_not_recording_is_noop WavRecorder.init).
    left. reflexivity.
  - apply (proj2 stop_when_not_recording_is_noop Examples.wav_stopped).
    right. vm_compute. reflexivity.
Defined.

End StartStopClaims.

(** ** Download *)

Section DownloadClaims.

Import Runtime.

Example includes_examples :
  includes "audio/webm; codecs=opus" "webm" = true /\
  includes "audio/webm; codecs=opus" "mp4" = false /\
  includes "audio/wav" "wav" = true /\
  includes "audio/wav" EmptyString = true /\
  includes EmptyString "wav" = false.
Proof. repeat split. Qed.

Example download_name_example :
  download_name "2024-01-02T03:04:05.678Z" (extension_of "audio/ogg; codecs=opus") =
  "recording-2024-01-02T03-04-05.ogg"%string.
Proof. reflexivity. Qed.

(** The type [getSupportedMimeType] chooses is one of its candidates or
    its fallback. *)
Lemma getSupportedMimeType_cases (isTypeSupported : string -> bool) :
  In (Recorder.getSupportedMimeType isTypeSupported)
     ("audio/webm"%string :: Recorder.types).
Proof.
  unfold Recorder.getSupportedMimeType.
  destruct (find isTypeSupported Recorder.types) as [type |] eqn:E.
  - right. now apply find_some in E.
  - left. reflexivity.
Qed.

(** Every recorder of the session was made with such a type, and so was
    every artifact. *)
Lemma rec_step_typed (e : Recorder.event) (s : Recorder.session) :
  let declared (s : Recorder.session) :=
    (forall r, Recorder.mediaRecorderRef s = Some r ->
       In (Recorder.mimeType r) ("audio/webm"%string :: Recorder.types)) /\
    (forall b, Recorder.audioBlob s = Some b ->
       In (blob_type b) ("audio/webm"%string :: Recorder.types)) in
  declared s -> declared (fst (Recorder.step e s)).
Proof.
  intros declared [Href Hblob]. subst declared. cbv beta. unfold Recorder.step.
  destruct e as [device sup now | d | d | now | | | | iso | answer |];
    cbn [fst].
  - destruct (Recorder.startRecording device sup now s) as [s' fx] eqn:E.
    cbn [fst].
    destruct (rec_commit_keeps s s') as (_ & -> & _ & _ & _ & -> & _).
    unfold Recorder.startRecording in E.
    destruct device; [| injection E as <- _; split; assumption].
    destruct (sup (Recorder.getSupportedMimeType sup));
      injection E as <- _; rec_fields; split; try assumption.
    intros r [= <-]. exact (getSupportedMimeType_cases sup).
  - match goal with |- context [Recorder.commit s ?t] =>
      destruct (rec_commit_keeps s t) as (_ & -> & _ & _ & _ & -> & _) end.
    destruct (Recorder.mediaRecorderRef s) as [[[] type] |] eqn:Er;
      rewrite <- ?Er; rewrite <- ?Er in Href; try (split; assumption).
    unfold Recorder.ondataavailable.
    destruct (0 <? size d)%nat; rec_fields; split; assumption.
  - match goal with |- context [Recorder.commit s ?t] =>
      destruct (rec_commit_keeps s t) as (_ & -> & _ & _ & _ & -> & _) end.
    destruct (Recorder.mediaRecorderRef s) as [[[] type] |] eqn:Er;
      rewrite <- ?Er; rewrite <- ?Er in Href; try (split; assumption).
    assert (Htype : In type ("audio/webm"%string :: Recorder.types))
      by (apply (Href _ Er)).
    unfold Recorder.onstop, Recorder.ondataavailable.
    destruct (0 <? size d)%nat; rec_fields;
      (split; [intros r [= <-] | intros b [= <-]]; exact Htype).
  - match goal with |- context [Recorder.commit s ?t] =>
      destruct (rec_commit_keeps s t) as (_ & -> & _ & _ & _ & -> & _) end.
    unfold Recorder.ontick.
    destruct (Recorder.ticking s); [| split; assumption].
    destruct (Recorder.startTimeRef s) as [start |]; [| split; assumption].
    destruct (start =? 0); rec_fields; split; assumption.
  - destruct (Recorder.stopRecording s) as [s' fx] eqn:E. cbn [fst].
    destruct (rec_commit_keeps s s') as (_ & -> & _ & _ & _ & -> & _).
    unfold Recorder.stopRecording in E.
    destruct (Recorder.mediaRecorderRef s) as [[[] type] |] eqn:Er;
      rewrite <- ?Er in Href;
      destruct (Recorder.isRecording s);
      injection E as <- _; rec_fields; split; try assumption.
    intros r [= <-]. apply (Href _ Er).
  - match goal with |- context [Recorder.commit s ?t] =>
      destruct (rec_commit_keeps s t) as (_ & -> & _ & _ & _ & -> & _) end.
    unfold Recorder.togglePlayback.
    destruct (Recorder.audioRef s), (Recorder.audioUrl s),
      (Recorder.isPlaying s); rec_fields; split; assumption.
  - match goal with |- context [Recorder.commit s ?t] =>
      destruct (rec_commit_keeps s t) as (_ & -> & _ & _ & _ & -> & _) end.
    destruct (Recorder.audioRef s) as [a |]; [destruct (paused a) |];
      unfold Recorder.onended; rec_fields; split; assumption.
  - match goal with |- context [Recorder.commit s ?t] =>
      destruct (rec_commit_keeps s t) as (_ & -> & _ & _ & _ & -> & _) end.
    split; assumption.
  - destruct (Recorder.transcribeAudio answer s) as [s' fx] eqn:E. cbn [fst].
    destruct (rec_commit_keeps s s') as (_ & -> & _ & _ & _ & -> & _).
    unfold Recorder.transcribeAudio in E.
    destruct (Recorder.audioBlob s) as [blob |] eqn:Hb;
      [| injection E as <- _; rewrite Hb; split; [assumption | discriminate]].
    destruct (Recorder.transcription answer);
      injection E as <- _; rec_fields; rewrite ?Hb; split; assumption.
  - match goal with |- context [Recorder.commit s ?t] =>
      destruct (rec_commit_keeps s t) as (_ & -> & _ & _ & _ & -> & _) end.
    unfold Recorder.resetRecording. rec_fields. split; [assumption | discriminate].
Qed.

Lemma rec_reachable_typed (s : Recorder.session) (b : Blob) :
  Recorder.reachable s -> Recorder.audioBlob s = Some b ->
  In (blob_type b) ("audio/webm"%string :: Recorder.types).
Proof.
  intros [es ->]. unfold Recorder.run.
  assert (H0 :
    (forall r, Recorder.mediaRecorderRef Recorder.init = Some r ->
       In (Recorder.mimeType r) ("audio/webm"%string :: Recorder.types)) /\
    (forall b, Recorder.audioBlob Recorder.init = Some b ->
       In (blob_type b) ("audio/webm"%string :: Recorder.types)))
    by (split; discriminate).
  revert b. revert H0. generalize Recorder.init as s.
  induction es as [| e es IH]; intros s Hs; cbn [fold_left]; [apply Hs |].
  apply IH. now apply rec_step_typed.
Qed.

(** On the media types the recorders declare, a marker that occurs
    decides the extension, whatever the order of the cases. *)
Lemma declared_types_one_marker (t marker extension : string) :
  In t ("audio/wav"%string :: "audio/webm"%string :: Recorder.types) ->
  In (marker, extension)
     [("mp4", "m4a"); ("webm", "webm"); ("ogg", "ogg"); ("wav", "wav")]%string ->
  includes t marker = true -> extension_of t = extension.
Proof.
  intros Ht Hm.
  cbn [In Recorder.types] in Ht, Hm.
  repeat (destruct Ht as [<- | Ht]; [
    repeat (destruct Hm as [[= <- <-] | Hm]; [vm_compute; congruence |]);
    contradiction |]).
  contradiction.
Qed.

(** C8.  The extension of the download is a function of the artifact's
    declared media type alone: [m4a] when it contains "mp4"; otherwise
    [webm] when it contains "webm"; otherwise [ogg] when it contains
    "ogg"; otherwise [wav] when it contains "wav"; otherwise [mp3].
    [downloadAudio] names the file with it and leaves the session alone.
    The WAV variant writes [.wav] outright, which is the extension of the
    type of every artifact it makes.  The type of an artifact of either
    recorder contains at most one of the four markers, so for every
    artifact each case holds by itself, whatever the order. *)
Theorem download_extension_mapping :
  (forall t : string, includes t "mp4" = true -> extension_of t = "m4a"%string) /\
  (forall t : string,
     includes t "mp4" = false -> includes t "webm" = true ->
     extension_of t = "webm"%string) /\
  (forall t : string,
     includes t "mp4" = false -> includes t "webm" = false ->
     includes t "ogg" = true -> extension_of t = "ogg"%string) /\
  (forall t : string,
     includes t "mp4" = false -> includes t "webm" = false ->
     includes t "ogg" = false -> includes t "wav" = true ->
     extension_of t = "wav"%string) /\
  (forall t : string,
     includes t "mp4" = false -> includes t "webm" = false ->
     includes t "ogg" = false -> includes t "wav" = false ->
     extension_of t = "mp3"%string) /\
  (forall (iso : string) (s : Recorder.session) (blob : Blob) (u : url),
     Recorder.audioBlob s = Some blob -> Recorder.audioUrl s = Some u ->
     Recorder.step (Recorder.DownloadAudio iso) s =
     (s, [SaveFile u (download_name iso (extension_of (blob_type blob)))])) /\
  (forall (iso : string) (s : WavRecorder.session) (blob : Blob) (u : url),
     WavRecorder.reachable s ->
     WavRecorder.audioBlob s = Some blob -> WavRecorder.audioUrl s = Some u ->
     WavRecorder.step (WavRecorder.DownloadAudio iso) s =
     (s, [SaveFile u (download_name iso (extension_of (blob_type blob)))])) /\
  (forall (s : Recorder.session) (blob : Blob) (marker extension : string),
     Recorder.reachable s -> Recorder.audioBlob s = Some blob ->
     In (marker, extension)
        [("mp4", "m4a"); ("webm", "webm"); ("ogg", "ogg"); ("wav", "wav")]%string ->
     includes (blob_type blob) marker = true ->
     extension_of (blob_type blob) = extension) /\
  (forall (s : WavRecorder.session) (blob : Blob) (marker extension : string),
     WavRecorder.reachable s -> WavRecorder.audioBlob s = Some blob ->
     In (marker, extension)
        [("mp4", "m4a"); ("webm", "webm"); ("ogg", "ogg"); ("wav", "wav")]%string ->
     includes (blob_type blob) marker = true ->
     extension_of (blob_type blob) = extension).
Proof.
  split; [intros t H; unfold extension_of; now rewrite H |].
  split; [intros t H1 H2; unfold extension_of; now rewrite H1, H2 |].
  split; [intros t H1 H2 H3; unfold extension_of; now rewrite H1, H2, H3 |].
  split; [intros t H1 H2 H3 H4; unfold extension_of;
          now rewrite H1, H2, H3, H4 |].
  split; [intros t H1 H2 H3 H4; unfold extension_of;
          now rewrite H1, H2, H3, H4 |].
  split.
  { intros iso s blob u Hb Hu. unfold Recorder.step, Recorder.downloadAudio.
    rewrite Hb, Hu, rec_commit_same by reflexivity. reflexivity. }
  split.
  { intros iso s blob u Hs Hb Hu.
    unfold WavRecorder.step, WavRecorder.downloadAudio.
    rewrite Hb, Hu, wav_commit_same by reflexivity.
    rewrite (wav_reachable_typed s blob Hs Hb). reflexivity. }
  split.
  - intros s blob marker extension Hs Hb.
    apply declared_types_one_marker. right.
    exact (rec_reachable_typed s blob Hs Hb).
  - intros s blob marker extension Hs Hb.
    apply declared_types_one_marker. left.
    symmetry. exact (wav_reachable_typed s blob Hs Hb).
Qed.

Lemma download_extension_mapping_witness :
  extension_of "audio/mp4" = "m4a"%string /\
  extension_of "audio/webm; codecs=opus" = "webm"%string /\
  extension_of "audio/ogg" = "ogg"%string /\
  extension_of "audio/wav" = "wav"%string /\
  extension_of "audio/mpeg" = "mp3"%string /\
  Recorder.step (Recorder.DownloadAudio "2024-01-02T03:04:05.678Z") Examples.rec_stopped =
    (Examples.rec_stopped,
     [SaveFile 0%nat (download_name "2024-01-02T03:04:05.678Z"
                        (extension_of
                           (blob_type
                              (mkBlob [1; 2; 3; 4]
                                 (Recorder.getSupportedMimeType (fun _ => true))))))]) /\
  WavRecorder.step (WavRecorder.DownloadAudio "2024-01-02T03:04:05.678Z") Examples.wav_stopped =
    (Examples.wav_stopped,
     [SaveFile 0%nat (download_name "2024-01-02T03:04:05.678Z"
                        (extension_of (blob_type
                           (mkBlob [82; 73; 70; 70; 38; 0; 0; 0; 87; 65; 86; 69;
                                    102; 109; 116; 32; 16; 0; 0; 0; 1; 0; 1; 0;
                                    68; 172; 0; 0; 136; 88; 1; 0; 2; 0; 16; 0;
                                    100; 97; 116; 97; 2; 0; 0; 0; 255; 63]
                              "audio/wav"))))]) /\
  extension_of
    (blob_type (mkBlob [1; 2; 3; 4] (Recorder.getSupportedMimeType (fun _ => true)))) =
    "m4a"%string /\
  extension_of
    (blob_type
       (mkBlob [82; 73; 70; 70; 38; 0; 0; 0; 87; 65; 86; 69;
                102; 109; 116; 32; 16; 0; 0; 0; 1; 0; 1; 0;
                68; 172; 0; 0; 136; 88; 1; 0; 2; 0; 16; 0;
                100; 97; 116; 97; 2; 0; 0; 0; 255; 63] "audio/wav")) = "wav"%string.
Proof.
  pose proof download_extension_mapping
    as (Hmp4 & Hwebm & Hogg & Hwav & Hmp3 & Hrec & Hwavrec & Hanyrec & Hanywav).
  assert (Hr : Recorder.reachable Examples.rec_stopped) by (eexists; reflexivity).
  assert (Hw : WavRecorder.reachable Examples.wav_stopped) by (eexists; reflexivity).
  split; [apply Hmp4; reflexivity |].
  split; [apply Hwebm; reflexivity |].
  split; [apply Hogg; reflexivity |].
  split; [apply Hwav; reflexivity |].
  split; [apply Hmp3; reflexivity |].
  split.
  { apply (Hrec "2024-01-02T03:04:05.678Z"%string Examples.rec_stopped
             (mkBlob [1; 2; 3; 4] (Recorder.getSupportedMimeType (fun _ => true)))
             0%nat); vm_compute; reflexivity. }
  split.
  { apply (Hwavrec "2024-01-02T03:04:05.678Z"%string Examples.wav_stopped
             (mkBlob [82; 73; 70; 70; 38; 0; 0; 0; 87; 65; 86; 69;
                      102; 109; 116; 32; 16; 0; 0; 0; 1; 0; 1; 0;
                      68; 172; 0; 0; 136; 88; 1; 0; 2; 0; 16; 0;
                      100; 97; 116; 97; 2; 0; 0; 0; 255; 63] "audio/wav") 0%nat);
      [exact Hw | vm_compute; reflexivity | vm_compute; reflexivity]. }
  split.
  - apply (Hanyrec Examples.rec_stopped _ "mp4"%string "m4a"%string Hr).
    + vm_compute. reflexivity.
    + left. reflexivity.
    + vm_compute. reflexivity.
  - apply (Hanywav Examples.wav_stopped _ "wav"%string "wav"%string Hw).
    + vm_compute. reflexivity.
    + right; right; right; left. reflexivity.
    + vm_compute. reflexivity.
Defined.

End DownloadClaims.

(** ** Transcription and reset *)

Section TranscribeResetClaims.

Import Runtime Recorder.

Lemma failure_message_detail (detail : string) :
  detail <> EmptyString -> failure_message (Some (JString detail)) = detail.
Proof. destruct detail; [contradiction | reflexivity]. Qed.

(** A submission whose answer makes the [try] block raise. *)
Lemma transcribeAudio_failure (answer : fetch_result) (message : string)
  (s : session) (blob : Blob) :
  audioBlob s = Some blob ->
  transcription answer = inl message ->
  step (TranscribeAudio answer) s =
  (set_isTranscribing false
     (set_transcriptError (Some message)
        (set_transcript None
           (set_transcriptError None (set_isTranscribing true s)))),
   [Fetch "http://localhost:8000/api/transcribe" "POST" "audio_file" blob
      "recording.mp3";
    ConsoleError "Transcription error:"]).
Proof.
  intros Hblob Hanswer. unfold step, transcribeAudio.
  rewrite Hblob, Hanswer. f_equal. apply rec_commit_same. reflexivity.
Qed.

(** Every submission of a session that has an artifact sends that
    artifact. *)
Lemma transcribeAudio_sends (answer : fetch_result) (s : session) (blob : Blob) :
  audioBlob s = Some blob ->
  exists rest : list effect,
    snd (step (TranscribeAudio answer) s) =
    Fetch "http://localhost:8000/api/transcribe" "POST" "audio_file" blob
      "recording.mp3" :: rest.
Proof.
  intros Hblob. unfold step, transcribeAudio. rewrite Hblob.
  destruct (transcription answer); cbn [snd]; eexists; reflexivity.
Qed.

(** C9 (amended).  When a submission of the artifact receives a non-2xx
    response whose JSON body has a non-empty string as [detail] (for
    example status 413 with [detail] "file too large"), the error message
    shown is that string verbatim; the artifact, its reference and the
    state of the session are unchanged, and a further submission sends the
    same artifact.  An empty [detail] is replaced by the message
    "Transcription failed". *)
Theorem failed_transcription_shows_detail :
  (forall (s : session) (blob : Blob) (status : Z)
          (fields : list (string * jsval)) (detail : string),
     audioBlob s = Some blob ->
     ok status = false ->
     property fields "detail" = Some (JString detail) ->
     detail <> EmptyString ->
     let s' := fst (step (TranscribeAudio (Response status (BodyObject fields))) s) in
     transcriptError s' = Some detail /\
     audioBlob s' = Some blob /\
     audioUrl s' = audioUrl s /\
     state_of s' = state_of s /\
     isTranscribing s' = false /\
     forall answer : fetch_result,
     exists rest : list effect,
       snd (step (TranscribeAudio answer) s') =
       Fetch "http://localhost:8000/api/transcribe" "POST" "audio_file" blob
         "recording.mp3" :: rest) /\
  (forall (s : session) (blob : Blob),
     audioBlob s = Some blob ->
     let s' :=
       fst (step (TranscribeAudio
                    (Response 413 (BodyObject [("detail", JString "file too large")]%string)))
              s) in
     transcriptError s' = Some "file too large"%string /\
     audioBlob s' = Some blob) /\
  (forall (s : session) (blob : Blob) (status : Z)
          (fields : list (string * jsval)),
     audioBlob s = Some blob ->
     ok status = false ->
     property fields "detail" = Some (JString EmptyString) ->
     let s' := fst (step (TranscribeAudio (Response status (BodyObject fields))) s) in
     transcriptError s' = Some "Transcription failed"%string /\
     audioBlob s' = Some blob).
Proof.
  assert (General : forall (s : session) (blob : Blob) (status : Z)
          (fields : list (string * jsval)) (detail : string),
     audioBlob s = Some blob ->
     ok status = false ->
     property fields "detail" = Some (JString detail) ->
     detail <> EmptyString ->
     let s' := fst (step (TranscribeAudio (Response status (BodyObject fields))) s) in
     transcriptError s' = Some detail /\
     audioBlob s' = Some blob /\
     audioUrl s' = audioUrl s /\
     state_of s' = state_of s /\
     isTranscribing s' = false /\
     forall answer : fetch_result,
     exists rest : list effect,
       snd (step (TranscribeAudio answer) s') =
       Fetch "http://localhost:8000/api/transcribe" "POST" "audio_file" blob
         "recording.mp3" :: rest).
  { intros s blob status fields detail Hblob Hok Hdetail Hne s'. subst s'.
    rewrite (transcribeAudio_failure _ detail s blob Hblob).
    - cbn [fst]. unfold state_of. rec_fields.
      repeat split; try assumption.
      intros answer. apply transcribeAudio_sends. rec_fields. exact Hblob.
    - cbn [transcription]. rewrite Hok, Hdetail.
      now rewrite failure_message_detail. }
  split; [exact General |].
  split.
  - intros s blob Hblob s'.
    destruct (General s blob 413
                [("detail", JString "file too large")]%string
                "file too large"%string Hblob eq_refl eq_refl)
      as (He & Hb & _); [discriminate |].
    split; assumption.
  - intros s blob status fields Hblob Hok Hdetail s'. subst s'.
    rewrite (transcribeAudio_failure _ "Transcription failed" s blob Hblob).
    + cbn [fst]. rec_fields. split; [reflexivity | exact Hblob].
    + cbn [transcription]. rewrite Hok, Hdetail. reflexivity.
Qed.

Lemma failed_transcription_shows_detail_witness :
  (let s' :=
     fst (step (TranscribeAudio
                  (Response 413 (BodyObject [("detail", JString "file too large")]%string)))
            Examples.rec_stopped) in
   transcriptError s' = Some "file too large"%string /\
   audioBlob s' =
     Some (mkBlob [1; 2; 3; 4] (getSupportedMimeType (fun _ => true))) /\
   audioUrl s' = audioUrl Examples.rec_stopped /\
   state_of s' = state_of Examples.rec_stopped /\
   isTranscribing s' = false /\
   forall answer : fetch_result,
   exists rest : list effect,
     snd (step (TranscribeAudio answer) s') =
     Fetch "http://localhost:8000/api/transcribe" "POST" "audio_file"
       (mkBlob [1; 2; 3; 4] (getSupportedMimeType (fun _ => true)))
       "recording.mp3" :: rest) /\
  (let s' :=
     fst (step (TranscribeAudio
                  (Response 413 (BodyObject [("detail", JString "file too large")]%string)))
            Examples.rec_stopped) in
   transcriptError s' = Some "file too large"%string /\
   audioBlob s' =
     Some (mkBlob [1; 2; 3; 4] (getSupportedMimeType (fun _ => true)))) /\
  (let s' :=
     fst (step (TranscribeAudio
                  (Response 500 (BodyObject [("detail", JString EmptyString)]%string)))
            Examples.rec_stopped) in
   transcriptError s' = Some "Transcription failed"%string /\
   audioBlob s' =
     Some (mkBlob [1; 2; 3; 4] (getSupportedMimeType (fun _ => true)))).
Proof.
  pose proof failed_transcription_shows_detail as (General & Scenario & Fallback).
  split; [| split].
  - apply (General Examples.rec_stopped
             (mkBlob [1; 2; 3; 4] (getSupportedMimeType (fun _ => true)))
             413 [("detail", JString "file too large")]%string
             "file too large"%string).
    + vm_compute. reflexivity.
    + reflexivity.
    + reflexivity.
    + discriminate.
  - apply (Scenario Examples.rec_stopped
             (mkBlob [1; 2; 3; 4] (getSupportedMimeType (fun _ => true)))).
    vm_compute. reflexivity.
  - apply (Fallback Examples.rec_stopped
             (mkBlob [1; 2; 3; 4] (getSupportedMimeType (fun _ => true)))
             500 [("detail", JString EmptyString)]%string).
    + vm_compute. reflexivity.
    + reflexivity.
    + reflexivity.
Defined.

(** C9, as stated, fails when the [detail] of the body is the empty
    string: the message shown is the fallback, not the detail. *)
Lemma empty_detail_is_replaced :
  ok 413 = false /\
  property [("detail", JString EmptyString)]%string "detail" =
    Some (JString EmptyString) /\
  transcriptError
    (fst (step (TranscribeAudio
                  (Response 413 (BodyObject [("detail", JString EmptyString)]%string)))
            Examples.rec_stopped)) = Some "Transcription failed"%string /\
  transcriptError
    (fst (step (TranscribeAudio
                  (Response 413 (BodyObject [("detail", JString EmptyString)]%string)))
            Examples.rec_stopped)) <> Some EmptyString.
Proof.
  split; [reflexivity |]. split; [reflexivity |].
  assert (H : transcriptError
    (fst (step (TranscribeAudio
                  (Response 413 (BodyObject [("detail", JString EmptyString)]%string)))
            Examples.rec_stopped)) = Some "Transcription failed"%string)
    by (vm_compute; reflexivity).
  split; [exact H |]. rewrite H. discriminate.
Qed.

Lemma revoked_not_live (u : url) (live : list url) :
  ~ In u (filter (fun v => negb (Nat.eqb v u)) live).
Proof.
  intros H. apply filter_In in H. destruct H as [_ H].
  now rewrite Nat.eqb_refl in H.
Qed.

(** C5 (amended).  [resetRecording], from any state, pauses and rewinds
    the playback element if there is one, drops the playback reference
    (the render that follows revokes its object URL and removes the
    element), and leaves the session Idle, not playing, without artifact
    and with elapsed time 0.  It leaves the chunk sequence as it is; the
    next start that succeeds empties it. *)
Theorem reset_returns_to_idle (s : session) :
  let s' := fst (step ResetRecording s) in
  snd (step ResetRecording s) = [] /\
  state_of s' = Idle /\
  audioBlob s' = None /\
  audioUrl s' = None /\
  recordingTime s' = 0 /\
  isPlaying s' = false /\
  audioRef (resetRecording s) = option_map (fun _ => mkAudio true 0) (audioRef s) /\
  match audioRef s' with
  | Some a => paused a = true /\ currentTime a = 0
  | None => True
  end /\
  (forall u : url,
     audioUrl s = Some u -> ~ In u (objectUrls s') /\ audioRef s' = None) /\
  chunksRef s' = chunksRef s /\
  (forall (isTypeSupported : string -> bool) (now : Z),
     isTypeSupported (getSupportedMimeType isTypeSupported) = true ->
     chunksRef (fst (step (StartRecording Granted isTypeSupported now) s')) = []).
Proof.
  intros s'. subst s'.
  change (step ResetRecording s) with (commit s (resetRecording s), @nil effect).
  cbn [fst snd].
  assert (Hstart : forall t : session,
     forall (isTypeSupported : string -> bool) (now : Z),
     isTypeSupported (getSupportedMimeType isTypeSupported) = true ->
     chunksRef (fst (step (StartRecording Granted isTypeSupported now) t)) = []).
  { intros t sup now Hsup. rewrite (rec_step_start sup now t Hsup). reflexivity. }
  split; [reflexivity |].
  unfold state_of, commit, cleanup, resetRecording. rec_fields.
  destruct (audioUrl s) as [u |] eqn:Hu; cbn [same_url option_map]; rec_fields.
  - repeat (split; [reflexivity |]).
    split; [| split; [reflexivity | apply Hstart]].
    intros v [= <-]. split; [apply revoked_not_live | reflexivity].
  - repeat (split; [reflexivity |]).
    split; [destruct (audioRef s); cbn [option_map];
            [split; reflexivity | exact I] |].
    split; [intros v Hv; discriminate Hv |].
    split; [reflexivity | apply Hstart].
Qed.

Lemma reset_returns_to_idle_witness :
  (~ In 0%nat (objectUrls (fst (step ResetRecording Examples.rec_stopped))) /\
   audioRef (fst (step ResetRecording Examples.rec_stopped)) = None) /\
  chunksRef
    (fst (step (StartRecording Granted (fun _ => true) 7)
            (fst (step ResetRecording Examples.rec_stopped)))) = [].
Proof.
  pose proof (reset_returns_to_idle Examples.rec_stopped)
    as (_ & _ & _ & _ & _ & _ & _ & _ & Hrevoked & _ & Hstart).
  split.
  - apply (Hrevoked 0%nat). vm_compute. reflexivity.
  - apply (Hstart (fun _ => true) 7). reflexivity.
Defined.

(** C5, as stated, fails on the chunk sequence: after a finished recording
    [resetRecording] leaves the chunks of that recording in place. *)
Lemma reset_keeps_chunks :
  reachable Examples.rec_stopped /\
  state_of Examples.rec_stopped = Stopped /\
  state_of (fst (step ResetRecording Examples.rec_stopped)) = Idle /\
  chunksRef (fst (step ResetRecording Examples.rec_stopped)) =
    [mkBlob [1; 2; 3] "audio/mp4"; mkBlob [4] "audio/mp4"] /\
  chunksRef (fst (step ResetRecording Examples.rec_stopped)) <> [].
Proof.
  split; [eexists; reflexivity |].
  assert (H : chunksRef (fst (step ResetRecording Examples.rec_stopped)) =
              [mkBlob [1; 2; 3] "audio/mp4"; mkBlob [4] "audio/mp4"])
    by (vm_compute; reflexivity).
  repeat split; try (vm_compute; reflexivity).
  rewrite H. discriminate.
Qed.

End TranscribeResetClaims.

(** ** Artifact and state *)

Section ArtifactClaims.

Import Runtime.

(** An event of the [MediaRecorder] variant leaves the artifact and its
    reference alone, sets both, or clears both. *)
Lemma rec_step_artifact (e : Recorder.event) (s : Recorder.session) :
  let s' := fst (Recorder.step e s) in
  (Recorder.audioBlob s' = Recorder.audioBlob s /\
   Recorder.audioUrl s' = Recorder.audioUrl s) \/
  (Recorder.audioBlob s' <> None /\ Recorder.audioUrl s' <> None) \/
  (Recorder.audioBlob s' = None /\ Recorder.audioUrl s' = None).
Proof.
  intros s'. subst s'. unfold Recorder.step.
  destruct e as [device sup now | d | d | now | | | | iso | answer |];
    cbn [fst].
  - left. destruct (Recorder.startRecording device sup now s) as [s' fx] eqn:E.
    cbn [fst]. destruct (rec_commit_keeps s s') as (_ & -> & -> & _).
    unfold Recorder.startRecording in E.
    destruct device; [| injection E as <- _; split; reflexivity].
    destruct (sup (Recorder.getSupportedMimeType sup));
      injection E as <- _; split; reflexivity.
  - left.
    match goal with |- context [Recorder.commit s ?t] =>
      destruct (rec_commit_keeps s t) as (_ & -> & -> & _) end.
    destruct (Recorder.mediaRecorderRef s) as [[[] type] |];
      try (split; reflexivity).
    unfold Recorder.ondataavailable.
    destruct (0 <? size d)%nat; split; reflexivity.
  - match goal with |- context [Recorder.commit s ?t] =>
      destruct (rec_commit_keeps s t) as (_ & -> & -> & _) end.
    destruct (Recorder.mediaRecorderRef s) as [[[] type] |];
      try (left; split; reflexivity).
    right; left. unfold Recorder.onstop, Recorder.ondataavailable.
    destruct (0 <? size d)%nat; split; discriminate.
  - left.
    match goal with |- context [Recorder.commit s ?t] =>
      destruct (rec_commit_keeps s t) as (_ & -> & -> & _) end.
    unfold Recorder.ontick.
    destruct (Recorder.ticking s); [| split; reflexivity].
    destruct (Recorder.startTimeRef s) as [start |]; [| split; reflexivity].
    destruct (start =? 0); split; reflexivity.
  - left. destruct (Recorder.stopRecording s) as [s' fx] eqn:E.
    cbn [fst]. destruct (rec_commit_keeps s s') as (_ & -> & -> & _).
    unfold Recorder.stopRecording in E.
    destruct (Recorder.mediaRecorderRef s) as [[[] type] |];
      destruct (Recorder.isRecording s);
      injection E as <- _; split; reflexivity.
  - left.
    match goal with |- context [Recorder.commit s ?t] =>
      destruct (rec_commit_keeps s t) as (_ & -> & -> & _) end.
    unfold Recorder.togglePlayback.
    destruct (Recorder.audioRef s), (Recorder.audioUrl s) eqn:Eu,
      (Recorder.isPlaying s); cbn; rewrite ?Eu; split; reflexivity.
  - left.
    match goal with |- context [Recorder.commit s ?t] =>
      destruct (rec_commit_keeps s t) as (_ & -> & -> & _) end.
    destruct (Recorder.audioRef s) as [a |]; [destruct (paused a) |];
      split; reflexivity.
  - left.
    match goal with |- context [Recorder.commit s ?t] =>
      destruct (rec_commit_keeps s t) as (_ & -> & -> & _) end.
    split; reflexivity.
  - left. destruct (Recorder.transcribeAudio answer s) as [s' fx] eqn:E.
    cbn [fst]. destruct (rec_commit_keeps s s') as (_ & -> & -> & _).
    unfold Recorder.transcribeAudio in E.
    destruct (Recorder.audioBlob s) as [blob |] eqn:Hb;
      [| injection E as <- _; rewrite Hb; split; reflexivity].
    destruct (Recorder.transcription answer);
      injection E as <- _; cbn; rewrite ?Hb; split; reflexivity.
  - right; right.
    match goal with |- context [Recorder.commit s ?t] =>
      destruct (rec_commit_keeps s t) as (_ & -> & -> & _) end.
    split; reflexivity.
Qed.

(** In the [MediaRecorder] variant too, the artifact and its playback
    reference are defined together. *)
Lemma rec_reachable_paired (s : Recorder.session) :
  Recorder.reachable s ->
  (Recorder.audioBlob s = None <-> Recorder.audioUrl s = None).
Proof.
  intros [es ->]. unfold Recorder.run.
  assert (H0 : Recorder.audioBlob Recorder.init = None <->
               Recorder.audioUrl Recorder.init = None) by (split; reflexivity).
  revert H0. generalize Recorder.init as s.
  induction es as [| e es IH]; intros s Hs; cbn [fold_left]; [exact Hs |].
  apply IH.
  destruct (rec_step_artifact e s) as [[Hb Hu] | [[Hb Hu] | [Hb Hu]]].
  - rewrite Hb, Hu. exact Hs.
  - split; intros H; contradiction.
  - split; intros _; assumption.
Qed.

Lemma not_none_iff {A B : Type} (a : option A) (b : option B) :
  (a = None <-> b = None) -> (a <> None <-> b <> None).
Proof. intros H. split; intros Hn Hc; apply Hn, H, Hc. Qed.

(** C4 (amended).  For every reachable session of either recorder the
    artifact is defined if and only if its playback reference is; hence a
    session that is not recording is Stopped if and only if its artifact
    is defined, and an Idle session has none.  The finalize callback of
    the [MediaRecorder] variant always defines the artifact, also after
    zero chunks.  In the WAV variant, stop() on a recording session ends
    the recording; it defines the artifact, and the session is Stopped,
    when at least one sample buffer was captured; after zero sample
    buffers it makes no artifact and leaves artifact and reference as they
    were. *)
Theorem artifact_defined_with_reference :
  (forall s : WavRecorder.session,
     WavRecorder.reachable s ->
     (WavRecorder.audioBlob s <> None <-> WavRecorder.audioUrl s <> None) /\
     (WavRecorder.isRecording s = false ->
      (WavRecorder.audioBlob s <> None <-> WavRecorder.state_of s = Stopped)) /\
     (WavRecorder.state_of s = Idle -> WavRecorder.audioBlob s = None)) /\
  (forall s : Recorder.session,
     Recorder.reachable s ->
     (Recorder.audioBlob s <> None <-> Recorder.audioUrl s <> None) /\
     (Recorder.isRecording s = false ->
      (Recorder.audioBlob s <> None <-> Recorder.state_of s = Stopped)) /\
     (Recorder.state_of s = Idle -> Recorder.audioBlob s = None)) /\
  (forall (s : Recorder.session) (type : string) (final : Blob),
     Recorder.mediaRecorderRef s = Some (Recorder.mkRecorder Recorder.Stopping type) ->
     Recorder.audioBlob (fst (Recorder.step (Recorder.RecorderStopped final) s)) <> None) /\
  (forall s : WavRecorder.session,
     WavRecorder.isRecording s = true ->
     let s' := fst (WavRecorder.step WavRecorder.StopRecording s) in
     WavRecorder.isRecording s' = false /\
     (WavRecorder.audioDataRef s <> [] ->
      WavRecorder.audioBlob s' <> None /\ WavRecorder.state_of s' = Stopped) /\
     (WavRecorder.audioDataRef s = [] ->
      WavRecorder.audioBlob s' = WavRecorder.audioBlob s /\
      WavRecorder.audioUrl s' = WavRecorder.audioUrl s)).
Proof.
  split; [| split; [| split]].
  - intros s Hs. pose proof (wav_reachable_paired s Hs) as Hp.
    pose proof (not_none_iff _ _ Hp) as Hn.
    split; [exact Hn |]. unfold WavRecorder.state_of. split.
    + intros ->. rewrite Hn.
      destruct (WavRecorder.audioUrl s); split; congruence.
    + destruct (WavRecorder.isRecording s); [discriminate |].
      destruct (WavRecorder.audioUrl s); [discriminate |].
      intros _. now apply Hp.
  - intros s Hs. pose proof (rec_reachable_paired s Hs) as Hp.
    pose proof (not_none_iff _ _ Hp) as Hn.
    split; [exact Hn |]. unfold Recorder.state_of. split.
    + intros ->. rewrite Hn.
      destruct (Recorder.audioUrl s); split; congruence.
    + destruct (Recorder.isRecording s); [discriminate |].
      destruct (Recorder.audioUrl s); [discriminate |].
      intros _. now apply Hp.
  - intros s type final Href.
    destruct (rec_step_stopped final s type Href) as (_ & Hb & _).
    rewrite Hb. discriminate.
  - intros s Hrec s'. subst s'. unfold WavRecorder.step.
    destruct (WavRecorder.stopRecording s) as [t fx] eqn:E. cbn [fst].
    destruct (wav_commit_keeps s t) as (Hr & Hb & Hu & _).
    unfold WavRecorder.state_of. rewrite Hr, Hb, Hu.
    destruct (WavRecorder.audioDataRef s) as [| chunk rest] eqn:Hdata.
    + destruct (wav_stopRecording_empty s Hrec Hdata) as (_ & H1 & H2 & H3 & _).
      rewrite E in H1, H2, H3. cbn [fst] in *.
      split; [exact H1 |]. split; [intros H; contradiction |].
      intros _. split; assumption.
    + assert (Hne : WavRecorder.audioDataRef s <> [])
        by (rewrite Hdata; discriminate).
      destruct (wav_stopRecording_encodes s Hrec Hne)
        as (wav & _ & _ & H1 & H2 & H3 & _).
      rewrite E in H1, H2, H3. cbn [fst] in *.
      split; [exact H1 |]. split; [| intros H; discriminate H].
      intros _. rewrite H1, H2, H3. split; [discriminate | reflexivity].
Qed.

Lemma artifact_defined_with_reference_witness :
  ((WavRecorder.audioBlob Examples.wav_stopped <> None <->
    WavRecorder.audioUrl Examples.wav_stopped <> None) /\
   (WavRecorder.audioBlob Examples.wav_stopped <> None <->
    WavRecorder.state_of Examples.wav_stopped = Stopped) /\
   WavRecorder.audioBlob Examples.wav_stopped_empty = None) /\
  ((Recorder.audioBlob Examples.rec_stopped <> None <->
    Recorder.audioUrl Examples.rec_stopped <> None) /\
   (Recorder.audioBlob Examples.rec_stopped <> None <->
    Recorder.state_of Examples.rec_stopped = Stopped) /\
   Recorder.audioBlob Examples.rec_stopping = None) /\
  Recorder.audioBlob
    (fst (Recorder.step (Recorder.RecorderStopped (mkBlob [] "audio/mp4"))
            Examples.rec_stopping)) <> None /\
  (WavRecorder.isRecording
     (fst (WavRecorder.step WavRecorder.StopRecording Examples.wav_started)) = false /\
   WavRecorder.audioBlob
     (fst (WavRecorder.step WavRecorder.StopRecording Examples.wav_started)) =
     WavRecorder.audioBlob Examples.wav_started /\
   WavRecorder.audioUrl
     (fst (WavRecorder.step WavRecorder.StopRecording Examples.wav_started)) =
     WavRecorder.audioUrl Examples.wav_started) /\
  (WavRecorder.audioBlob
     (fst (WavRecorder.step WavRecorder.StopRecording Examples.wav_recording)) <> None /\
   WavRecorder.state_of
     (fst (WavRecorder.step WavRecorder.StopRecording Examples.wav_recording)) = Stopped).
Proof.
  pose proof artifact_defined_with_reference as (Hwav & Hrec & Hfinal & Hstop).
  split; [| split; [| split; [| split]]].
  - assert (Hr : WavRecorder.reachable Examples.wav_stopped)
      by (eexists; reflexivity).
    assert (Hr0 : WavRecorder.reachable Examples.wav_stopped_empty)
      by (eexists; reflexivity).
    split; [apply (Hwav Examples.wav_stopped Hr) |].
    split.
    + apply (Hwav Examples.wav_stopped Hr). vm_compute. reflexivity.
    + apply (Hwav Examples.wav_stopped_empty Hr0). vm_compute. reflexivity.
  - assert (Hr : Recorder.reachable Examples.rec_stopped)
      by (eexists; reflexivity).
    assert (Hr0 : Recorder.reachable Examples.rec_stopping)
      by (eexists; reflexivity).
    split; [apply (Hrec Examples.rec_stopped Hr) |].
    split.
    + apply (Hrec Examples.rec_stopped Hr). vm_compute. reflexivity.
    + apply (Hrec Examples.rec_stopping Hr0). vm_compute. reflexivity.
  - apply (Hfinal Examples.rec_stopping (Recorder.getSupportedMimeType (fun _ => true))).
    vm_compute. reflexivity.
  - assert (Hrecording : WavRecorder.isRecording Examples.wav_started = true)
      by (vm_compute; reflexivity).
    destruct (Hstop Examples.wav_started Hrecording) as (H1 & _ & H2).
    split; [exact H1 |]. apply H2. vm_compute. reflexivity.
  - assert (Hrecording : WavRecorder.isRecording Examples.wav_recording = true)
      by (vm_compute; reflexivity).
    destruct (Hstop Examples.wav_recording Hrecording) as (_ & H2 & _).
    apply H2. vm_compute. discriminate.
Defined.

(** C4, as stated, fails on the WAV variant.  A session that records again
    after a finished recording is Recording with the earlier artifact
    still defined; and stop() on a recording that captured no sample
    buffer ends the recording without defining an artifact. *)
Lemma wav_artifact_not_iff_stopped :
  (WavRecorder.reachable Examples.wav_restarted /\
   WavRecorder.state_of Examples.wav_restarted = Recording /\
   WavRecorder.audioBlob Examples.wav_restarted <> None /\
   ~ (WavRecorder.audioBlob Examples.wav_restarted <> None <->
      WavRecorder.state_of Examples.wav_restarted = Stopped)) /\
  (WavRecorder.reachable Examples.wav_stopped_empty /\
   Examples.wav_stopped_empty =
     fst (WavRecorder.step WavRecorder.StopRecording Examples.wav_started) /\
   WavRecorder.state_of Examples.wav_started = Recording /\
   WavRecorder.state_of Examples.wav_stopped_empty = Idle /\
   WavRecorder.audioBlob Examples.wav_stopped_empty = None).
Proof.
  assert (Hstate : WavRecorder.state_of Examples.wav_restarted = Recording)
    by (vm_compute; reflexivity).
  assert (Hblob : WavRecorder.audioBlob Examples.wav_restarted <> None)
    by (vm_compute; discriminate).
  split.
  - split; [eexists; reflexivity |].
    split; [exact Hstate |]. split; [exact Hblob |].
    intros [H _]. specialize (H Hblob). rewrite Hstate in H. discriminate H.
  - split; [exists [WavRecorder.StartRecording Granted; WavRecorder.StopRecording];
            reflexivity |].
    split; [vm_compute; reflexivity |].
    split; [vm_compute; reflexivity |].
    split; vm_compute; reflexivity.
Qed.

End ArtifactClaims.

(* --------------------------------------------------------------------- *)
(** ** Further properties: the encoder, byte by byte *)

Section EncoderBytes.

Import JS DataView Wav Layout.

Lemma charCodes_bytes (s : string) : Forall (fun c => 0 <= c < 256) (charCodes s).
Proof.
  unfold charCodes. apply Forall_forall. intros c Hc.
  apply in_map_iff in Hc. destruct Hc as (a & <- & _).
  pose proof (nat_ascii_bounded a). lia.
Qed.

Lemma length_charCodes (s : string) : length (charCodes s) = String.length s.
Proof.
  unfold charCodes. rewrite length_map.
  induction s as [| c s IH]; simpl; congruence.
Qed.

(** The loop of [writeString] overwrites a stretch of the buffer. *)
Lemma writeString_loop_app (codes : list Z) :
  Forall (fun c => 0 <= c < 256) codes ->
  forall pre old post : list Z,
    length old = length codes ->
    writeString_loop (pre ++ old ++ post) (length pre) codes =
    Some (pre ++ codes ++ post).
Proof.
  induction 1 as [| c codes Hc _ IH]; intros pre old post Hlen.
  - destruct old; [reflexivity | discriminate Hlen].
  - destruct old as [| o old]; [discriminate Hlen |].
    cbn [writeString_loop]. unfold setUint8.
    change ((o :: old) ++ post) with ([o] ++ old ++ post).
    rewrite (set_le_app 1 pre [o] (old ++ post) c eq_refl).
    cbn [le_bytes]. rewrite Z.mod_small by exact Hc.
    replace (length pre + 1)%nat with (length (pre ++ [c]))
      by (rewrite length_app; reflexivity).
    rewrite app_assoc, IH by (now injection Hlen).
    now rewrite <- app_assoc.
Qed.

(** The loop raises as soon as a character falls outside the buffer. *)
Lemma writeString_loop_overflow (codes : list Z) :
  codes <> [] ->
  forall (view : buffer) (at_ : nat),
    (length view < at_ + length codes)%nat ->
    writeString_loop view at_ codes = None.
Proof.
  induction codes as [| c codes IH]; intros Hne view at_ Hlen; [contradiction |].
  cbn [writeString_loop]. unfold setUint8, set_le.
  destruct (at_ + 1 <=? length view)%nat eqn:E; [| reflexivity].
  apply Nat.leb_le in E.
  destruct codes as [| c' codes].
  - cbn [length] in Hlen. lia.
  - apply IH; [discriminate |]. rewrite length_store. cbn [length] in *. lia.
Qed.

(** X1.  [writeString(view, offset, string)] overwrites the bytes
    [offset .. offset + string.length) of the buffer with the character
    codes of the string, in order, and leaves every other byte and the
    length of the buffer as they were; when the string does not fit in
    the buffer (and is not empty) it raises a RangeError. *)
Theorem writeString_writes (view : buffer) (offset : nat) (s : string) :
  ((offset + String.length s <= length view)%nat ->
   writeString view offset s =
   Some (firstn offset view ++ charCodes s ++
         skipn (offset + String.length s) view)) /\
  ((length view < offset + String.length s)%nat -> s <> EmptyString ->
   writeString view offset s = None).
Proof.
  unfold writeString. split.
  - intros Hfit.
    assert (Hpre : length (firstn offset view) = offset)
      by (rewrite length_firstn; lia).
    assert (Hview : view =
              firstn offset view ++
              firstn (String.length s) (skipn offset view) ++
              skipn (offset + String.length s) view).
    { rewrite (Nat.add_comm offset (String.length s)), <- skipn_skipn.
      now rewrite !firstn_skipn. }
    pose proof (writeString_loop_app (charCodes s) (charCodes_bytes s)
                  (firstn offset view)
                  (firstn (String.length s) (skipn offset view))
                  (skipn (offset + String.length s) view)) as H.
    rewrite Hpre, <- Hview in H. apply H.
    rewrite length_firstn, length_skipn, length_charCodes. lia.
  - intros Hover Hne. apply writeString_loop_overflow.
    + destruct s; [contradiction | discriminate].
    + now rewrite length_charCodes.
Qed.

Lemma writeString_writes_witness :
  writeString [1; 2; 3; 4; 5; 6] 1 "RIFF" = Some [1; 82; 73; 70; 70; 6] /\
  writeString [1; 2; 3; 4; 5; 6] 3 "RIFF" = None.
Proof.
  split.
  - apply (proj1 (writeString_writes [1; 2; 3; 4; 5; 6] 1 "RIFF")).
    vm_compute. lia.
  - apply (proj2 (writeString_writes [1; 2; 3; 4; 5; 6] 3 "RIFF")).
    + vm_compute. lia.
    + discriminate.
Defined.

Lemma le_bytes_bytes (n : nat) : forall v,
  Forall (fun b => 0 <= b < 256) (le_bytes n v).
Proof.
  induction n as [| n IH]; intros v; cbn [le_bytes]; constructor.
  - apply Z.mod_pos_bound. lia.
  - apply IH.
Qed.

Lemma pcm_bytes_bytes (pcm : list Z) :
  Forall (fun b => 0 <= b < 256) (pcm_bytes pcm).
Proof.
  unfold pcm_bytes. induction pcm as [| p pcm IH]; cbn [flat_map].
  - constructor.
  - apply Forall_app. split; [apply le_bytes_bytes | exact IH].
Qed.

Lemma canonical_header_bytes (d r : Z) :
  Forall (fun b => 0 <= b < 256) (canonical_header d r).
Proof.
  unfold canonical_header.
  repeat (apply Forall_app; split);
    try apply le_bytes_bytes; apply charCodes_bytes.
Qed.

Lemma length_canonical_header (d r : Z) : length (canonical_header d r) = 44%nat.
Proof. reflexivity. Qed.

Lemma pcm_bytes_app (a b : list Z) : pcm_bytes (a ++ b) = pcm_bytes a ++ pcm_bytes b.
Proof. unfold pcm_bytes. apply flat_map_app. Qed.

(** The two bytes of the sample at index [i]. *)
Lemma slice_pcm_bytes (pcm : list Z) : forall (i : nat) (v : Z),
  nth_error pcm i = Some v ->
  (2 * i + 2 <= length (pcm_bytes pcm))%nat /\
  slice (pcm_bytes pcm) (2 * i) 2 = le_bytes 2 v.
Proof.
  induction pcm as [| p pcm IH]; intros [| i] v H; try discriminate H.
  - injection H as ->. split; [rewrite length_pcm_bytes; cbn [length]; lia |].
    reflexivity.
  - cbn [nth_error] in H. destruct (IH i v H) as [Hlen Hs].
    split; [rewrite length_pcm_bytes in *; cbn [length]; lia |].
    replace (2 * S i)%nat with (S (S (2 * i))) by lia.
    exact Hs.
Qed.

(** X2.  Whatever the samples and whatever the sample rate passed,
    [encodeWAV] returns (it never raises), every element of the buffer is
    a byte, and the format chunk reads: "fmt " at offset 12, chunk size
    16, format tag 1, one channel, the sample rate and twice the sample
    rate (the byte rate) modulo 2^32, block align 2 and 16 bits per
    sample. *)
Theorem encodeWAV_format_chunk (samples : list number) (sampleRate : Z) :
  exists buf : buffer,
    encodeWAV samples sampleRate = Some buf /\
    Forall (fun b => 0 <= b < 256) buf /\
    slice buf 12 4 = charCodes "fmt " /\
    getUint32 buf 16 = Some 16 /\
    getUint16 buf 20 = Some 1 /\
    getUint16 buf 22 = Some 1 /\
    getUint32 buf 24 = Some (sampleRate mod 2 ^ 32) /\
    getUint32 buf 28 = Some ((sampleRate * 2) mod 2 ^ 32) /\
    getUint16 buf 32 = Some 2 /\
    getUint16 buf 34 = Some 16.
Proof.
  rewrite encodeWAV_bytes. eexists. split; [reflexivity |].
  set (d := Z.of_nat (length samples) * 2).
  set (rest := pcm_bytes (map sample16 samples)).
  split.
  { apply Forall_app. split; [apply canonical_header_bytes | apply pcm_bytes_bytes]. }
  repeat split.
  - change (getUint32 (canonical_header d sampleRate ++ rest) 24)
      with (Some (le_value (le_bytes 4 sampleRate))).
    now rewrite le_value_le_bytes.
  - change (getUint32 (canonical_header d sampleRate ++ rest) 28)
      with (Some (le_value (le_bytes 4 (sampleRate * 2)))).
    now rewrite le_value_le_bytes.
Qed.

(** X3.  The data chunk of the buffer [encodeWAV] returns decodes to the
    quantized samples: the signed 16-bit little-endian integer at offset
    44 + 2i is the quantization of sample i, for every i below the number
    of samples; past the last sample a read is out of range. *)
Theorem encodeWAV_payload_decodes (samples : list number) (sampleRate : Z) :
  exists buf : buffer,
    encodeWAV samples sampleRate = Some buf /\
    (forall (i : nat) (x : number),
       nth_error samples i = Some x ->
       getInt16 buf (44 + 2 * i) = Some (sample16 x)) /\
    (forall i : nat,
       (length samples <= i)%nat -> getInt16 buf (44 + 2 * i) = None).
Proof.
  rewrite encodeWAV_bytes. eexists. split; [reflexivity |].
  set (header := canonical_header (Z.of_nat (length samples) * 2) sampleRate).
  assert (Hh : length header = 44%nat) by reflexivity.
  split.
  - intros i x Hx.
    assert (Hv : nth_error (map sample16 samples) i = Some (sample16 x))
      by (rewrite nth_error_map, Hx; reflexivity).
    destruct (slice_pcm_bytes _ i _ Hv) as [Hlen Hs].
    unfold getInt16, get_le. rewrite length_app, Hh.
    replace (44 + 2 * i + 2 <=? 44 + length (pcm_bytes (map sample16 samples)))%nat
      with true by (symmetry; apply Nat.leb_le; lia).
    unfold slice in *. rewrite skipn_app, Hh.
    rewrite skipn_all2 by lia. cbn [app].
    replace (44 + 2 * i - 44)%nat with (2 * i)%nat by lia.
    rewrite Hs, le_value_le_bytes. cbn [option_map]. f_equal.
    change (256 ^ Z.of_nat 2) with 65536. rewrite wrap16_mod.
    rewrite sample16_to_integer. apply wrap16_small, to_integer_scaled_range.
  - intros i Hi. unfold getInt16, get_le.
    rewrite length_app, Hh, length_pcm_bytes, length_map.
    replace (44 + 2 * i + 2 <=? 44 + length samples * 2)%nat
      with false by (symmetry; apply Nat.leb_gt; lia).
    reflexivity.
Qed.

Lemma encodeWAV_payload_decodes_witness :
  exists buf : buffer,
    encodeWAV [Fin (1 # 2); Fin (- (3 # 1))] 8000 = Some buf /\
    getInt16 buf 44 = Some 16383 /\
    getInt16 buf 46 = Some (-32768) /\
    getInt16 buf 48 = None.
Proof.
  destruct (encodeWAV_payload_decodes [Fin (1 # 2); Fin (- (3 # 1))] 8000)
    as (buf & Hbuf & Hin & Hout).
  exists buf. split; [exact Hbuf |]. split; [| split].
  - apply (Hin 0%nat (Fin (1 # 2))). reflexivity.
  - apply (Hin 1%nat (Fin (- (3 # 1)))). reflexivity.
  - apply (Hout 2%nat). simpl. lia.
Defined.

(** X4.  Encoding composes with concatenation: the data chunk of the
    encoding of two runs of samples put one after the other is the data
    chunk of the first followed by that of the second; and the 44 header
    bytes depend on the samples through their number only. *)
Theorem encodeWAV_appends (a b : list number) (sampleRate : Z) :
  exists wa wb wab : buffer,
    encodeWAV a sampleRate = Some wa /\
    encodeWAV b sampleRate = Some wb /\
    encodeWAV (a ++ b) sampleRate = Some wab /\
    skipn 44 wab = skipn 44 wa ++ skipn 44 wb /\
    (length a = length b -> firstn 44 wa = firstn 44 wb).
Proof.
  rewrite !encodeWAV_bytes. do 3 eexists.
  repeat (split; [reflexivity |]).
  split.
  - rewrite !skipn_app, !length_canonical_header.
    change (skipn 44 (canonical_header ?d ?r)) with (@nil Z).
    cbn [Nat.sub skipn app]. now rewrite map_app, pcm_bytes_app.
  - intros Hlen. rewrite !firstn_app, !length_canonical_header, Hlen.
    reflexivity.
Qed.

Lemma encodeWAV_appends_witness :
  exists wa wb wab : buffer,
    encodeWAV [Fin (1 # 2)] 44100 = Some wa /\
    encodeWAV [Fin (- (1 # 4))] 44100 = Some wb /\
    encodeWAV ([Fin (1 # 2)] ++ [Fin (- (1 # 4))]) 44100 = Some wab /\
    skipn 44 wab = skipn 44 wa ++ skipn 44 wb /\
    firstn 44 wa = firstn 44 wb.
Proof.
  destruct (encodeWAV_appends [Fin (1 # 2)] [Fin (- (1 # 4))] 44100)
    as (wa & wb & wab & Ha & Hb & Hab & Hdata & Hhead).
  exists wa, wb, wab. repeat (split; [assumption |]).
  apply Hhead. reflexivity.
Defined.

End EncoderBytes.

(** ** The quantizer, further *)

Section QuantizerFurther.

Import JS Wav.

Lemma Qfloor_unique (x : Q) (z : Z) :
  (inject_Z z <= x)%Q -> (x < inject_Z z + 1)%Q -> Qfloor x = z.
Proof.
  intros Hlo Hhi.
  pose proof (Qfloor_le x) as H1. pose proof (Qlt_floor x) as H2.
  rewrite inject_Z_plus in H2. change (inject_Z 1) with 1%Q in H2.
  assert (Ha : (inject_Z z < inject_Z (Qfloor x) + 1)%Q) by lra.
  assert (Hb : (inject_Z (Qfloor x) < inject_Z z + 1)%Q) by lra.
  change 1%Q with (inject_Z 1) in Ha, Hb.
  rewrite <- inject_Z_plus in Ha, Hb.
  rewrite <- Zlt_Qlt in Ha, Hb. lia.
Qed.

Lemma truncate_nonneg (x : Q) : (0 <= x)%Q -> truncate x = Qfloor x.
Proof.
  intros H. unfold truncate. now rewrite (proj2 (negative_false x) H).
Qed.

Lemma truncate_opp (x : Q) : truncate (- x) = - truncate x.
Proof.
  unfold truncate.
  destruct (negative x) eqn:E1, (negative (- x)) eqn:E2.
  - apply negative_true in E1, E2. lra.
  - unfold Qceiling. lia.
  - unfold Qceiling. now rewrite (Qfloor_comp _ _ (Qopp_involutive x)).
  - apply negative_false in E1, E2.
    assert (H : (x == 0)%Q) by lra.
    rewrite H. reflexivity.
Qed.

(** The quantization of a finite sample, by cases. *)
Lemma sample16_Fin (q : Q) :
  ((q <= -1)%Q /\ sample16 (Fin q) = -32768) \/
  ((-1 < q)%Q /\ (q < 0)%Q /\ sample16 (Fin q) = - Qfloor (- q * 32768)) \/
  ((0 <= q)%Q /\ (q < 1)%Q /\ sample16 (Fin q) = Qfloor (q * 32767)) \/
  ((1 <= q)%Q /\ sample16 (Fin q) = 32767).
Proof.
  rewrite sample16_to_integer.
  destruct (scaled_Fin q) as (v & -> & [[H E] | [(H1 & H2 & E) | [(H1 & H2 & E) | [H E]]]]);
    cbn [to_integer].
  - left. split; [exact H |]. rewrite (truncate_comp _ _ E). reflexivity.
  - right; left. repeat split; try assumption.
    rewrite (truncate_comp _ _ E).
    rewrite (truncate_comp (q * 32768) (- (- q * 32768))) by ring.
    rewrite truncate_opp, truncate_nonneg by nra. reflexivity.
  - right; right; left. repeat split; try assumption.
    rewrite (truncate_comp _ _ E). apply truncate_nonneg. nra.
  - right; right; right. split; [exact H |].
    rewrite (truncate_comp _ _ E). reflexivity.
Qed.

(** X5.  The quantizer is odd up to one step: the quantization of the
    negated sample is the negated quantization of the sample, or one step
    below it (negative samples are scaled by 32768, the others by 32767),
    whatever the sample. *)
Theorem sample16_nearly_odd (q : Q) :
  0 <= - sample16 (Fin (- q)) - sample16 (Fin q) <= 1.
Proof.
  assert (Pos : forall p : Q, (0 <= p)%Q ->
            0 <= - sample16 (Fin (- p)) - sample16 (Fin p) <= 1).
  { intros p Hp.
    destruct (sample16_Fin p) as [[H _] | [(_ & H & _) | [(_ & H1 & E1) | [H1 E1]]]];
      try lra;
    destruct (sample16_Fin (- p)) as [[H2 E2] | [(H2 & H3 & E2) | [(H2 & H3 & E2) | [H2 E2]]]];
      try lra; rewrite E1, E2; try lia.
    - rewrite (Qfloor_comp (- - p * 32768) (p * 32768)) by ring.
      pose proof (Qfloor_le (p * 32768)) as A1.
      pose proof (Qlt_floor (p * 32768)) as A2.
      pose proof (Qfloor_le (p * 32767)) as B1.
      pose proof (Qlt_floor (p * 32767)) as B2.
      rewrite inject_Z_plus in A2, B2. change (inject_Z 1) with 1%Q in *.
      assert (L : (inject_Z (Qfloor (p * 32767)) < inject_Z (Qfloor (p * 32768) + 1))%Q)
        by (rewrite inject_Z_plus; change (inject_Z 1) with 1%Q; lra).
      assert (U : (inject_Z (Qfloor (p * 32768)) < inject_Z (Qfloor (p * 32767) + 2))%Q)
        by (rewrite inject_Z_plus; change (inject_Z 2) with 2%Q; lra).
      rewrite <- Zlt_Qlt in L, U. lia.
    - assert (H0 : (p == 0)%Q) by lra.
      rewrite (Qfloor_comp (p * 32767) 0) by (rewrite H0; ring).
      rewrite (Qfloor_comp (- p * 32767) 0) by (rewrite H0; ring).
      change (Qfloor 0) with 0. lia. }
  destruct (Qlt_le_dec q 0) as [Hneg | Hpos].
  - specialize (Pos (- q)%Q ltac:(lra)).
    assert (E : sample16 (Fin (- - q)) = sample16 (Fin q)).
    { rewrite !sample16_to_integer.
      pose proof (to_integer_scaled_Fin_le (- - q) q ltac:(lra)).
      pose proof (to_integer_scaled_Fin_le q (- - q) ltac:(lra)). lia. }
    rewrite E in Pos. lia.
  - exact (Pos q Hpos).
Qed.

(** X6.  Every 16-bit value is the quantization of some sample in [-1, 1],
    and of one that a [Float32Array] holds exactly (a multiple of 2^-15):
    the value over 32768 when it is negative, the next value over 32768
    otherwise. *)
Theorem sample16_onto (v : Z) :
  -32768 <= v <= 32767 ->
  exists k : Z, -32768 <= k <= 32768 /\ sample16 (Fin (k # 32768)) = v.
Proof.
  intros Hv. destruct (Z_lt_le_dec v 0) as [Hneg | Hpos].
  - exists v. split; [lia |].
    assert (Hq1 : (-1 <= v # 32768)%Q) by (unfold Qle; cbn; lia).
    assert (Hq2 : (v # 32768 < 0)%Q) by (unfold Qlt; cbn; lia).
    assert (Hval : (- (v # 32768) * 32768 == inject_Z (- v))%Q)
      by (unfold Qeq; cbn; lia).
    destruct (sample16_Fin (v # 32768))
      as [[H E] | [(H1 & H2 & E) | [(H1 & H2 & E) | [H E]]]]; try lra.
    + assert (Heq : (v # 32768 == -1)%Q) by lra.
      unfold Qeq in Heq. cbn in Heq. lia.
    + rewrite E, (Qfloor_comp _ _ Hval), Qfloor_Z. lia.
  - exists (v + 1). split; [lia |].
    assert (Hq1 : (0 < v + 1 # 32768)%Q) by (unfold Qlt; cbn; lia).
    assert (Hq2 : (v + 1 # 32768 <= 1)%Q) by (unfold Qle; cbn; lia).
    destruct (sample16_Fin (v + 1 # 32768))
      as [[H E] | [(H1 & H2 & E) | [(H1 & H2 & E) | [H E]]]]; try lra.
    + rewrite E. apply Qfloor_unique.
      * unfold Qle. cbn. lia.
      * unfold Qlt. cbn. lia.
    + assert (Heq : (v + 1 # 32768 == 1)%Q) by lra.
      unfold Qeq in Heq. cbn in Heq. lia.
Qed.

Lemma sample16_onto_witness :
  exists k : Z, -32768 <= k <= 32768 /\ sample16 (Fin (k # 32768)) = 12345.
Proof. apply (sample16_onto 12345). lia. Defined.

Lemma same_mul_Fin (a b : number) (k : Q) :
  same a b -> same (JS.mul a (Fin k)) (JS.mul b (Fin k)).
Proof.
  destruct a as [| | | x], b as [| | | y]; cbn [same JS.mul]; try contradiction;
    intros H; try exact I.
  - destruct (is_zero k); [exact I |]. destruct (negative k); exact I.
  - destruct (is_zero k); [exact I |]. destruct (negative k); exact I.
  - now rewrite H.
Qed.

Lemma same_trans (a b c : number) : same a b -> same b c -> same a c.
Proof.
  destruct a, b, c; cbn [same]; try contradiction; try (intros; exact I).
  intros H1 H2. now rewrite H1.
Qed.

(** X7.  For every binary32 element of magnitude below 2 (in particular
    every clipped sample), the binary64 products by [0x8000] and by
    [0x7fff] that [floatTo16BitPCM] computes are exact: they denote the
    products of the element's value by 32768 and by 32767, without
    rounding. *)
Theorem quantizer_products_exact (x : SpecFloat.spec_float) :
  Binary64.small32 x ->
  same (Binary64.value (Binary64.mul (Binary64.widen32 x) Binary64.x8000))
       (JS.mul (Binary64.value x) (of_Z 32768)) /\
  same (Binary64.value (Binary64.mul (Binary64.widen32 x) Binary64.x7fff))
       (JS.mul (Binary64.value x) (of_Z 32767)).
Proof.
  intros Hx. destruct (widen32_clipped x Hx) as [Hc Hv].
  destruct (products_exact (Binary64.widen32 x) Hc) as [H1 H2].
  split.
  - eapply same_trans; [exact H1 |]. now apply same_mul_Fin.
  - eapply same_trans; [exact H2 |]. now apply same_mul_Fin.
Qed.

Lemma quantizer_products_exact_witness :
  same (Binary64.value
          (Binary64.mul
             (Binary64.widen32 (SpecFloat.S754_finite true 12582912 (-24)))
             Binary64.x8000))
       (JS.mul (Binary64.value (SpecFloat.S754_finite true 12582912 (-24)))
          (of_Z 32768)) /\
  same (Binary64.value
          (Binary64.mul
             (Binary64.widen32 (SpecFloat.S754_finite true 12582912 (-24)))
             Binary64.x7fff))
       (JS.mul (Binary64.value (SpecFloat.S754_finite true 12582912 (-24)))
          (of_Z 32767)).
Proof.
  apply (quantizer_products_exact (SpecFloat.S754_finite true 12582912 (-24))).
  split; [vm_compute; reflexivity | vm_compute; discriminate].
Defined.

End QuantizerFurther.

(** ** The elapsed time, as displayed *)

(** Linear arithmetic over the rationals, divisions by constants made
    products first. *)
Ltac qlra := unfold Qdiv in *; cbn [Qinv Qnum Qden] in *; lra.

Section DisplayFacts.

Import JS Display.

(** The floor of a number close to the quotient of two integers:
    [k + r / d] with [0 <= r < d]. *)
Lemma floor_near_quotient (k r d : Z) (v : Q) :
  0 <= r < d ->
  (r = 0 -> (v == inject_Z k)%Q) ->
  (r <> 0 ->
   (Qabs.Qabs (v - (inject_Z k + inject_Z r / inject_Z d)) < 1 / inject_Z d)%Q) ->
  Qfloor v = k.
Proof.
  intros Hr Hexact Hnear.
  assert (Hd : (0 < inject_Z d)%Q)
    by (change 0%Q with (inject_Z 0); rewrite <- Zlt_Qlt; lia).
  destruct (Z.eq_dec r 0) as [-> | Hne].
  - rewrite (Hexact eq_refl). apply Qfloor_unique; lra.
  - specialize (Hnear Hne).
    assert (H1 : (1 <= inject_Z r)%Q)
      by (change 1%Q with (inject_Z 1); rewrite <- Zle_Qle; lia).
    assert (H2 : (inject_Z r + 1 <= inject_Z d)%Q).
    { change 1%Q with (inject_Z 1). rewrite <- inject_Z_plus.
      rewrite <- Zle_Qle. lia. }
    apply Qabs.Qabs_Qlt_condition in Hnear. destruct Hnear as [Hlo Hhi].
    set (q := (inject_Z r / inject_Z d)%Q) in *.
    assert (Hq1 : (1 / inject_Z d <= q)%Q).
    { unfold q. apply Qle_shift_div_l; [exact Hd |]. field_simplify; [lra | lra]. }
    assert (Hq2 : (q <= 1 - 1 / inject_Z d)%Q).
    { unfold q. apply Qle_shift_div_r; [exact Hd |]. field_simplify; [lra | lra]. }
    apply Qfloor_unique; lra.
Qed.

Lemma inject_Z_div_mod (a d : Z) :
  0 < d -> (inject_Z a == inject_Z d * inject_Z (a / d) + inject_Z (a mod d))%Q.
Proof.
  intros Hd. rewrite <- inject_Z_mult, <- inject_Z_plus.
  now rewrite <- Z.div_mod by lia.
Qed.

Lemma inject_Z_bounds (a lo hi : Z) :
  lo <= a <= hi -> (inject_Z lo <= inject_Z a <= inject_Z hi)%Q.
Proof. intros [H1 H2]. split; now rewrite <- Zle_Qle. Qed.

Lemma inject_Z_mod_bounds (a d : Z) :
  0 < d -> (0 <= inject_Z (a mod d) <= inject_Z d)%Q.
Proof.
  intros Hd. pose proof (Z.mod_pos_bound a d Hd).
  apply (inject_Z_bounds (a mod d) 0 d). lia.
Qed.

Section Rounding.

Variable round : Q -> Q.
Hypothesis Hround : faithful round.

Lemma round_exact (x : Q) (z : Z) :
  Z.abs z <= 2 ^ 53 -> (x == inject_Z z)%Q -> (round x == inject_Z z)%Q.
Proof.
  intros Hz Hx. destruct Hround as (Hcomp & Hint & _).
  rewrite (Hcomp x (inject_Z z) Hx). now apply Hint.
Qed.

Lemma round_near (x : Q) :
  (1 # 1073741824 <= x)%Q -> (x <= 1099511627776)%Q ->
  (x - x * (1 # 9007199254740992) <= round x <= x + x * (1 # 9007199254740992))%Q.
Proof.
  intros Hlo Hhi. destruct Hround as (_ & _ & Hnear).
  specialize (Hnear x Hlo Hhi). apply Qabs.Qabs_Qle_condition in Hnear. lra.
Qed.

(** The floor of the rounded quotient of two whole numbers is their
    integer quotient. *)
Lemma floor_round_quotient (a d : Z) :
  0 <= a < 2 ^ 31 -> 0 < d <= 3600000 ->
  Qfloor (round (inject_Z a / inject_Z d)) = a / d.
Proof.
  intros Ha Hd.
  assert (Hdq : (1 <= inject_Z d <= 3600000)%Q)
    by (apply (inject_Z_bounds d 1 3600000); lia).
  pose proof (inject_Z_div_mod a d ltac:(lia)) as Hdm.
  assert (Hk : 0 <= a / d < 2 ^ 31).
  { split; [apply Z.div_pos; lia |].
    apply Z.le_lt_trans with a; [| lia]. apply Z.div_le_upper_bound; nia. }
  pose proof (inject_Z_bounds (a / d) 0 (2 ^ 31) ltac:(lia)) as Hkq.
  pose proof (Z.mod_pos_bound a d ltac:(lia)) as Hr.
  pose proof (inject_Z_bounds (a mod d) 0 d ltac:(lia)) as Hrq.
  change (inject_Z 0) with 0%Q in *. change (inject_Z (2 ^ 31)) with 2147483648%Q in *.
  assert (Hx : (inject_Z a / inject_Z d ==
                inject_Z (a / d) + inject_Z (a mod d) / inject_Z d)%Q).
  { rewrite Hdm. field. lra. }
  apply (floor_near_quotient (a / d) (a mod d) d); [exact Hr | |].
  - intros H0. apply round_exact; [lia |]. rewrite Hx, H0.
    change (inject_Z 0) with 0%Q. field. lra.
  - intros Hne.
    assert (H1 : (1 <= inject_Z (a mod d))%Q)
      by (change 1%Q with (inject_Z 1); rewrite <- Zle_Qle; lia).
    set (x := (inject_Z a / inject_Z d)%Q) in *.
    assert (Hxlo : (1 / inject_Z d <= x)%Q).
    { rewrite Hx. apply Qle_trans with (inject_Z (a mod d) / inject_Z d)%Q.
      - apply Qle_shift_div_l; [lra |]. field_simplify; lra.
      - lra. }
    assert (Hdlo : (1 # 3600000 <= 1 / inject_Z d)%Q).
    { apply Qle_shift_div_l; [lra |]. lra. }
    assert (Hxhi : (x <= 2147483648)%Q).
    { unfold x. apply Qle_shift_div_r; [lra |].
      pose proof (inject_Z_bounds a 0 (2 ^ 31) ltac:(lia)) as Haq.
      change (inject_Z (2 ^ 31)) with 2147483648%Q in Haq. nra. }
    pose proof (round_near x ltac:(lra) ltac:(lra)) as Hn.
    rewrite <- Hx. apply Qabs.Qabs_Qlt_condition. lra.
Qed.

(** [Math.floor(seconds / 60)]. *)
Lemma counter_mins (seconds : Z) :
  0 <= seconds < 2 ^ 31 ->
  Qfloor (round (inject_Z seconds / 60)) = seconds / 60.
Proof. intros H. apply (floor_round_quotient seconds 60); lia. Qed.

Section Milliseconds.

Variable ms : Z.
Hypothesis Hms : 0 <= ms < 2 ^ 31.

(** The exact quotient, and [totalSeconds]. *)
Let x : Q := (inject_Z ms / 1000)%Q.
Let T : Q := round x.

Lemma ms_bounds : (0 <= inject_Z ms <= 2147483648)%Q.
Proof. apply (inject_Z_bounds ms 0 (2 ^ 31)). lia. Qed.

Lemma totalSeconds_exact :
  ms mod 1000 = 0 -> (T == inject_Z (ms / 1000))%Q.
Proof.
  intros H. apply round_exact.
  - assert (0 <= ms / 1000 < 2 ^ 31) by (Z.div_mod_to_equations; lia). lia.
  - unfold x. pose proof (inject_Z_div_mod ms 1000 ltac:(lia)) as Hdm.
    rewrite H in Hdm. change (inject_Z 0) with 0%Q in Hdm.
    change (inject_Z 1000) with 1000%Q in Hdm. rewrite Hdm. field.
Qed.

Lemma totalSeconds_near :
  (x - x * (1 # 9007199254740992) <= T <= x + x * (1 # 9007199254740992))%Q.
Proof.
  pose proof ms_bounds as Hb.
  destruct (Z.eq_dec ms 0) as [E | Hne].
  - assert (H0 : (T == 0)%Q).
    { rewrite totalSeconds_exact by (rewrite E; reflexivity).
      rewrite E. reflexivity. }
    assert (Hx : (x == 0)%Q) by (unfold x; rewrite E; reflexivity).
    rewrite H0, Hx. qlra.
  - assert (H1 : (1 <= inject_Z ms)%Q)
      by (change 1%Q with (inject_Z 1); rewrite <- Zle_Qle; lia).
    assert (Hx : (x == inject_Z ms * (1 # 1000))%Q) by reflexivity.
    apply round_near; qlra.
Qed.

(** [Math.floor(totalSeconds / 3600)]. *)
Lemma clock_hours : Qfloor (round (T / 3600)) = ms / 3600000.
Proof.
  pose proof ms_bounds as Hb. pose proof totalSeconds_near as Hn.
  pose proof (inject_Z_div_mod ms 3600000 ltac:(lia)) as Hdm.
  change (inject_Z 3600000) with 3600000%Q in Hdm.
  assert (Hk : 0 <= ms / 3600000 < 2 ^ 31) by (Z.div_mod_to_equations; lia).
  pose proof (inject_Z_mod_bounds ms 3600000 ltac:(lia)) as Hrq.
  change (inject_Z 3600000) with 3600000%Q in Hrq.
  apply (floor_near_quotient (ms / 3600000) (ms mod 3600000) 3600000).
  - apply Z.mod_pos_bound. lia.
  - intros H0. apply round_exact; [lia |].
    rewrite totalSeconds_exact by (Z.div_mod_to_equations; lia).
    replace (ms / 1000) with (3600 * (ms / 3600000)) by (Z.div_mod_to_equations; lia).
    rewrite inject_Z_mult. change (inject_Z 3600) with 3600%Q. field.
  - intros Hne. change (inject_Z 3600000) with 3600000%Q.
    assert (H1 : (1 <= inject_Z ms)%Q)
      by (change 1%Q with (inject_Z 1); rewrite <- Zle_Qle;
          Z.div_mod_to_equations; lia).
    assert (Hx : (x == inject_Z ms / 1000)%Q) by reflexivity.
    pose proof (round_near (T / 3600) ltac:(qlra) ltac:(qlra)) as Hr.
    apply Qabs.Qabs_Qlt_condition. qlra.
Qed.

(** [Math.floor(totalSeconds % 60)]. *)
Lemma clock_seconds : Qfloor (rem T 60) = (ms / 1000) mod 60.
Proof.
  pose proof ms_bounds as Hb. pose proof totalSeconds_near as Hn.
  assert (Hx : (x == inject_Z ms / 1000)%Q) by reflexivity.
  assert (Hq : truncate (T / 60) = ms / 60000).
  { rewrite truncate_nonneg by qlra.
    pose proof (inject_Z_div_mod ms 60000 ltac:(lia)) as Hdm.
    change (inject_Z 60000) with 60000%Q in Hdm.
    pose proof (inject_Z_mod_bounds ms 60000 ltac:(lia)) as Hrq.
    change (inject_Z 60000) with 60000%Q in Hrq.
    apply (floor_near_quotient (ms / 60000) (ms mod 60000) 60000).
    - apply Z.mod_pos_bound. lia.
    - intros H0. rewrite totalSeconds_exact by (Z.div_mod_to_equations; lia).
      replace (ms / 1000) with (60 * (ms / 60000)) by (Z.div_mod_to_equations; lia).
      rewrite inject_Z_mult. change (inject_Z 60) with 60%Q. field.
    - intros Hne. change (inject_Z 60000) with 60000%Q.
      apply Qabs.Qabs_Qlt_condition. qlra. }
  unfold rem. rewrite Hq.
  pose proof (inject_Z_div_mod ms 1000 ltac:(lia)) as Hdm.
  change (inject_Z 1000) with 1000%Q in Hdm.
  pose proof (inject_Z_mod_bounds ms 1000 ltac:(lia)) as Hrq.
  change (inject_Z 1000) with 1000%Q in Hrq.
  assert (Hs : (inject_Z (ms / 1000) ==
                60 * inject_Z (ms / 60000) + inject_Z ((ms / 1000) mod 60))%Q).
  { change 60%Q with (inject_Z 60). rewrite <- inject_Z_mult, <- inject_Z_plus.
    f_equiv. Z.div_mod_to_equations; lia. }
  apply (floor_near_quotient ((ms / 1000) mod 60) (ms mod 1000) 1000).
  - apply Z.mod_pos_bound. lia.
  - intros H0. rewrite totalSeconds_exact by exact H0. qlra.
  - intros Hne. change (inject_Z 1000) with 1000%Q.
    apply Qabs.Qabs_Qlt_condition. qlra.
Qed.

(** [Math.floor((totalSeconds % 3600) / 60)]. *)
Lemma clock_minutes : Qfloor (round (rem T 3600 / 60)) = (ms / 60000) mod 60.
Proof.
  pose proof ms_bounds as Hb. pose proof totalSeconds_near as Hn.
  assert (Hx : (x == inject_Z ms / 1000)%Q) by reflexivity.
  assert (Hq : truncate (T / 3600) = ms / 3600000).
  { rewrite truncate_nonneg by qlra.
    pose proof (inject_Z_div_mod ms 3600000 ltac:(lia)) as Hdm.
    change (inject_Z 3600000) with 3600000%Q in Hdm.
    pose proof (inject_Z_mod_bounds ms 3600000 ltac:(lia)) as Hrq.
    change (inject_Z 3600000) with 3600000%Q in Hrq.
    apply (floor_near_quotient (ms / 3600000) (ms mod 3600000) 3600000).
    - apply Z.mod_pos_bound. lia.
    - intros H0. rewrite totalSeconds_exact by (Z.div_mod_to_equations; lia).
      replace (ms / 1000) with (3600 * (ms / 3600000)) by (Z.div_mod_to_equations; lia).
      rewrite inject_Z_mult. change (inject_Z 3600) with 3600%Q. field.
    - intros Hne. change (inject_Z 3600000) with 3600000%Q.
      apply Qabs.Qabs_Qlt_condition. qlra. }
  unfold rem. rewrite Hq.
  pose proof (inject_Z_div_mod ms 60000 ltac:(lia)) as Hdm.
  change (inject_Z 60000) with 60000%Q in Hdm.
  pose proof (inject_Z_mod_bounds ms 60000 ltac:(lia)) as Hrq.
  change (inject_Z 60000) with 60000%Q in Hrq.
  pose proof (inject_Z_bounds ((ms / 60000) mod 60) 0 59
                ltac:(Z.div_mod_to_equations; lia)) as Hmq.
  change (inject_Z 0) with 0%Q in *. change (inject_Z 59) with 59%Q in *.
  assert (Hs : (inject_Z (ms / 60000) ==
                60 * inject_Z (ms / 3600000) + inject_Z ((ms / 60000) mod 60))%Q).
  { change 60%Q with (inject_Z 60). rewrite <- inject_Z_mult, <- inject_Z_plus.
    f_equiv. Z.div_mod_to_equations; lia. }
  apply (floor_near_quotient ((ms / 60000) mod 60) (ms mod 60000) 60000).
  - apply Z.mod_pos_bound. lia.
  - intros H0. apply round_exact; [Z.div_mod_to_equations; lia |].
    rewrite totalSeconds_exact by (Z.div_mod_to_equations; lia).
    replace (ms / 1000) with (60 * (ms / 60000)) by (Z.div_mod_to_equations; lia).
    rewrite inject_Z_mult. change (inject_Z 60) with 60%Q. rewrite Hs. field.
  - intros Hne. change (inject_Z 60000) with 60000%Q.
    assert (H1 : (1 <= inject_Z (ms mod 60000))%Q)
      by (change 1%Q with (inject_Z 1); rewrite <- Zle_Qle;
          Z.div_mod_to_equations; lia).
    set (R := (T - 3600 * inject_Z (ms / 3600000))%Q) in *.
    pose proof (round_near (R / 60) ltac:(unfold R; qlra) ltac:(unfold R; qlra)) as Hr.
    apply Qabs.Qabs_Qlt_condition. unfold R in *. qlra.
Qed.

(** [Math.floor((milliseconds % 1000) / 10)]. *)
Lemma clock_centiseconds :
  Qfloor (round (inject_Z (Z.rem ms 1000) / 10)) = (ms mod 1000) / 10.
Proof.
  rewrite Z.rem_mod_nonneg by lia.
  apply (floor_round_quotient (ms mod 1000) 10); [| lia].
  pose proof (Z.mod_pos_bound ms 1000). lia.
Qed.

End Milliseconds.

End Rounding.

Lemma read_toString (z : Z) : read (toString z) = Some z.
Proof.
  unfold read, toString. rewrite DecimalString.NilZero.isi.
  - cbn [option_map]. now rewrite DecimalZ.of_to.
  - destruct z; cbn [Z.to_int]; try discriminate.
    intros [= H]. now apply (DecimalPos.Unsigned.to_uint_nonnil p).
  - destruct z; cbn [Z.to_int]; try discriminate.
    intros [= H]. now apply (DecimalPos.Unsigned.to_uint_nonnil p).
Qed.

Lemma length_zeros (n : nat) : String.length (zeros n) = n.
Proof. induction n; simpl; congruence. Qed.

Lemma string_length_append (s t : string) :
  String.length (s ++ t) = (String.length s + String.length t)%nat.
Proof. induction s as [| c s IH]; simpl; [reflexivity | now rewrite IH]. Qed.

(** Padding keeps the number shown. *)
Lemma read_padStart (z : Z) : read (padStart (toString z) 2) = Some z.
Proof.
  pose proof (read_toString z) as H. unfold padStart.
  destruct (toString z) as [| c [| c' s]].
  - discriminate H.
  - cbn [String.length Nat.sub zeros String.append].
    destruct c as [[] [] [] [] [] [] [] []]; try discriminate H;
      vm_compute in H; vm_compute; exact H.
  - exact H.
Qed.

Lemma length_padStart_ge (s : string) (n : nat) :
  (n <= String.length (padStart s n))%nat.
Proof. unfold padStart. rewrite string_length_append, length_zeros. lia. Qed.

(** A number below 100 is shown on two characters. *)
Lemma length_padStart_2 (z : Z) :
  0 <= z < 100 -> String.length (padStart (toString z) 2) = 2%nat.
Proof.
  intros Hz.
  assert (H : forallb
                (fun n => Nat.eqb (String.length (padStart (toString (Z.of_nat n)) 2)) 2)
                (seq 0 100) = true) by (vm_compute; reflexivity).
  rewrite forallb_forall in H.
  specialize (H (Z.to_nat z)). rewrite Z2Nat.id in H by lia.
  apply Nat.eqb_eq, H, in_seq. lia.
Qed.

(** Exact arithmetic is faithful. *)
Lemma faithful_exact : faithful (fun x : Q => x).
Proof.
  split; [| split].
  - intros x y H. exact H.
  - intros z _. reflexivity.
  - intros x Hlo _.
    assert (E : (x - x == 0)%Q) by ring.
    rewrite (Qabs.Qabs_wd _ _ E). cbn [Qabs.Qabs Qnum Qden Z.abs]. lra.
Qed.

(** X20.  For every whole number of seconds from 0 up to 2^31, and
    whatever the rounding of the division, the counter's [formatTime]
    shows the minutes (seconds div 60) and the seconds (seconds mod 60),
    separated by a colon.  Both fields read back as these numbers and
    have at least two characters; the seconds field has exactly two, and
    so has the minutes field below 100 minutes (the text then has five
    characters). *)
Theorem formatTime_counter (round : Q -> Q) (seconds : Z) :
  faithful round ->
  0 <= seconds < 2 ^ 31 ->
  let mm := padStart (toString (seconds / 60)) 2 in
  let ss := padStart (toString (seconds mod 60)) 2 in
  Counter.formatTime round seconds = (mm ++ ":" ++ ss)%string /\
  read mm = Some (seconds / 60) /\
  read ss = Some (seconds mod 60) /\
  String.length ss = 2%nat /\
  (2 <= String.length mm)%nat /\
  (seconds < 6000 -> String.length mm = 2%nat).
Proof.
  intros Hround Hs mm ss. subst mm ss. unfold Counter.formatTime.
  rewrite (counter_mins round Hround seconds Hs).
  rewrite Z.rem_mod_nonneg by lia.
  split; [reflexivity |].
  split; [apply read_padStart |].
  split; [apply read_padStart |].
  split; [apply length_padStart_2; Z.div_mod_to_equations; lia |].
  split; [apply length_padStart_ge |].
  intros Hlt. apply length_padStart_2. Z.div_mod_to_equations; lia.
Qed.

Lemma formatTime_counter_witness :
  Counter.formatTime (fun x : Q => x) 125 = "02:05"%string /\
  String.length (padStart (toString (125 / 60)) 2) = 2%nat.
Proof.
  destruct (formatTime_counter (fun x : Q => x) 125 faithful_exact)
    as (H1 & _ & _ & _ & _ & H2).
  - lia.
  - split; [exact H1 | apply H2; lia].
Defined.

(** X21.  For every whole number of milliseconds from 0 up to 2^31
    (almost 25 days), and whatever the rounding of the divisions, the
    clock's [formatTime] shows hours (ms div 3600000), minutes
    ((ms div 60000) mod 60), seconds ((ms div 1000) mod 60) and
    hundredths of a second ((ms mod 1000) div 10, cut, not rounded), as
    HH:MM:SS.cc.  Each field reads back as its number and has at least
    two characters; minutes, seconds and hundredths have exactly two, and
    so has the hours field below 100 hours (the text then has eleven
    characters). *)
Theorem formatTime_clock (round : Q -> Q) (milliseconds : Z) :
  faithful round ->
  0 <= milliseconds < 2 ^ 31 ->
  let hh := padStart (toString (milliseconds / 3600000)) 2 in
  let mm := padStart (toString ((milliseconds / 60000) mod 60)) 2 in
  let ss := padStart (toString ((milliseconds / 1000) mod 60)) 2 in
  let cc := padStart (toString ((milliseconds mod 1000) / 10)) 2 in
  Clock.formatTime round milliseconds =
    (hh ++ ":" ++ mm ++ ":" ++ ss ++ "." ++ cc)%string /\
  read hh = Some (milliseconds / 3600000) /\
  read mm = Some ((milliseconds / 60000) mod 60) /\
  read ss = Some ((milliseconds / 1000) mod 60) /\
  read cc = Some ((milliseconds mod 1000) / 10) /\
  String.length mm = 2%nat /\ String.length ss = 2%nat /\
  String.length cc = 2%nat /\
  (2 <= String.length hh)%nat /\
  (milliseconds < 360000000 -> String.length hh = 2%nat).
Proof.
  intros Hround Hs hh mm ss cc. subst hh mm ss cc. unfold Clock.formatTime.
  rewrite (clock_hours round Hround milliseconds Hs).
  rewrite (clock_minutes round Hround milliseconds Hs).
  rewrite (clock_seconds round Hround milliseconds Hs).
  rewrite (clock_centiseconds round Hround milliseconds Hs).
  split; [reflexivity |].
  repeat (split; [apply read_padStart |]).
  split; [apply length_padStart_2; Z.div_mod_to_equations; lia |].
  split; [apply length_padStart_2; Z.div_mod_to_equations; lia |].
  split; [apply length_padStart_2; Z.div_mod_to_equations; lia |].
  split; [apply length_padStart_ge |].
  intros Hlt. apply length_padStart_2. Z.div_mod_to_equations; lia.
Qed.

Lemma formatTime_clock_witness :
  Clock.formatTime (fun x : Q => x) 3723456 = "01:02:03.45"%string /\
  String.length (padStart (toString (3723456 / 3600000)) 2) = 2%nat.
Proof.
  destruct (formatTime_clock (fun x : Q => x) 3723456 faithful_exact)
    as (H1 & _ & _ & _ & _ & _ & _ & _ & _ & H2).
  - lia.
  - split; [exact H1 | apply H2; lia].
Defined.

Example formatTime_examples :
  Counter.formatTime (fun x : Q => x) 6000 = "100:00"%string /\
  Clock.formatTime (fun x : Q => x) 0 = "00:00:00.00"%string /\
  Clock.formatTime (fun x : Q => x) 999 = "00:00:00.99"%string /\
  Clock.formatTime (fun x : Q => x) (-1500) = "-1:-1:-2.-50"%string.
Proof. repeat split. Qed.

End DisplayFacts.

(** ** The recorder that encodes WAV itself, further *)

Section WavRecorderFurther.

Import JS Runtime Wav WavRecorder Kept.


Lemma wav_reachable_ind (P : session -> Prop) :
  P init ->
  (forall (e : event) (s : session), P s -> P (fst (step e s))) ->
  forall s : session, reachable s -> P s.
Proof.
  intros H0 Hstep s [es ->]. unfold run.
  revert H0. generalize init as t.
  induction es as [| e es IH]; intros t Ht; cbn [fold_left]; [exact Ht |].
  apply IH, Hstep, Ht.
Qed.

(** What [stopRecording] makes of a recording session: the encoder
    returns, so nothing is raised. *)
Lemma wav_stopRecording_result (s : session) :
  isRecording s = true ->
  exists wav : list Z,
    encodeWAV (concat (audioDataRef s)) 44100 = Some wav /\
    stopRecording s =
    (let s := set_isRecording false s in
     let s := set_timerRef (option_map clearInterval (timerRef s)) s in
     let s := set_processorRef (option_map (fun _ => mkNode false) (processorRef s)) s in
     let s := set_sourceRef (option_map (fun _ => mkNode false) (sourceRef s)) s in
     let s := set_audioContextRef (option_map (fun _ => mkContext true) (audioContextRef s)) s in
     let release s := set_streamRef (option_map stop_tracks (streamRef s)) s in
     match audioDataRef s with
     | [] => release s
     | _ :: _ =>
         let s := set_audioBlob (Some (mkBlob wav "audio/wav")) s in
         let (u, s) := createObjectURL s in
         release (set_audioUrl (Some u) s)
     end, []).
Proof.
  intros Hrec.
  destruct (encodeWAV_fields (concat (audioDataRef s))) as (wav & Hwav & _).
  exists wav. split; [exact Hwav |].
  unfold stopRecording. rewrite Hrec. wav_fields.
  destruct (audioDataRef s) as [| chunk rest] eqn:E; [reflexivity |].
  rewrite gather_concat, Hwav. unfold new_Blob. cbn [concat]. rewrite app_nil_r.
  reflexivity.
Qed.

Lemma wav_cleanup_released (u : option url) (s : session) : released (cleanup u s).
Proof.
  unfold released, cleanup, holds_device, ticking, capturing.
  destruct u; wav_fields;
    destruct (streamRef s), (timerRef s), (processorRef s), (sourceRef s),
      (audioContextRef s); repeat split.
Qed.



(** The playback handlers touch nothing but the playing flag and the
    element. *)
Lemma wav_playback_frame (s : session) :
  forall t : session,
    t = togglePlayback s \/
    t = match audioRef s with
        | Some a => if paused a then s else onended s
        | None => s
        end ->
    isRecording t = isRecording s /\ recordingTime t = recordingTime s /\
    audioBlob t = audioBlob s /\ audioUrl t = audioUrl s /\
    streamRef t = streamRef s /\ timerRef t = timerRef s /\
    audioContextRef t = audioContextRef s /\ sourceRef t = sourceRef s /\
    processorRef t = processorRef s /\ audioDataRef t = audioDataRef s /\
    objectUrls t = objectUrls s /\ nextUrl t = nextUrl s.
Proof.
  intros t [-> | ->].
  - unfold togglePlayback.
    destruct (audioRef s); [destruct (audioUrl s) eqn:E; [destruct (isPlaying s) |] |];
      wav_fields; rewrite ?E; repeat split.
  - unfold onended.
    destruct (audioRef s) as [a |]; [destruct (paused a) |]; wav_fields; repeat split.
Qed.



Lemma wav_cleanup_urls (u : option url) (s : session) :
  audioUrl (cleanup u s) = audioUrl s /\
  nextUrl (cleanup u s) = nextUrl s /\
  objectUrls (cleanup u s) =
    match u with
    | Some v => filter (fun w => negb (Nat.eqb w v)) (objectUrls s)
    | None => objectUrls s
    end.
Proof. unfold cleanup. destruct u; wav_fields; repeat split. Qed.

(** An event keeps the object URLs tidy: a new artifact gets a fresh URL
    and the render that follows revokes the one it replaces. *)
Lemma wav_urls (e : event) (s : session) :
  tidy (audioUrl s) (objectUrls s) (nextUrl s) ->
  let s' := fst (step e s) in
  tidy (audioUrl s') (objectUrls s') (nextUrl s').
Proof.
  intros H s'. subst s'.
  assert (Frame : forall t : session,
    audioUrl t = audioUrl s -> objectUrls t = objectUrls s ->
    nextUrl t = nextUrl s ->
    tidy (audioUrl (commit s t)) (objectUrls (commit s t)) (nextUrl (commit s t))).
  { intros t H1 H2 H3. rewrite wav_commit_same by (symmetry; exact H1).
    now rewrite H1, H2, H3. }
  unfold step.
  destruct e as [device | inputData | | | | | iso]; cbn [fst].
  - destruct device; unfold startRecording; cbn [fst]; apply Frame; reflexivity.
  - destruct (capturing s); apply Frame; reflexivity.
  - destruct (ticking s); apply Frame; reflexivity.
  - destruct (isRecording s) eqn:Hrec.
    + destruct (wav_stopRecording_result s Hrec) as (wav & _ & ->). cbn [fst].
      cbv zeta. wav_fields.
      destruct (audioDataRef s); [apply Frame; reflexivity |].
      wav_fields. unfold commit. wav_fields.
      destruct H as [Hlive Hfresh]. unfold tidy.
      destruct (audioUrl s) as [u |] eqn:Hu; cbn [same_url].
      * specialize (Hfresh u eq_refl).
        replace (Nat.eqb u (nextUrl s)) with false
          by (symmetry; apply Nat.eqb_neq; lia).
        match goal with |- context [cleanup ?a ?t] =>
          destruct (wav_cleanup_urls a t) as (-> & -> & ->) end.
        wav_fields. rewrite Hlive. cbn [urls_of filter].
        replace (Nat.eqb (nextUrl s) u) with false
          by (symmetry; apply Nat.eqb_neq; lia).
        rewrite Nat.eqb_refl. cbn [negb].
        split; [reflexivity |]. intros v [= <-]. lia.
      * match goal with |- context [cleanup ?a ?t] =>
          destruct (wav_cleanup_urls a t) as (-> & -> & ->) end.
        wav_fields. rewrite Hlive. cbn [urls_of].
        split; [reflexivity |]. intros v [= <-]. lia.
    + rewrite wav_stopRecording_idle by exact Hrec. cbn [fst].
      apply Frame; reflexivity.
  - destruct (wav_playback_frame s _ (or_introl eq_refl))
      as (_ & _ & _ & ? & _ & _ & _ & _ & _ & _ & ? & ?).
    apply Frame; assumption.
  - destruct (wav_playback_frame s _ (or_intror eq_refl))
      as (_ & _ & _ & ? & _ & _ & _ & _ & _ & _ & ? & ?).
    apply Frame; assumption.
  - apply Frame; reflexivity.
Qed.

Lemma wav_reachable_tidy (s : session) :
  reachable s -> tidy (audioUrl s) (objectUrls s) (nextUrl s).
Proof.
  revert s. apply wav_reachable_ind.
  - split; [reflexivity | discriminate].
  - intros e t. apply wav_urls.
Qed.


Lemma wav_run_app (es fs : list event) (s : session) :
  run (es ++ fs) s = run fs (run es s).
Proof. unfold run. apply fold_left_app. Qed.

(** While the graph is connected, audio events push their buffers. *)
Lemma wav_run_audio (bs : list (list number)) : forall s : session,
  capturing s = true ->
  run (map AudioProcess bs) s = set_audioDataRef (audioDataRef s ++ bs) s.
Proof.
  induction bs as [| b bs IH]; intros s Hs.
  - cbn [map]. unfold run. cbn [fold_left]. rewrite app_nil_r. now destruct s.
  - unfold run in *. cbn [map fold_left].
    assert (E : fst (step (AudioProcess b) s) = onaudioprocess b s).
    { unfold step. rewrite Hs. cbn [fst]. now apply wav_commit_same. }
    rewrite E, IH by exact Hs.
    unfold onaudioprocess. wav_fields. now rewrite <- app_assoc.
Qed.

Lemma wav_step_start (s : session) :
  fst (step (StartRecording Granted) s) =
  set_timerRef (Some (mkInterval true))
    (set_recordingTime 0
       (set_isRecording true
          (set_processorRef (Some (mkNode true))
             (set_sourceRef (Some (mkNode true))
                (set_audioDataRef []
                   (set_processorRef (Some (mkNode false))
                      (set_sourceRef (Some (mkNode false))
                         (set_audioContextRef (Some (mkContext false))
                            (set_streamRef (Some (mkStream true)) s))))))))).
Proof.
  unfold step, startRecording. cbn [fst]. now apply wav_commit_same.
Qed.

(** X8.  A recording of the WAV variant from start to stop, from any
    session: after a granted start and the delivery of at least one sample
    buffer, the session is recording and holds exactly the buffers
    delivered since the start, in order (what was buffered before is
    dropped), the artifact of before untouched; [stopRecording] then
    raises nothing and leaves the session Stopped, with a fresh playback
    reference and as artifact the WAV encoding, typed [audio/wav], of the
    buffers put one after the other, 44 bytes plus two per sample. *)
Theorem wav_recording_encodes_buffers (bs : list (list number)) (s : session) :
  bs <> [] ->
  let recording := run (StartRecording Granted :: map AudioProcess bs) s in
  let finished := fst (step StopRecording recording) in
  isRecording recording = true /\
  audioDataRef recording = bs /\
  audioBlob recording = audioBlob s /\
  snd (step StopRecording recording) = [] /\
  state_of finished = Stopped /\
  audioUrl finished = Some (nextUrl s) /\
  exists wav : list Z,
    encodeWAV (concat bs) 44100 = Some wav /\
    audioBlob finished = Some (mkBlob wav "audio/wav") /\
    size (mkBlob wav "audio/wav") = (44 + 2 * length (concat bs))%nat.
Proof.
  intros Hbs recording finished.
  assert (Hrec : recording =
    set_audioDataRef bs (fst (step (StartRecording Granted) s))).
  { subst recording. change (run (?e :: ?es) s) with (run es (fst (step e s))).
    rewrite wav_run_audio; rewrite wav_step_start; reflexivity. }
  rewrite wav_step_start in Hrec.
  assert (H1 : isRecording recording = true) by (rewrite Hrec; reflexivity).
  assert (H2 : audioDataRef recording = bs) by (rewrite Hrec; reflexivity).
  assert (H3 : audioBlob recording = audioBlob s) by (rewrite Hrec; reflexivity).
  assert (H4 : nextUrl recording = nextUrl s) by (rewrite Hrec; reflexivity).
  assert (Hne : audioDataRef recording <> []) by (rewrite H2; exact Hbs).
  destruct (wav_stopRecording_encodes recording H1 Hne)
    as (wav & Hwav & Hfx & Hoff & Hblob & Hurl & _).
  rewrite H2 in Hwav. rewrite H4 in Hurl.
  subst finished. unfold step.
  destruct (stopRecording recording) as [t fx]. cbn [fst snd] in *.
  destruct (wav_commit_keeps recording t) as (Hr & Hb & Hu & _).
  unfold state_of. rewrite Hr, Hb, Hu, Hoff, Hurl, Hblob.
  repeat (split; [assumption || reflexivity |]).
  exists wav. split; [exact Hwav |]. split; [reflexivity |].
  destruct (encodeWAV_fields (concat bs)) as (buf & Hbuf & Hlen & _).
  rewrite Hwav in Hbuf. injection Hbuf as <-.
  unfold size. cbn [blob_bytes]. rewrite Hlen. lia.
Qed.

Lemma wav_recording_encodes_buffers_witness :
  exists wav : list Z,
    encodeWAV (concat [[Fin (1 # 2)]; [Fin 1; Fin (-1)]]) 44100 = Some wav /\
    audioBlob
      (fst (step StopRecording
              (run (StartRecording Granted ::
                    map AudioProcess [[Fin (1 # 2)]; [Fin 1; Fin (-1)]]) init))) =
      Some (mkBlob wav "audio/wav") /\
    size (mkBlob wav "audio/wav") = 50%nat.
Proof.
  destruct (wav_recording_encodes_buffers [[Fin (1 # 2)]; [Fin 1; Fin (-1)]] init)
    as (_ & _ & _ & _ & _ & _ & wav & H1 & H2 & H3).
  - discriminate.
  - exists wav. split; [exact H1 |]. split; [exact H2 | exact H3].
Defined.





End WavRecorderFurther.

(** ** The recorder built on [MediaRecorder], further *)

Section RecorderFurther.

Import Runtime Recorder Kept.

(** A step is its handler, then the render. *)
Lemma rec_step_handler (e : event) (s : session) :
  fst (step e s) =
  commit s
    (fst match e with
         | StartRecording device isTypeSupported now =>
             startRecording device isTypeSupported now s
         | DataAvailable data =>
             (match mediaRecorderRef s with
              | Some (mkRecorder Capturing _) => ondataavailable data s
              | _ => s
              end, [])
         | RecorderStopped data =>
             (match mediaRecorderRef s with
              | Some (mkRecorder Stopping type) =>
                  onstop type
                    (ondataavailable data
                       (set_mediaRecorderRef (Some (mkRecorder Inactive type)) s))
              | _ => s
              end, [])
         | Tick now => (if ticking s then ontick now s else s, [])
         | StopRecording => stopRecording s
         | TogglePlayback => (togglePlayback s, [])
         | Ended =>
             (match audioRef s with
              | Some a => if paused a then s else onended s
              | None => s
              end, [])
         | DownloadAudio iso => (s, downloadAudio iso s)
         | TranscribeAudio answer => transcribeAudio answer s
         | ResetRecording => (resetRecording s, [])
         end).
Proof.
  unfold step.
  destruct e as [device sup now | d | d | now | | | | iso | answer |];
    try reflexivity.
  - now destruct (startRecording device sup now s).
  - now destruct (stopRecording s).
  - now destruct (transcribeAudio answer s).
Qed.

Lemma rec_reachable_ind (P : session -> Prop) :
  P init ->
  (forall (e : event) (s : session), P s -> P (fst (step e s))) ->
  forall s : session, reachable s -> P s.
Proof.
  intros H0 Hstep s [es ->]. unfold run.
  revert H0. generalize init as t.
  induction es as [| e es IH]; intros t Ht; cbn [fold_left]; [exact Ht |].
  apply IH, Hstep, Ht.
Qed.

Lemma rec_cleanup_urls (u : option url) (s : session) :
  audioUrl (cleanup u s) = audioUrl s /\
  nextUrl (cleanup u s) = nextUrl s /\
  objectUrls (cleanup u s) =
    match u with
    | Some v => filter (fun w => negb (Nat.eqb w v)) (objectUrls s)
    | None => objectUrls s
    end.
Proof. unfold cleanup. destruct u; rec_fields; repeat split. Qed.

Lemma rec_cleanup_released (u : option url) (s : session) :
  holds_device (cleanup u s) = false /\ ticking (cleanup u s) = false.
Proof.
  unfold cleanup, holds_device, ticking.
  destruct u; rec_fields; destruct (streamRef s), (timerRef s); split; reflexivity.
Qed.

(** What an event does, before the render, to the playback reference and
    to the object URLs: nothing, a fresh URL as reference, or no
    reference. *)
Lemma rec_handler_urls (e : event) (s : session) :
  let t := fst match e with
         | StartRecording device isTypeSupported now =>
             startRecording device isTypeSupported now s
         | DataAvailable data =>
             (match mediaRecorderRef s with
              | Some (mkRecorder Capturing _) => ondataavailable data s
              | _ => s
              end, [])
         | RecorderStopped data =>
             (match mediaRecorderRef s with
              | Some (mkRecorder Stopping type) =>
                  onstop type
                    (ondataavailable data
                       (set_mediaRecorderRef (Some (mkRecorder Inactive type)) s))
              | _ => s
              end, [])
         | Tick now => (if ticking s then ontick now s else s, [])
         | StopRecording => stopRecording s
         | TogglePlayback => (togglePlayback s, [])
         | Ended =>
             (match audioRef s with
              | Some a => if paused a then s else onended s
              | None => s
              end, [])
         | DownloadAudio iso => (s, downloadAudio iso s)
         | TranscribeAudio answer => transcribeAudio answer s
         | ResetRecording => (resetRecording s, [])
         end in
  (audioUrl t = audioUrl s /\ objectUrls t = objectUrls s /\ nextUrl t = nextUrl s) \/
  (audioUrl t = Some (nextUrl s) /\ objectUrls t = nextUrl s :: objectUrls s /\
   nextUrl t = S (nextUrl s)) \/
  (audioUrl t = None /\ objectUrls t = objectUrls s /\ nextUrl t = nextUrl s).
Proof.
  destruct e as [device sup now | d | d | now | | | | iso | answer |]; cbn [fst].
  - left. unfold startRecording. destruct device; [| repeat split].
    destruct (sup (getSupportedMimeType sup)); repeat split.
  - left. unfold ondataavailable.
    destruct (mediaRecorderRef s) as [[[] type] |]; try (repeat split; fail).
    destruct (0 <? size d)%nat; repeat split.
  - unfold onstop, ondataavailable.
    destruct (mediaRecorderRef s) as [[[] type] |]; try (left; repeat split; fail).
    right; left. destruct (0 <? size d)%nat; repeat split.
  - left. unfold ontick. destruct (ticking s); [| repeat split].
    destruct (startTimeRef s) as [start |]; [| repeat split].
    destruct (start =? 0); repeat split.
  - left. unfold stopRecording.
    destruct (mediaRecorderRef s) as [[[] type] |], (isRecording s); repeat split.
  - left. unfold togglePlayback.
    destruct (audioRef s); [destruct (audioUrl s) eqn:E; [destruct (isPlaying s) |] |];
      rec_fields; rewrite ?E; repeat split.
  - left. unfold onended.
    destruct (audioRef s) as [a |]; [destruct (paused a) |]; repeat split.
  - left. repeat split.
  - left. unfold transcribeAudio.
    destruct (audioBlob s); [| repeat split].
    destruct (transcription answer); repeat split.
  - right; right. repeat split.
Qed.

(** An event keeps the object URLs tidy. *)
Lemma rec_urls (e : event) (s : session) :
  tidy (audioUrl s) (objectUrls s) (nextUrl s) ->
  let s' := fst (step e s) in
  tidy (audioUrl s') (objectUrls s') (nextUrl s').
Proof.
  intros [Hlive Hfresh] s'. subst s'. rewrite rec_step_handler.
  pose proof (rec_handler_urls e s) as H. cbv zeta in H.
  match goal with |- context [commit s ?h] => set (t := h) in * end.
  unfold commit.
  destruct H as [(Hu & Ho & Hn) | [(Hu & Ho & Hn) | (Hu & Ho & Hn)]].
  - rewrite Hu, rec_same_url_refl. rewrite Hu, Ho, Hn. now split.
  - rewrite Hu. destruct (audioUrl s) as [u |] eqn:Eu; cbn [same_url].
    + specialize (Hfresh u eq_refl).
      replace (Nat.eqb u (nextUrl s)) with false
        by (symmetry; apply Nat.eqb_neq; lia).
      match goal with |- context [cleanup ?a ?r] =>
        destruct (rec_cleanup_urls a r) as (-> & -> & ->) end.
      rec_fields. rewrite Hu, Ho, Hn, Hlive. cbn [urls_of filter option_map].
      replace (Nat.eqb (nextUrl s) u) with false
        by (symmetry; apply Nat.eqb_neq; lia).
      rewrite Nat.eqb_refl. cbn [negb].
      split; [reflexivity |]. intros v [= <-]. lia.
    + match goal with |- context [cleanup ?a ?r] =>
        destruct (rec_cleanup_urls a r) as (-> & -> & ->) end.
      rec_fields. rewrite Hu, Ho, Hn, Hlive. cbn [urls_of].
      split; [reflexivity |]. intros v [= <-]. lia.
  - rewrite Hu. destruct (audioUrl s) as [u |] eqn:Eu; cbn [same_url].
    + match goal with |- context [cleanup ?a ?r] =>
        destruct (rec_cleanup_urls a r) as (-> & -> & ->) end.
      rec_fields. rewrite Hu, Ho, Hn, Hlive. cbn [urls_of filter].
      rewrite Nat.eqb_refl. cbn [negb].
      split; [reflexivity |]. intros v [=].
    + rewrite Hu, Ho, Hn, Hlive. split; [reflexivity |]. intros v [=].
Qed.

Lemma rec_reachable_tidy (s : session) :
  reachable s -> tidy (audioUrl s) (objectUrls s) (nextUrl s).
Proof.
  revert s. apply rec_reachable_ind.
  - split; [reflexivity | discriminate].
  - intros e t. apply rec_urls.
Qed.

Lemma find_first {A : Type} (f : A -> bool) (pre post : list A) (x : A) :
  f x = true -> (forall y, In y pre -> f y = false) ->
  find f (pre ++ x :: post) = Some x.
Proof.
  intros Hx Hpre. induction pre as [| a pre IH]; cbn [app find].
  - now rewrite Hx.
  - rewrite (Hpre a (or_introl eq_refl)). apply IH.
    intros y Hy. apply Hpre. now right.
Qed.

Lemma find_nowhere {A : Type} (f : A -> bool) (l : list A) :
  (forall y, In y l -> f y = false) -> find f l = None.
Proof.
  intros H. induction l as [| a l IH]; [reflexivity |].
  cbn [find]. rewrite (H a (or_introl eq_refl)). apply IH.
  intros y Hy. apply H. now right.
Qed.

(** X13.  A start the device grants makes a recorder of the first
    candidate type, in the order of the list, that the runtime supports:
    the session then records, the chunks emptied, the elapsed time 0, the
    device held and the timer scheduled, and the type is logged.  When
    the runtime supports none of the candidates, the recorder cannot be
    made with the fallback [audio/webm] either: the start logs that type,
    reports the failure like a refusal of the device (console error and
    alert), and leaves the session as it was but for the stream, which it
    holds open. *)
Theorem start_needs_a_supported_type
  (isTypeSupported : string -> bool) (now : Z) (s : session) :
  (forall (pre post : list string) (type : string),
     types = pre ++ type :: post ->
     isTypeSupported type = true ->
     (forall other, In other pre -> isTypeSupported other = false) ->
     let s' := fst (step (StartRecording Granted isTypeSupported now) s) in
     mediaRecorderRef s' = Some (mkRecorder Capturing type) /\
     isRecording s' = true /\ chunksRef s' = [] /\ recordingTime s' = 0 /\
     holds_device s' = true /\ ticking s' = true /\
     snd (step (StartRecording Granted isTypeSupported now) s) =
       [GetUserMedia true true 44100;
        ConsoleLog ("Using MIME type: " ++ type)%string]) /\
  ((forall type, In type types -> isTypeSupported type = false) ->
   step (StartRecording Granted isTypeSupported now) s =
     (set_streamRef (Some (mkStream true)) s,
      [GetUserMedia true true 44100; ConsoleLog "Using MIME type: audio/webm";
       ConsoleError "Error accessing microphone:";
       Alert "Unable to access microphone. Please check permissions."]%string)).
Proof.
  split.
  - intros pre post type Htypes Hsupp Hpre.
    assert (Hfind : find isTypeSupported types = Some type)
      by (rewrite Htypes; now apply find_first).
    assert (Ht : getSupportedMimeType isTypeSupported = type)
      by (unfold getSupportedMimeType; now rewrite Hfind).
    assert (Hsup : isTypeSupported (getSupportedMimeType isTypeSupported) = true)
      by (now rewrite Ht).
    cbv zeta. rewrite (rec_step_start _ now s Hsup), Ht.
    repeat (split; [reflexivity |]).
    unfold step, startRecording. rewrite Hsup, Ht. reflexivity.
  - intros Hnone.
    assert (Hfind : find isTypeSupported types = None) by now apply find_nowhere.
    assert (Ht : getSupportedMimeType isTypeSupported = "audio/webm"%string)
      by (unfold getSupportedMimeType; now rewrite Hfind).
    assert (Hsup : isTypeSupported "audio/webm"%string = false).
    { apply Hnone. cbn. tauto. }
    unfold step, startRecording. rewrite Ht, Hsup.
    now rewrite rec_commit_same by reflexivity.
Qed.

Lemma start_needs_a_supported_type_witness :
  (let s' := fst (step (StartRecording Granted
                          (fun t => String.eqb t "audio/webm"%string) 5) init) in
   mediaRecorderRef s' = Some (mkRecorder Capturing "audio/webm"%string) /\
   isRecording s' = true) /\
  holds_device
    (fst (step (StartRecording Granted (fun _ => false) 5) init)) = true /\
  isRecording
    (fst (step (StartRecording Granted (fun _ => false) 5) init)) = false.
Proof.
  split.
  - destruct (proj1 (start_needs_a_supported_type
                       (fun t => String.eqb t "audio/webm"%string) 5 init)
                (firstn 2 types) (skipn 3 types) "audio/webm"%string)
      as (H1 & H2 & _).
    + reflexivity.
    + reflexivity.
    + intros other Hin. cbn in Hin.
      destruct Hin as [<- | [<- | []]]; reflexivity.
    + split; [exact H1 | exact H2].
  - rewrite (proj2 (start_needs_a_supported_type (fun _ => false) 5 init));
      [split; reflexivity | reflexivity].
Defined.






(** X15.  Through a recording of the [MediaRecorder] variant the stream
    is held from the start until the recorder's closing events, not only
    until [stopRecording]: while recording the device is held and the
    timer scheduled; [stopRecording] clears the timer and asks the
    recorder to stop, the device still held; the finalize callback then
    stops the tracks of the stream. *)
Theorem rec_recording_holds_device
  (isTypeSupported : string -> bool) (now : Z) (ds : list Blob) (final : Blob)
  (s : session) :
  isTypeSupported (getSupportedMimeType isTypeSupported) = true ->
  let type := getSupportedMimeType isTypeSupported in
  let recording :=
    run (StartRecording Granted isTypeSupported now :: map DataAvailable ds) s in
  let stopping := fst (step StopRecording recording) in
  let finished := fst (step (RecorderStopped final) stopping) in
  holds_device recording = true /\ ticking recording = true /\
  mediaRecorderRef stopping = Some (mkRecorder Stopping type) /\
  holds_device stopping = true /\ ticking stopping = false /\
  mediaRecorderRef finished = Some (mkRecorder Inactive type) /\
  holds_device finished = false /\ ticking finished = false.
Proof.
  intros Hsup type recording stopping finished.
  assert (Hrec : recording =
    set_chunksRef (filter (fun d => (0 <? size d)%nat) ds)
      (fst (step (StartRecording Granted isTypeSupported now) s))).
  { subst recording. change (run (?e :: ?es) s) with (run es (fst (step e s))).
    rewrite (rec_run_data ds _ type); rewrite (rec_step_start _ _ _ Hsup); reflexivity. }
  rewrite (rec_step_start _ _ _ Hsup) in Hrec.
  assert (H1 : isRecording recording = true) by (rewrite Hrec; reflexivity).
  assert (H2 : mediaRecorderRef recording = Some (mkRecorder Capturing type))
    by (rewrite Hrec; reflexivity).
  assert (Hstop : stopping = _)
    by (subst stopping; rewrite (rec_step_stop recording type H1 H2); reflexivity).
  cbn [fst] in Hstop.
  split; [rewrite Hrec; reflexivity |].
  split; [rewrite Hrec; reflexivity |].
  split; [rewrite Hstop; reflexivity |].
  split; [rewrite Hstop, Hrec; reflexivity |].
  split; [rewrite Hstop, Hrec; reflexivity |].
  assert (H3 : mediaRecorderRef stopping = Some (mkRecorder Stopping type))
    by (rewrite Hstop; reflexivity).
  destruct (rec_step_stopped final stopping type H3) as (_ & _ & _ & _ & H4).
  cbv zeta in H4. split; [exact H4 |].
  subst finished. rewrite rec_step_handler. cbn [fst]. rewrite H3.
  unfold commit.
  match goal with |- context [same_url ?a ?b] => destruct (same_url a b) end.
  - unfold onstop, ondataavailable, holds_device, ticking.
    destruct (0 <? size final)%nat; rec_fields;
      rewrite Hstop, Hrec; split; reflexivity.
  - apply rec_cleanup_released.
Qed.

Lemma rec_recording_holds_device_witness :
  holds_device
    (fst (step StopRecording
            (run (StartRecording Granted (fun _ => true) 0 ::
                  map DataAvailable [mkBlob [1; 2; 3] "audio/mp4"]) init))) = true /\
  holds_device
    (fst (step (RecorderStopped (mkBlob [4] "audio/mp4"))
            (fst (step StopRecording
                    (run (StartRecording Granted (fun _ => true) 0 ::
                          map DataAvailable [mkBlob [1; 2; 3] "audio/mp4"]) init))))) =
    false.
Proof.
  destruct (rec_recording_holds_device (fun _ => true) 0
              [mkBlob [1; 2; 3] "audio/mp4"] (mkBlob [4] "audio/mp4") init eq_refl)
    as (_ & _ & _ & H1 & _ & _ & H3 & _).
  split; [exact H1 | exact H3].
Defined.

(** X16.  Every artifact the [MediaRecorder] variant can hold is named
    [.m4a], [.webm] or [.ogg] by [downloadAudio], never [.mp3] nor
    [.wav]: the recorder is only ever made with one of the candidate
    types or the fallback, and each of them contains one of the markers
    "mp4", "webm" and "ogg". *)
Theorem rec_download_extensions (s : session) (blob : Blob) (iso : string) :
  reachable s -> audioBlob s = Some blob ->
  In (extension_of (blob_type blob)) ["m4a"; "webm"; "ogg"]%string /\
  exists (u : url) (extension : string),
    In extension ["m4a"; "webm"; "ogg"]%string /\
    snd (step (DownloadAudio iso) s) = [SaveFile u (download_name iso extension)].
Proof.
  intros Hs Hb.
  assert (Hext : In (extension_of (blob_type blob)) ["m4a"; "webm"; "ogg"]%string).
  { pose proof (rec_reachable_typed s blob Hs Hb) as Ht.
    cbn [In types] in Ht.
    repeat (destruct Ht as [<- | Ht]; [vm_compute; tauto |]). contradiction. }
  split; [exact Hext |].
  assert (Hu : audioUrl s <> None).
  { apply (not_none_iff _ _ (rec_reachable_paired s Hs)). rewrite Hb. discriminate. }
  destruct (audioUrl s) as [u |] eqn:Eu; [| contradiction].
  exists u, (extension_of (blob_type blob)). split; [exact Hext |].
  unfold step, downloadAudio. now rewrite Hb, Eu.
Qed.

Lemma rec_download_extensions_witness :
  In (extension_of (getSupportedMimeType (fun _ => true))) ["m4a"; "webm"; "ogg"]%string.
Proof.
  apply (rec_download_extensions Examples.rec_stopped
           (mkBlob [1; 2; 3; 4] (getSupportedMimeType (fun _ => true)))
           "2024-01-01T00:00:00.000Z"%string).
  - exists [StartRecording Granted (fun _ => true) 0;
            DataAvailable (mkBlob [1; 2; 3] "audio/mp4");
            StopRecording;
            RecorderStopped (mkBlob [4] "audio/mp4")]%string.
    reflexivity.
  - vm_compute. reflexivity.
Defined.

Lemma rec_commit_transcript (before s : session) :
  transcript (commit before s) = transcript s /\
  transcriptError (commit before s) = transcriptError s /\
  showTranscript (commit before s) = showTranscript s /\
  isTranscribing (commit before s) = isTranscribing s.
Proof.
  unfold commit, cleanup.
  destruct (same_url (audioUrl before) (audioUrl s)); [repeat split |].
  destruct (audioUrl before); rec_fields; repeat split.
Qed.

(** X17.  What [transcribeAudio] shows, by answer.  Without an artifact
    it does nothing and sends nothing.  With an artifact it sends that
    artifact once, under the file name "recording.mp3", and ends not
    transcribing, the artifact kept.  On a 2xx response with a JSON object
    it shows the object's [transcript] (nothing when there is none),
    clears the error and opens the panel.  Otherwise it logs and shows a
    message, and no transcript: the rejection's message when [fetch]
    rejected, the parser's message when the body is not JSON (whatever
    the status), the TypeError's message when the body is [null], and for
    a non-2xx JSON object its [detail] when that is truthy, else
    "Transcription failed". *)
Theorem transcribeAudio_outcomes (s : session) :
  (audioBlob s = None ->
   forall answer : fetch_result, step (TranscribeAudio answer) s = (s, [])) /\
  (forall blob : Blob,
     audioBlob s = Some blob ->
     let request :=
       Fetch "http://localhost:8000/api/transcribe" "POST" "audio_file" blob
         "recording.mp3" in
     (forall (status : Z) (fields : list (string * jsval)),
        ok status = true ->
        let s' := fst (step (TranscribeAudio (Response status (BodyObject fields))) s) in
        transcript s' = property fields "transcript" /\
        transcriptError s' = None /\ showTranscript s' = true /\
        isTranscribing s' = false /\ audioBlob s' = Some blob /\
        snd (step (TranscribeAudio (Response status (BodyObject fields))) s) =
          [request]) /\
     (forall answer : fetch_result,
        (forall (status : Z) (fields : list (string * jsval)),
           answer = Response status (BodyObject fields) -> ok status = false) ->
        let s' := fst (step (TranscribeAudio answer) s) in
        transcript s' = None /\ showTranscript s' = showTranscript s /\
        isTranscribing s' = false /\ audioBlob s' = Some blob /\
        snd (step (TranscribeAudio answer) s) =
          [request; ConsoleError "Transcription error:"] /\
        transcriptError s' =
          Some match answer with
               | Rejected message => message
               | Response _ (BodyInvalid message) => message
               | Response status BodyNull =>
                   null_read_message (if ok status then "transcript" else "detail")
               | Response _ (BodyObject fields) =>
                   match property fields "detail" with
                   | Some (JString EmptyString) | Some JNull | None
                   | Some (JOther false _) => "Transcription failed"
                   | Some (JString detail) => detail
                   | Some (JOther true shown) => shown
                   end
               end))%string.
Proof.
  split.
  - intros Hb answer. unfold step, transcribeAudio. rewrite Hb.
    now rewrite rec_commit_same.
  - intros blob Hb request. split.
    + intros status fields Hok s'. subst s'.
      unfold step, transcribeAudio, transcription. rewrite Hb, Hok. cbn [fst snd].
      destruct (rec_commit_transcript s
        (set_isTranscribing false
           (set_showTranscript true
              (set_transcript (property fields "transcript")
                 (set_transcript None
                    (set_transcriptError None (set_isTranscribing true s)))))))
        as (-> & -> & -> & ->).
      match goal with |- context [commit s ?t] =>
        destruct (rec_commit_keeps s t) as (_ & -> & _) end.
      rec_fields. repeat split; assumption.
    + intros answer Hfail s'. subst s'.
      assert (Hmsg : exists message : string, transcription answer = inl message /\
        message =
          (match answer with
           | Rejected message => message
           | Response _ (BodyInvalid message) => message
           | Response status BodyNull =>
               null_read_message (if ok status then "transcript" else "detail")
           | Response _ (BodyObject fields) =>
               match property fields "detail" with
               | Some (JString EmptyString) | Some JNull | None
               | Some (JOther false _) => "Transcription failed"
               | Some (JString detail) => detail
               | Some (JOther true shown) => shown
               end
           end)%string).
      { destruct answer as [message | status [message | | fields]];
          cbn [transcription]; try (eexists; split; reflexivity).
        rewrite (Hfail status fields eq_refl). eexists. split; [reflexivity |].
        unfold failure_message.
        destruct (property fields "detail"%string) as [[[| c d] | | [] shown] |];
          reflexivity. }
      destruct Hmsg as (message & Hm & <-).
      rewrite (transcribeAudio_failure answer message s blob Hb Hm).
      cbn [fst snd]. rec_fields. repeat split. exact Hb.
Qed.

Lemma transcribeAudio_outcomes_witness :
  transcript
    (fst (step (TranscribeAudio
                  (Response 200 (BodyObject [("transcript", JString "hello")]%string)))
            Examples.rec_stopped)) = Some (JString "hello"%string) /\
  transcriptError
    (fst (step (TranscribeAudio (Response 502 (BodyInvalid "Unexpected token <"%string)))
            Examples.rec_stopped)) = Some "Unexpected token <"%string /\
  step (TranscribeAudio (Rejected "Failed to fetch"%string)) init = (init, []).
Proof.
  pose proof (transcribeAudio_outcomes Examples.rec_stopped) as [_ Hsome].
  pose proof (transcribeAudio_outcomes init) as [Hnone _].
  specialize (Hsome (mkBlob [1; 2; 3; 4] (getSupportedMimeType (fun _ => true)))
                ltac:(vm_compute; reflexivity)).
  cbv zeta in Hsome. destruct Hsome as [Hok Hfail].
  split; [| split].
  - apply (Hok 200 [("transcript", JString "hello")]%string). reflexivity.
  - destruct (Hfail (Response 502 (BodyInvalid "Unexpected token <"%string)))
      as (_ & _ & _ & _ & _ & H); [discriminate | exact H].
  - apply Hnone. reflexivity.
Defined.




End RecorderFurther.

(** ** Both recorders: object URLs, unmounting, file names *)

Section BothRecorders.

Import Runtime Kept.

(** X11.  In every session either recorder can reach, the object URLs
    alive are exactly the current playback reference: none while there is
    no reference, and this one URL when there is one.  A new artifact gets
    a URL never handed out before, and the render that follows a change of
    the reference revokes the URL it replaces. *)
Theorem object_urls_are_current :
  (forall s : WavRecorder.session,
     WavRecorder.reachable s ->
     WavRecorder.objectUrls s =
       match WavRecorder.audioUrl s with Some u => [u] | None => [] end) /\
  (forall s : Recorder.session,
     Recorder.reachable s ->
     Recorder.objectUrls s =
       match Recorder.audioUrl s with Some u => [u] | None => [] end).
Proof.
  split.
  - intros s Hs. apply (wav_reachable_tidy s Hs).
  - intros s Hs. apply (rec_reachable_tidy s Hs).
Qed.

Lemma object_urls_are_current_witness :
  WavRecorder.objectUrls
    (WavRecorder.run
       [WavRecorder.StartRecording Granted;
        WavRecorder.AudioProcess [JS.Fin (1 # 2)];
        WavRecorder.StopRecording] Examples.wav_stopped) = [1%nat] /\
  Recorder.objectUrls
    (Recorder.run [Recorder.ResetRecording] Examples.rec_stopped) = [].
Proof.
  split.
  - rewrite (proj1 object_urls_are_current).
    + vm_compute. reflexivity.
    + exists ([WavRecorder.StartRecording Granted;
               WavRecorder.AudioProcess [JS.Fin (1 # 2)];
               WavRecorder.StopRecording] ++
              [WavRecorder.StartRecording Granted;
               WavRecorder.AudioProcess [JS.Fin (1 # 2)];
               WavRecorder.StopRecording]).
      rewrite wav_run_app. reflexivity.
  - rewrite (proj2 object_urls_are_current).
    + vm_compute. reflexivity.
    + exists ([Recorder.StartRecording Granted (fun _ => true) 0;
               Recorder.DataAvailable (mkBlob [1; 2; 3] "audio/mp4");
               Recorder.StopRecording;
               Recorder.RecorderStopped (mkBlob [4] "audio/mp4")]%string ++
              [Recorder.ResetRecording]).
      rewrite rec_run_app. reflexivity.
Defined.

(** X12.  Unmounting the component, from any session it can reach, runs
    the cleanup of the last render, after which the session holds nothing:
    the tracks of its stream are stopped, its timer is cleared, no object
    URL is alive, and in the WAV variant the audio graph is disconnected
    and its context closed. *)
Theorem unmount_releases_everything :
  (forall s : WavRecorder.session,
     WavRecorder.reachable s ->
     let s' := WavRecorder.cleanup (WavRecorder.audioUrl s) s in
     WavRecorder.holds_device s' = false /\ WavRecorder.ticking s' = false /\
     WavRecorder.capturing s' = false /\ WavRecorder.objectUrls s' = []) /\
  (forall s : Recorder.session,
     Recorder.reachable s ->
     let s' := Recorder.cleanup (Recorder.audioUrl s) s in
     Recorder.holds_device s' = false /\ Recorder.ticking s' = false /\
     Recorder.objectUrls s' = []).
Proof.
  split.
  - intros s Hs s'. subst s'.
    destruct (wav_reachable_tidy s Hs) as [Hlive _].
    destruct (wav_cleanup_released (WavRecorder.audioUrl s) s) as (H1 & H2 & H3).
    repeat (split; [assumption |]).
    destruct (wav_cleanup_urls (WavRecorder.audioUrl s) s) as (_ & _ & ->).
    rewrite Hlive.
    destruct (WavRecorder.audioUrl s); cbn [urls_of filter]; [| reflexivity].
    now rewrite Nat.eqb_refl.
  - intros s Hs s'. subst s'.
    destruct (rec_reachable_tidy s Hs) as [Hlive _].
    destruct (rec_cleanup_released (Recorder.audioUrl s) s) as (H1 & H2).
    repeat (split; [assumption |]).
    destruct (rec_cleanup_urls (Recorder.audioUrl s) s) as (_ & _ & ->).
    rewrite Hlive.
    destruct (Recorder.audioUrl s); cbn [urls_of filter]; [| reflexivity].
    now rewrite Nat.eqb_refl.
Qed.

Lemma unmount_releases_everything_witness :
  WavRecorder.holds_device
    (WavRecorder.cleanup (WavRecorder.audioUrl Examples.wav_recording)
       Examples.wav_recording) = false /\
  Recorder.objectUrls
    (Recorder.cleanup (Recorder.audioUrl Examples.rec_stopped)
       Examples.rec_stopped) = [].
Proof.
  split.
  - apply (proj1 unmount_releases_everything Examples.wav_recording).
    eexists. reflexivity.
  - apply (proj2 unmount_releases_everything Examples.rec_stopped).
    eexists. reflexivity.
Defined.

Lemma includes_colon_cons (c : ascii) (s : string) :
  includes (String c s) ":" = Ascii.eqb c ":" || includes s ":".
Proof.
  cbn [includes prefix].
  destruct (Ascii.ascii_dec ":" c) as [<- | E].
  - destruct s; reflexivity.
  - replace (Ascii.eqb c ":") with false
      by (symmetry; apply Ascii.eqb_neq; congruence).
    reflexivity.
Qed.

Lemma includes_colon_app (a b : string) :
  includes (a ++ b) ":" = includes a ":" || includes b ":".
Proof.
  induction a as [| c a IH]; [reflexivity |].
  cbn [String.append]. rewrite !includes_colon_cons, IH.
  now rewrite orb_assoc.
Qed.

Lemma replace_colons_no_colon (s : string) : includes (replace_colons s) ":" = false.
Proof.
  induction s as [| c s IH]; [reflexivity |].
  cbn [replace_colons]. rewrite includes_colon_cons, IH.
  destruct (Ascii.eqb c ":") eqn:E; [reflexivity |].
  now rewrite E.
Qed.

Lemma length_replace_colons (s : string) :
  String.length (replace_colons s) = String.length s.
Proof. induction s as [| c s IH]; simpl; congruence. Qed.

Lemma length_substring_0 (n : nat) : forall s : string,
  String.length (substring 0 n s) = Nat.min n (String.length s).
Proof.
  induction n as [| n IH]; intros [| c s]; simpl; try reflexivity.
  now rewrite IH.
Qed.

(** X19.  The file name [downloadAudio] gives is "recording-", the first
    19 characters of the timestamp with every colon turned into a hyphen,
    a dot and the extension; whatever the timestamp and the media type,
    the name contains no colon, and for a timestamp of at least 19
    characters it has 30 characters plus the extension. *)
Theorem download_name_has_no_colon (iso mimeType : string) :
  prefix "recording-" (download_name iso (extension_of mimeType)) = true /\
  includes (download_name iso (extension_of mimeType)) ":" = false /\
  String.length (download_name iso (extension_of mimeType)) =
    (10 + Nat.min 19 (String.length iso) + 1 +
     String.length (extension_of mimeType))%nat.
Proof.
  unfold download_name. split.
  { cbn. match goal with |- prefix EmptyString ?t = true => now destruct t end. }
  split.
  - rewrite !includes_colon_app, replace_colons_no_colon.
    unfold extension_of.
    destruct (includes mimeType "mp4"); [reflexivity |].
    destruct (includes mimeType "webm"); [reflexivity |].
    destruct (includes mimeType "ogg"); [reflexivity |].
    destruct (includes mimeType "wav"); reflexivity.
  - rewrite !string_length_append, length_replace_colons, length_substring_0.
    cbn [String.length]. lia.
Qed.

Example download_name_examples :
  download_name "2024-05-06T07:08:09.123Z" (extension_of "audio/webm; codecs=opus") =
    "recording-2024-05-06T07-08-09.webm"%string /\
  download_name "12:3" "wav" = "recording-12-3.wav"%string.
Proof. split; reflexivity. Qed.

End BothRecorders.

(** ** The upload *)

Section UploadFacts.

Import Runtime Upload Kept.

Lemma upload_step_inv (e : event) (s : session) :
  upload_inv s -> upload_inv (fst (step e s)).
Proof.
  intros Hinv. pose proof Hinv as ((Hp & Hm) & Hst & Hidle).
  destruct e as [blob h | | |]; cbn [step].
  - destruct (isUploading s) eqn:Hu; [exact Hinv |].
    unfold uploadAudio.
    destruct blob as [blob |]; [| exact Hinv].
    destruct h as [h |]; [| exact Hinv].
    destruct (h blob) as [fx r]. cbn [fst].
    destruct Hst as [(_ & Hpend & Ht) | [(Hc & _) | (Hc & _)]]; try congruence.
    unfold upload_inv. cbn. rewrite Hpend, Ht.
    repeat split; try lia. right; left. repeat split; try lia. now exists r.
  - cbn [fst]. destruct (0 <? intervals s)%nat; [| exact Hinv].
    unfold onprogress. destruct (90 <=? uploadProgress s) eqn:E.
    + unfold upload_inv. cbn. repeat split; try lia.
      destruct Hst as [H | [(H1 & H2 & H3 & H4) | H]]; auto.
      right; left. repeat split; try assumption. lia.
    + apply Z.leb_gt in E. unfold upload_inv. cbn.
      assert (Hnext : uploadProgress s + 10 <= 90) by (Z.div_mod_to_equations; lia).
      split; [split; [lia | Z.div_mod_to_equations; lia] |].
      split; [| lia].
      destruct Hst as [H | [(H1 & H2 & H3 & H4) | H]]; auto.
      right; left. repeat split; try assumption.
  - destruct (pending s) as [| r rest] eqn:Hpend; [exact Hinv |].
    destruct Hst as [(_ & Hc & _) | [(Hu & (r' & Hr) & Ht & Hle) | (_ & Hc & _)]];
      try congruence.
    injection Hr as -> ->.
    destruct r'; cbn; unfold upload_inv; cbn; rewrite ?Hu, ?Ht.
    + repeat split; try lia; try discriminate. right; right. repeat split.
    + repeat split; try lia. left. repeat split.
  - cbn [fst]. destruct (0 <? timeouts s)%nat eqn:E; [| exact Hinv].
    apply Nat.ltb_lt in E.
    destruct Hst as [(_ & _ & Hc) | [(_ & _ & Hc & _) | (Hu & Hpend & Ht)]]; try lia.
    unfold upload_inv, ontimeout. cbn. rewrite Hpend, Ht.
    repeat split; try lia. left. repeat split.
Qed.

Lemma upload_ticks_idle (n : nat) (s : session) :
  intervals s = O -> run (repeat ProgressTick n) s = s.
Proof.
  intros H. induction n as [| n IH]; [reflexivity |].
  unfold run in *. cbn [repeat fold_left step fst]. rewrite H. exact IH.
Qed.

(** The ticks of the one progress interval of an upload. *)
Lemma upload_ticks (n : nat) : forall s : session,
  intervals s = 1%nat ->
  0 <= uploadProgress s <= 90 -> uploadProgress s mod 10 = 0 ->
  run (repeat ProgressTick n) s =
  {| isUploading := isUploading s;
     uploadProgress := Z.min (uploadProgress s + 10 * Z.of_nat n) 90;
     intervals := if uploadProgress s + 10 * Z.of_nat n <=? 90 then 1 else 0;
     timeouts := timeouts s; pending := pending s |}.
Proof.
  induction n as [| n IH]; intros s Hi Hp Hm.
  - cbn [repeat]. unfold run. cbn [fold_left].
    replace (uploadProgress s + 10 * Z.of_nat 0) with (uploadProgress s) by lia.
    rewrite Z.min_l by lia.
    replace (uploadProgress s <=? 90) with true by (symmetry; apply Z.leb_le; lia).
    rewrite <- Hi. now destruct s.
  - cbn [repeat]. change (run (?e :: ?es) s) with (run es (fst (step e s))).
    cbn [step fst]. rewrite Hi. cbn [Nat.ltb Nat.leb].
    unfold onprogress. destruct (90 <=? uploadProgress s) eqn:E.
    + apply Z.leb_le in E. rewrite upload_ticks_idle by (cbn; now rewrite Hi).
      rewrite Hi. cbn [pred].
      rewrite Z.min_r by lia.
      replace (uploadProgress s + 10 * Z.of_nat (S n) <=? 90) with false
        by (symmetry; apply Z.leb_gt; lia).
      reflexivity.
    + apply Z.leb_gt in E.
      rewrite IH; cbn [intervals uploadProgress isUploading timeouts pending];
        try assumption; try (Z.div_mod_to_equations; lia).
      replace (uploadProgress s + 10 + 10 * Z.of_nat n)
        with (uploadProgress s + 10 * Z.of_nat (S n)) by lia.
      reflexivity.
Qed.

(** X22.  In every state the upload can reach, the progress shown is one
    of 0, 10, ..., 100; exactly one call of the handler or one completion
    timeout is outstanding while [isUploading] is set, and none
    otherwise; and 100 is shown only between the completion of an upload
    and the timeout that follows it. *)
Theorem upload_progress_invariant (s : session) :
  reachable s ->
  0 <= uploadProgress s <= 100 /\ uploadProgress s mod 10 = 0 /\
  (length (pending s) + timeouts s)%nat = (if isUploading s then 1%nat else O) /\
  (uploadProgress s = 100 -> timeouts s = 1%nat).
Proof.
  intros [es ->].
  assert (H : upload_inv (run es init)).
  { unfold run. assert (H0 : upload_inv init).
    { unfold upload_inv. cbn. repeat split; try lia. left. repeat split. }
    revert H0. generalize init as t.
    induction es as [| e es IH]; intros t Ht; cbn [fold_left]; [exact Ht |].
    apply IH, upload_step_inv, Ht. }
  destruct H as ((Hp & Hm) & Hst & Hidle).
  split; [exact Hp |]. split; [exact Hm |].
  destruct Hst as [(Hu & Hpe & Hto) | [(Hu & (r & Hpe) & Hto & Hle) | (Hu & Hpe & Hto)]];
    rewrite Hu, Hpe, Hto.
  - split; [reflexivity |]. intros E. specialize (Hidle Hu). lia.
  - split; [reflexivity |]. intros E. lia.
  - split; reflexivity.
Qed.

Lemma upload_progress_invariant_witness :
  timeouts
    (run [Click (Some (mkBlob [1; 2] "audio/wav")) (Some Page.handleAudioUpload);
          ProgressTick; Settled] init) = 1%nat.
Proof.
  apply (upload_progress_invariant
           (run [Click (Some (mkBlob [1; 2] "audio/wav")) (Some Page.handleAudioUpload);
                 ProgressTick; Settled] init)).
  - eexists. reflexivity.
  - vm_compute. reflexivity.
Defined.



(** X24.  An upload whose handler rejects: after [n] ticks of the
    progress interval, the rejection logs "Upload failed:", alerts
    "Upload failed. Please try again.", and leaves the upload not
    uploading, at progress 0, nothing outstanding.  It does not clear the
    progress interval: when fewer than ten ticks came first the interval
    is still scheduled, its next tick moves the progress to 10 although
    nothing is being uploaded, and a further upload runs with two
    intervals. *)
Theorem upload_failure (handle : handler) (blob : Blob) (n : nat) :
  snd (handle blob) = Rejects ->
  let uploading := run (Click (Some blob) (Some handle) :: repeat ProgressTick n) init in
  let failed := fst (step Settled uploading) in
  snd (step Settled uploading) =
    [ConsoleError "Upload failed:"; Alert "Upload failed. Please try again."] /\
  isUploading failed = false /\ uploadProgress failed = 0 /\
  pending failed = [] /\ timeouts failed = O /\
  intervals failed = (if (n <? 10)%nat then 1%nat else O) /\
  ((n < 10)%nat ->
   uploadProgress (fst (step ProgressTick failed)) = 10 /\
   intervals (fst (step (Click (Some blob) (Some handle)) failed)) = 2%nat).
Proof.
  intros Hrej uploading failed.
  assert (Hup : uploading =
    {| isUploading := true; uploadProgress := Z.min (10 * Z.of_nat n) 90;
       intervals := if 10 * Z.of_nat n <=? 90 then 1 else 0;
       timeouts := 0; pending := [Rejects] |}).
  { subst uploading.
    change (run (?e :: ?es) init) with (run es (fst (step e init))).
    cbn [step init isUploading uploadAudio].
    destruct (handle blob) as [fx r]. cbn [snd] in Hrej. subst r. cbn [fst].
    rewrite upload_ticks; cbn; try reflexivity; lia. }
  subst failed. rewrite Hup. cbn [step pending onsettled fst snd isUploading
    uploadProgress intervals timeouts upload_alert].
  repeat (split; [reflexivity |]).
  split.
  - destruct (n <? 10)%nat eqn:E.
    + apply Nat.ltb_lt in E.
      replace (10 * Z.of_nat n <=? 90) with true by (symmetry; apply Z.leb_le; lia).
      reflexivity.
    + apply Nat.ltb_ge in E.
      replace (10 * Z.of_nat n <=? 90) with false by (symmetry; apply Z.leb_gt; lia).
      reflexivity.
  - intros Hn.
    replace (10 * Z.of_nat n <=? 90) with true by (symmetry; apply Z.leb_le; lia).
    cbn [step fst isUploading intervals Nat.ltb Nat.leb onprogress uploadProgress
         Z.leb Z.compare]. unfold uploadAudio.
    destruct (handle blob) as [fx r]. split; reflexivity.
Qed.

Lemma upload_failure_witness :
  snd (step Settled
         (run (Click (Some (mkBlob [1; 2] "audio/wav"))
                 (Some (fun _ => ([], Rejects))) :: repeat ProgressTick 2) init)) =
    [ConsoleError "Upload failed:"; Alert "Upload failed. Please try again."] /\
  intervals
    (fst (step Settled
            (run (Click (Some (mkBlob [1; 2] "audio/wav"))
                    (Some (fun _ => ([], Rejects))) :: repeat ProgressTick 2) init))) =
    1%nat.
Proof.
  destruct (upload_failure (fun _ => ([], Rejects)) (mkBlob [1; 2] "audio/wav") 2 eq_refl)
    as (H1 & _ & _ & _ & _ & H2 & _).
  split; [exact H1 | exact H2].
Defined.

End UploadFacts.
